(** * templ generate: the continuous-build orchestrator

    A shallow embedding of [cmd/templ/generatecmd/main.go] and the
    verification of its specification.

    Conventions of the embedding.
    - Go strings are [string]; paths are strings.
    - [time.Time] is an integer [Z] (an instant on the wall clock); the zero
      value [time.Time{}] is [0].  [time.Duration] is a [Z] in milliseconds.
    - [map[string]time.Time] is [gmap string Z]; reading a missing key gives
      the zero value, as in Go.
    - Go's [error] is the inductive [error] below; a nil error is [None].
    - The operating system (file system, context, external parser and
      generator) is an explicit parameter of every function that uses it. *)

From Stdlib Require Import ZArith Lia Bool Ascii String List.
From stdpp Require Import base gmap strings list.

Local Open Scope Z_scope.
Set Warnings "-register-all".

(* ===================================================================== *)
(** * Part I: the program                                                 *)
(* ===================================================================== *)

(** ** Package [strings] and [path] *)

Module GoStrings.

(** [strings.HasPrefix(s, prefix)] *)
Definition HasPrefix (s prefix : string) : bool := String.prefix prefix s.

(** [strings.HasSuffix(s, suffix)]:
    [len(s) >= len(suffix) && s[len(s)-len(suffix):] == suffix] *)
Definition HasSuffix (s suffix : string) : bool :=
  (String.length suffix <=? String.length s)%nat &&
  String.eqb
    (String.substring (String.length s - String.length suffix)
                      (String.length suffix) s)
    suffix.

(** [strings.TrimSuffix(s, suffix)] *)
Definition TrimSuffix (s suffix : string) : string :=
  if HasSuffix s suffix
  then String.substring 0 (String.length s - String.length suffix) s
  else s.

(** [strings.LastIndex(s, "/")], scanning with the index [i] of the head of
    [s] and the last index seen so far; [-1] when there is none. *)
Fixpoint LastIndexSlash_from (s : string) (i last : Z) : Z :=
  match s with
  | EmptyString => last
  | String c r =>
      LastIndexSlash_from r (i + 1) (if Ascii.eqb c "/" then i else last)
  end.

Definition LastIndexSlash (s : string) : Z := LastIndexSlash_from s 0 (-1).

(** [path.Split(p)]: [i := strings.LastIndex(p, "/"); return p[:i+1], p[i+1:]] *)
Definition Split (p : string) : string * string :=
  let i := Z.to_nat (LastIndexSlash p + 1) in
  (String.substring 0 i p, String.substring i (String.length p - i) p).

(** [filepath.Join(dir, name)] on the arguments [filepath.WalkDir] gives it:
    a cleaned directory path and a single path element. *)
Definition Join (dir name : string) : string :=
  if String.eqb dir "/" then "/" +:+ name else dir +:+ "/" +:+ name.

End GoStrings.

(** ** Package [errors] *)

Inductive error : Type :=
| context_Canceled
| errorString (msg : string)
| wrapError (msg : string) (err : error)
| joinError (errs : list error).

Module GoErrors.

(** [strings.Join(msgs, "\n")] *)
Fixpoint joinLines (msgs : list string) : string :=
  match msgs with
  | [] => ""
  | [m] => m
  | m :: ms => m +:+ String "010" (joinLines ms)
  end.

(** [err.Error()] *)
Fixpoint Error (e : error) : string :=
  match e with
  | context_Canceled => "context canceled"
  | errorString msg => msg
  | wrapError msg err => msg +:+ Error err
  | joinError errs => joinLines (List.map Error errs)
  end.

(** [errors.Is(e, context.Canceled)]: follows [Unwrap() error] of an error
    built with [%w] and [Unwrap() []error] of a joined error. *)
Fixpoint IsCanceled (e : error) : bool :=
  match e with
  | context_Canceled => true
  | errorString _ => false
  | wrapError _ err => IsCanceled err
  | joinError errs => List.existsb IsCanceled errs
  end.

(** [fmt.Errorf(format + "%w", err)] *)
Definition Errorf_w (format : string) (err : error) : error :=
  wrapError format err.

(** [fmt.Errorf(format + "%v", err)]: the text only, nothing to unwrap. *)
Definition Errorf_v (format : string) (err : error) : error :=
  errorString (format +:+ Error err).

(** [errors.Join(errs...)] for a non-empty list of non-nil errors. *)
Definition Join (errs : list error) : error := joinError errs.

End GoErrors.

(** ** The version gate: [checkTemplVersion] *)

(** [modfile.Require]: [r.Mod.Path] and [r.Mod.Version]. *)
Record Require := mkRequire { Mod_Path : string; Mod_Version : string }.

(** [modfile.File]: [mf.Module] is a pointer, nil when the manifest has no
    module directive; [mf.Require] in file order. *)
Record ModFile := mkModFile {
  Module_Path : option string;
  Requires : list Require
}.

(** What the gate meets at [filepath.Join(dir, "go.mod")]. *)
Inductive GoMod : Type :=
| StatNotExist
| StatFailed
| ReadFailed
| ParseFailed
| Parsed (mf : ModFile).

Inductive GateError : Type :=
| ErrAbsPath
| ErrStatGoMod
| ErrNoGoMod
| ErrReadGoMod
| ErrParseGoMod
| ErrGeneratorNewer (running declared : string)
| ErrGeneratorOlder (running declared : string).

Inductive GateResult : Type :=
| GatePass
| GateFail (e : GateError)
| GatePanic.

Definition templModulePath : string := "github.com/a-h/templ".

(** The text of each error the gate returns. *)
Definition GateError_message (e : GateError) : string :=
  match e with
  | ErrAbsPath => "failed to get absolute path"
  | ErrStatGoMod => "failed to stat go.mod file"
  | ErrNoGoMod => "could not find go.mod file"
  | ErrReadGoMod => "failed to read go.mod file"
  | ErrParseGoMod => "failed to parse go.mod file"
  | ErrGeneratorNewer running declared =>
      "generator " +:+ running +:+ " is newer than templ version " +:+ declared
      +:+ " found in go.mod file, consider running `go get -u github.com/a-h/templ` to upgrade"
  | ErrGeneratorOlder running declared =>
      "generator " +:+ running +:+ " is older than templ version " +:+ declared
      +:+ " found in go.mod file, consider upgrading templ CLI"
  end.

(** The two classes of version mismatch. *)
Definition isUpgradeCLI (r : GateResult) : bool :=
  match r with GateFail (ErrGeneratorOlder _ _) => true | _ => false end.

Definition isUpgradeLibrary (r : GateResult) : bool :=
  match r with GateFail (ErrGeneratorNewer _ _) => true | _ => false end.

Section VersionGate.

(** [semver.Compare] of golang.org/x/mod and [templ.Version()] are not part
    of this package: they are parameters. *)
Variable semver_Compare : string -> string -> Z.
Variable templ_Version : string.

(** [for _, r := range mf.Require { ... }]: [Some] when the loop returns,
    [None] when it runs off the end of the list. *)
Fixpoint rangeRequire (rs : list Require) : option GateResult :=
  match rs with
  | [] => None
  | r :: rs' =>
      if String.eqb (Mod_Path r) templModulePath then
        let cmp := semver_Compare (Mod_Version r) templ_Version in
        if cmp <? 0 then
          Some (GateFail (ErrGeneratorNewer templ_Version (Mod_Version r)))
        else if cmp >? 0 then
          Some (GateFail (ErrGeneratorOlder templ_Version (Mod_Version r)))
        else Some GatePass
      else rangeRequire rs'
  end.

(** The part of the loop body that follows a successful [modfile.Parse]. *)
Definition checkModFile (mf : ModFile) : option GateResult :=
  match Module_Path mf with
  | None => Some GatePanic
  | Some p =>
      if String.eqb p templModulePath then Some GatePass
      else rangeRequire (Requires mf)
  end.

(** One turn of the [for { ... }] loop.  [cur] is the go.mod of [dir],
    [parents] those of the directories above it, nearest first; the root is
    the directory with no parent ([filepath.Dir(dir) == dir]).
    [inl] is a return, [inr] the state [continue] goes on with. *)
Definition gateStep (cur : GoMod) (parents : list GoMod)
  : GateResult + (GoMod * list GoMod) :=
  match cur with
  | StatFailed => inl (GateFail ErrStatGoMod)
  | StatNotExist =>
      match parents with
      | [] => inl (GateFail ErrNoGoMod)
      | p :: ps => inr (p, ps)
      end
  | ReadFailed => inl (GateFail ErrReadGoMod)
  | ParseFailed => inl (GateFail ErrParseGoMod)
  | Parsed mf =>
      match checkModFile mf with
      | Some r => inl r
      | None => inr (cur, parents)
      end
  end.

Fixpoint gateLoop (fuel : nat) (cur : GoMod) (parents : list GoMod)
  : option GateResult :=
  match fuel with
  | O => None
  | S fuel' =>
      match gateStep cur parents with
      | inl r => Some r
      | inr (cur', parents') => gateLoop fuel' cur' parents'
      end
  end.

(** [checkTemplVersion(dir)]; [absOk] is whether [filepath.Abs] succeeds.
    [None]: the loop is still running when the fuel is spent. *)
Definition checkTemplVersion (fuel : nat) (absOk : bool)
  (cur : GoMod) (parents : list GoMod) : option GateResult :=
  if absOk then gateLoop fuel cur parents
  else Some (GateFail ErrAbsPath).

(** The manifest the upward search stops at, if any. *)
Fixpoint foundManifest (cur : GoMod) (parents : list GoMod) : option ModFile :=
  match cur with
  | Parsed mf => Some mf
  | StatNotExist =>
      match parents with
      | [] => None
      | p :: ps => foundManifest p ps
      end
  | _ => None
  end.

(** The version the manifest declares for this tool: the first matching
    entry of its dependency list. *)
Fixpoint declaredVersion (rs : list Require) : option string :=
  match rs with
  | [] => None
  | r :: rs' =>
      if String.eqb (Mod_Path r) templModulePath then Some (Mod_Version r)
      else declaredVersion rs'
  end.

End VersionGate.

(** An instance of [semver.Compare] for plain versions [vMAJOR.MINOR.PATCH]
    (no pre-release, no build tag), which it orders number by number; a
    string of another shape is below every plain version.  It serves to run
    the gate on concrete manifests. *)
Module PlainSemver.

Fixpoint parseDigits (s : string) (acc : N) : option N :=
  match s with
  | EmptyString => Some acc
  | String c r =>
      match Ascii.is_nat c with
      | Some d => parseDigits r (10 * acc + N.of_nat d)%N
      | None => None
      end
  end.

Definition parseNumber (s : string) : option N :=
  match s with
  | EmptyString => None
  | _ => parseDigits s 0%N
  end.

(** Cuts [s] at every dot; [cur] is the current piece, reversed. *)
Fixpoint splitDots (s : string) (cur : string) : list string :=
  match s with
  | EmptyString => [String.rev cur]
  | String c r =>
      if Ascii.eqb c "." then String.rev cur :: splitDots r ""
      else splitDots r (String c cur)
  end.

Definition parse (v : string) : option (N * N * N) :=
  match v with
  | String "v" rest =>
      match splitDots rest "" with
      | [a; b; c] =>
          match parseNumber a, parseNumber b, parseNumber c with
          | Some x, Some y, Some z => Some (x, y, z)
          | _, _, _ => None
          end
      | _ => None
      end
  | _ => None
  end.

Definition compareInt (x y : N) : Z :=
  match N.compare x y with Eq => 0 | Lt => -1 | Gt => 1 end.

Definition Compare (v w : string) : Z :=
  match parse v, parse w with
  | None, None => 0
  | None, Some _ => -1
  | Some _, None => 1
  | Some (a, b, c), Some (x, y, z) =>
      if negb (compareInt a x =? 0) then compareInt a x
      else if negb (compareInt b y =? 0) then compareInt b y
      else compareInt c z
  end.

End PlainSemver.

(** ** The world a scan runs in *)

(** A path that exists is a regular file with its contents, or a directory. *)
Inductive Inode : Type :=
| IFile (contents : string)
| IDir.

(** The file system: every path that exists. *)
Abbreviation FS := (gmap string Inode).

(** Why an operation on an existing path may still fail (permissions, a
    read-only volume, a link that leads nowhere, a full disk, ...): the
    operating system's answer, per path. *)
Record OS := mkOS {
  (** [os.Stat] fails on the path though the path is there *)
  statFails : string -> bool;
  removeFails : string -> bool;
  (** [os.WriteFile] fails when it opens the path *)
  writeFails : string -> bool;
  (** [os.WriteFile] fails after the open, in its write or its close, with
      so many bytes in the file *)
  writeStops : string -> option nat;
  readFails : string -> bool;
  createFails : string -> bool;
  (** [filepath.Rel(basepath, targpath)], its error dropped *)
  filepath_Rel : string -> string -> string
}.

(** [_, err := os.Stat(p)]: the error, [None] for nil.  A path that is not
    there gives an error; so may a path that is there. *)
Definition os_Stat (os : OS) (fs : FS) (p : string) : option error :=
  match fs !! p with
  | None => Some (errorString ("stat " +:+ p +:+ ": no such file or directory"))
  | Some _ =>
      if statFails os p
      then Some (errorString ("stat " +:+ p +:+ ": input/output error"))
      else None
  end.

(** [os.Remove(p)]: [inl] is the error. *)
Definition os_Remove (os : OS) (fs : FS) (p : string) : error + FS :=
  match fs !! p with
  | None => inl (errorString ("remove " +:+ p +:+ ": no such file or directory"))
  | Some _ =>
      if removeFails os p
      then inl (errorString ("remove " +:+ p +:+ ": operation not permitted"))
      else inr (delete p fs)
  end.

(** [os.WriteFile(p, data, 0644)]: opens the path to write, creating or
    truncating it, then writes and closes.  [inl] is the error with the
    file system it leaves: as it was when the open fails; with the file
    cut to the bytes that reached it when the write or the close fails. *)
Definition os_WriteFile (os : OS) (fs : FS) (p data : string)
  : (error * FS) + FS :=
  match fs !! p with
  | Some IDir => inl (errorString ("open " +:+ p +:+ ": is a directory"), fs)
  | _ =>
      if writeFails os p
      then inl (errorString ("open " +:+ p +:+ ": permission denied"), fs)
      else
        match writeStops os p with
        | Some n =>
            inl (errorString ("write " +:+ p +:+ ": no space left on device"),
                 <[p := IFile (String.substring 0 n data)]> fs)
        | None => inr (<[p := IFile data]> fs)
        end
  end.

(** [os.ReadFile(p)] *)
Definition os_ReadFile (os : OS) (fs : FS) (p : string) : error + string :=
  match fs !! p with
  | None => inl (errorString ("open " +:+ p +:+ ": no such file or directory"))
  | Some IDir => inl (errorString ("read " +:+ p +:+ ": is a directory"))
  | Some (IFile data) =>
      if readFails os p
      then inl (errorString ("open " +:+ p +:+ ": permission denied"))
      else inr data
  end.

(** [os.Create(p)]: creates or truncates. *)
Definition os_Create (os : OS) (fs : FS) (p : string) : error + FS :=
  match fs !! p with
  | Some IDir => inl (errorString ("open " +:+ p +:+ ": is a directory"))
  | _ =>
      if createFails os p
      then inl (errorString ("open " +:+ p +:+ ": permission denied"))
      else inr (<[p := IFile ""]> fs)
  end.

(** The context.  Cancellation comes from outside (the signal handler) at a
    moment of its own; the program only sees the answers of [ctx.Err()],
    which are nil up to some call and [context.Canceled] from then on.
    [Some n]: the next [n] calls answer nil; [None]: never cancelled. *)
Abbreviation Ctx := (option nat).

Definition ctx_Err (c : Ctx) : option error * Ctx :=
  match c with
  | None => (None, None)
  | Some O => (Some context_Canceled, Some O)
  | Some (S n) => (None, Some n)
  end.

(** [parser.Diagnostic]: [d.Message], [d.Range.From.Line], [d.Range.From.Col] *)
Record Diagnostic := mkDiagnostic {
  Message : string;
  From_Line : Z;
  From_Col : Z
}.

(** [parser.TemplateFile]: only [t.Diagnostics] is read here. *)
Record TemplateFile := mkTemplateFile {
  Diagnostics : list Diagnostic;
  nodes : string
}.

(** [parser.SourceMap], opaque to this package. *)
Record SourceMap := mkSourceMap { sourceMapItems : string }.

Inductive GenerateOpt : Type :=
| WithVersion (v : string)
| WithTimestamp (t : Z)
| WithFileName (name : string).

(** The collaborators: the parser, the generator, the Go formatter and the
    sourcemap renderer. *)
Record Toolchain := mkToolchain {
  (** [parser.Parse(fileName)] *)
  parser_Parse : string -> error + TemplateFile;
  (** [generator.Generate(t, &b, opts...)]: the bytes written to [b] and the
      source map *)
  generator_Generate : TemplateFile -> list GenerateOpt -> error + (string * SourceMap);
  (** [format.Source(b.Bytes())] *)
  format_Source : string -> error + string;
  (** [visualize.HTML(name, templ, go, sourceMap).Render(ctx, b)]: the bytes
      that reach the file, and the error *)
  visualize_Render : string -> string -> string -> SourceMap -> string * option error
}.

Inductive Level : Type := Success | Warning | Failure | Plain.

(** What a scan does that can be seen from outside, in order. *)
Inductive Event : Type :=
(** [logWithDecoration] and the plain prints to the writer *)
| Log (level : Level) (text : string)
(** [os.Remove(fileName)] succeeded *)
| Removed (fileName : string)
(** [fileNameToLastModTime[fileName] = modTime] *)
| Recorded (fileName : string) (modTime : Z)
(** [go func() { processSingleFile(...) }()] *)
| Dispatched (fileName : string)
(** the worker's [processSingleFile] returned *)
| Compiled (fileName : string) (err : option error)
(** [os.WriteFile] or the sourcemap file written *)
| Wrote (fileName : string).

(** The state a scan reads and writes. *)
Record State := mkState {
  fileNameToLastModTime : gmap string Z;
  changesFound : Z;
  errs : list error;
  ctx : Ctx;
  fsys : FS;
  trace : list Event
}.

Definition emit (e : Event) (st : State) : State :=
  mkState (fileNameToLastModTime st) (changesFound st) (errs st) (ctx st)
          (fsys st) (trace st ++ [e]).

Definition set_ctx (c : Ctx) (st : State) : State :=
  mkState (fileNameToLastModTime st) (changesFound st) (errs st) c
          (fsys st) (trace st).

Definition set_fsys (fs : FS) (st : State) : State :=
  mkState (fileNameToLastModTime st) (changesFound st) (errs st) (ctx st)
          fs (trace st).

Definition set_lastModTime (fileName : string) (t : Z) (st : State) : State :=
  mkState (<[fileName := t]> (fileNameToLastModTime st)) (changesFound st)
          (errs st) (ctx st) (fsys st) (trace st).

Definition incr_changesFound (st : State) : State :=
  mkState (fileNameToLastModTime st) (changesFound st + 1) (errs st) (ctx st)
          (fsys st) (trace st).

Definition append_err (e : error) (st : State) : State :=
  mkState (fileNameToLastModTime st) (changesFound st) (errs st ++ [e])
          (ctx st) (fsys st) (trace st).

(** [ctx.Err()] on the state. *)
Definition checkCtx (st : State) : option error * State :=
  let '(e, c) := ctx_Err (ctx st) in (e, set_ctx c st).

(** [fileNameToLastModTime[fileName]]: the zero time for a missing key. *)
Definition lastModTime (m : gmap string Z) (fileName : string) : Z :=
  default 0 (m !! fileName).

(** [t.After(u)] *)
Definition After (t u : Z) : bool := u <? t.

(** ** The per-file pipeline: [generate], [generateSourceMapVisualisation],
       [processSingleFile] *)

Definition generateSourceMapVisualisation (tc : Toolchain) (os : OS)
  (templFileName goFileName : string) (sourceMap : SourceMap) (st : State)
  : option error * State :=
  let '(cerr, st) := checkCtx st in
  match cerr with
  | Some err => (Some err, st)
  | None =>
      let templRead := os_ReadFile os (fsys st) templFileName in
      let goRead := os_ReadFile os (fsys st) goFileName in
      let templErr := match templRead with inl e => Some e | inr _ => None end in
      let goErr := match goRead with inl e => Some e | inr _ => None end in
      let templContents := match templRead with inl _ => "" | inr c => c end in
      let goContents := match goRead with inl _ => "" | inr c => c end in
      match templErr with
      | Some _ => (templErr, st)       (* if templErr != nil { return templErr } *)
      | None =>
          match goErr with
          | Some _ => (templErr, st)   (* if goErr != nil { return templErr } *)
          | None =>
              let targetFileName :=
                GoStrings.TrimSuffix templFileName ".templ" +:+ "_templ_sourcemap.html" in
              match os_Create os (fsys st) targetFileName with
              | inl err =>
                  (Some (GoErrors.Errorf_w
                           (templFileName +:+ " sourcemap visualisation error: ") err),
                   st)
              | inr fs1 =>
                  let '(html, rerr) :=
                    visualize_Render tc templFileName templContents goContents sourceMap in
                  (rerr,
                   emit (Wrote targetFileName)
                        (set_fsys (<[targetFileName := IFile html]> fs1) st))
              end
          end
      end
  end.

Definition generate (tc : Toolchain) (os : OS) (basePath fileName : string)
  (generateSourceMapVisualisations : bool) (opts : list GenerateOpt) (st : State)
  : (list Diagnostic * option error) * State :=
  let '(cerr, st) := checkCtx st in
  match cerr with
  | Some err => (([], Some err), st)
  | None =>
      match parser_Parse tc fileName with
      | inl err =>
          (([], Some (GoErrors.Errorf_w (fileName +:+ " parsing error: ") err)), st)
      | inr t =>
          let targetFileName := GoStrings.TrimSuffix fileName ".templ" +:+ "_templ.go" in
          let errorMessageFileName :=
            if String.eqb basePath "" then fileName
            else filepath_Rel os basePath fileName in
          match generator_Generate tc t (opts ++ [WithFileName errorMessageFileName]) with
          | inl err =>
              (([], Some (GoErrors.Errorf_w (fileName +:+ " generation error: ") err)), st)
          | inr (b, sourceMap) =>
              match format_Source tc b with
              | inl err =>
                  (([], Some (GoErrors.Errorf_w
                                (fileName +:+ " source formatting error: ") err)), st)
              | inr data =>
                  match os_WriteFile os (fsys st) targetFileName data with
                  | inl (err, fs1) =>
                      (([], Some (GoErrors.Errorf_w
                                    (targetFileName +:+ " write file error: ") err)),
                       set_fsys fs1 st)
                  | inr fs1 =>
                      let st := emit (Wrote targetFileName) (set_fsys fs1 st) in
                      if generateSourceMapVisualisations then
                        let '(err, st) :=
                          generateSourceMapVisualisation tc os fileName targetFileName
                                                         sourceMap st in
                        ((Diagnostics t, err), st)
                      else ((Diagnostics t, None), st)
                  end
              end
          end
      end
  end.

(** [printDiagnostics]: one warning line per diagnostic. *)
Definition printDiagnostics (diags : list Diagnostic) (st : State) : State :=
  fold_left (fun st d => emit (Log Warning (Message d)) st) diags st.

Definition processSingleFile (tc : Toolchain) (os : OS) (basePath fileName : string)
  (generateSourceMapVisualisations : bool) (opts : list GenerateOpt) (st : State)
  : option error * State :=
  let '((diag, err), st) :=
    generate tc os basePath fileName generateSourceMapVisualisations opts st in
  match err with
  | Some e => (Some e, st)
  | None =>
      match diag with
      | _ :: _ =>
          (None,
           printDiagnostics diag
             (emit (Log Warning ("Generated code for " +:+ fileName)) st))
      | [] => (None, emit (Log Success ("Generated code for " +:+ fileName)) st)
      end
  end.

(** ** The scan: [shouldSkipDir] and [processChanges] *)

Definition shouldSkipDir (dir : string) : bool :=
  if String.eqb dir "." then false
  else if String.eqb dir "vendor" || String.eqb dir "node_modules" then true
  else
    let name := snd (GoStrings.Split dir) in
    if GoStrings.HasPrefix name "." || GoStrings.HasPrefix name "_" then true
    else false.

(** The answer of [info.Info()] for a file. *)
Inductive InfoResult : Type :=
| InfoErr (e : error)
| InfoOk (modTime : Z).

(** The tree [filepath.WalkDir] walks: what [os.ReadDir] lists in each
    directory, in the order it lists it (sorted by name). *)
Inductive Node : Type :=
| NFile (info : InfoResult)
| NDir (entries : list (string * Node))
| NBadDir (e : error).

(** The root of a walk: [os.Lstat(root)] fails, or gives a node. *)
Inductive Root : Type :=
| LstatErr (e : error)
| RootNode (d : Node).

Definition IsDir (d : Node) : bool :=
  match d with NFile _ => false | _ => true end.

(** What a [fs.WalkDirFunc] returns. *)
Inductive WalkResult : Type :=
| WalkNil
| WalkSkipDir
| WalkErr (e : error).

Section WalkDir.

Context {S : Type}.

(** The callback: the state, the path, the entry (nil on the call that
    reports a failed [Lstat]), the error handed in. *)
Variable walkDirFn : S -> string -> option Node -> option error -> S * WalkResult.

(** [walkDir] of [path/filepath]. *)
Fixpoint walkDir (path : string) (d : Node) (st : S) : S * WalkResult :=
  let '(st1, r) := walkDirFn st path (Some d) None in
  match r with
  | WalkErr e => (st1, WalkErr e)
  | WalkSkipDir => if IsDir d then (st1, WalkNil) else (st1, WalkSkipDir)
  | WalkNil =>
      match d with
      | NFile _ => (st1, WalkNil)
      | NBadDir e =>
          let '(st2, r2) := walkDirFn st1 path (Some d) (Some e) in
          match r2 with
          | WalkErr e2 => (st2, WalkErr e2)
          | _ => (st2, WalkNil)
          end
      | NDir entries =>
          (fix range (dirs : list (string * Node)) (st : S) : S * WalkResult :=
             match dirs with
             | [] => (st, WalkNil)
             | (name, d1) :: dirs' =>
                 let '(st', r') := walkDir (GoStrings.Join path name) d1 st in
                 match r' with
                 | WalkNil => range dirs' st'
                 | WalkSkipDir => (st', WalkNil)
                 | WalkErr e => (st', WalkErr e)
                 end
             end) entries st1
      end
  end.

(** [filepath.WalkDir(root, fn)] *)
Definition WalkDir (root : string) (r : Root) (st : S) : S * option error :=
  let '(st', res) :=
    match r with
    | LstatErr e => walkDirFn st root None (Some e)
    | RootNode d => walkDir root d st
    end in
  match res with
  | WalkErr e => (st', Some e)
  | _ => (st', None)
  end.

End WalkDir.

(** The parameters of a scan that stay the same from file to file. *)
Record ScanConfig := mkScanConfig {
  scan_path : string;
  generateSourceMapVisualisations : bool;
  opts : list GenerateOpt;
  maxWorkerCount : Z;
  keepOrphanedFiles : bool
}.

(** The worker started for a changed file: the body of the goroutine.  The
    workers of a scan run beside the traversal; here each one has run to
    its end before the traversal goes on, which is one of the executions
    the program allows.  All its executions are the subject of the worker
    pool below. *)
Definition worker (tc : Toolchain) (os : OS) (cfg : ScanConfig)
  (fileName : string) (st : State) : State :=
  let '(err, st) :=
    processSingleFile tc os (scan_path cfg) fileName
                      (generateSourceMapVisualisations cfg) (opts cfg) st in
  let st := emit (Compiled fileName err) st in
  match err with
  | Some e => append_err e st
  | None => st
  end.

(** The function literal handed to [filepath.WalkDir] in [processChanges]. *)
Definition visit (tc : Toolchain) (os : OS) (cfg : ScanConfig)
  (st : State) (fileName : string) (info : option Node) (err : option error)
  : State * WalkResult :=
  match err with
  | Some e => (st, WalkErr e)
  | None =>
      let '(cerr, st) := checkCtx st in
      match cerr with
      | Some e => (st, WalkErr e)
      | None =>
          match info with
          | None => (st, WalkNil) (* not reached: a nil entry comes with an error *)
          | Some d =>
              if IsDir d && shouldSkipDir fileName then (st, WalkSkipDir)
              else if IsDir d then (st, WalkNil)
              else if negb (keepOrphanedFiles cfg)
                      && GoStrings.HasSuffix fileName "_templ.go" then
                match os_Stat os (fsys st)
                              (GoStrings.TrimSuffix fileName "_templ.go" +:+ ".templ")
                with
                | None => (st, WalkNil)
                | Some _ =>
                    match os_Remove os (fsys st) fileName with
                    | inl e =>
                        (st, WalkErr (GoErrors.Errorf_w "failed to remove file: " e))
                    | inr fs' =>
                        (emit (Log Warning ("Deleted orphaned file " +:+ fileName))
                              (emit (Removed fileName) (set_fsys fs' st)),
                         WalkNil)
                    end
                end
              else if GoStrings.HasSuffix fileName ".templ" then
                let lastMod := lastModTime (fileNameToLastModTime st) fileName in
                match d with
                | NFile (InfoErr e) =>
                    (st, WalkErr (GoErrors.Errorf_w "failed to get file info: " e))
                | NFile (InfoOk modTime) =>
                    if After modTime lastMod then
                      let st := emit (Recorded fileName modTime)
                                     (set_lastModTime fileName modTime st) in
                      let st := incr_changesFound st in
                      let st := emit (Dispatched fileName) st in
                      (worker tc os cfg fileName st, WalkNil)
                    else (st, WalkNil)
                | _ => (st, WalkNil)
                end
              else (st, WalkNil)
          end
      end
  end.

#[global] Arguments visit : simpl never.
#[global] Arguments worker : simpl never.
#[global] Arguments processSingleFile : simpl never.
#[global] Arguments generate : simpl never.
#[global] Arguments generateSourceMapVisualisation : simpl never.
#[global] Arguments checkCtx : simpl never.

(** The state [processChanges] starts from: the map the run loop keeps, the
    counter at zero, the error list empty. *)
Definition startScan (st : State) : State :=
  mkState (fileNameToLastModTime st) 0 [] (ctx st) (fsys st) (trace st).

(** The traversal of [processChanges] and the error it ends with. *)
Definition traverse (tc : Toolchain) (os : OS) (cfg : ScanConfig)
  (root : Root) (st : State) : State * option error :=
  WalkDir (visit tc os cfg) (scan_path cfg) root (startScan st).

(** [processChanges]: the pair the function returns, and the state it
    leaves.  The function begins with [make(chan struct{}, maxWorkerCount)],
    which panics when the count is negative, and every changed file waits
    for a slot of that semaphore, which never comes when the count is zero:
    this is what the function returns when the count is one or more, and,
    as long as no changed file is met, when it is zero.  The semaphore
    itself is the subject of the worker pool below. *)
Definition processChanges (tc : Toolchain) (os : OS) (cfg : ScanConfig)
  (root : Root) (st : State) : (Z * list error) * State :=
  let '(st, err) := traverse tc os cfg root st in
  let st := match err with Some e => append_err e st | None => st end in
  ((changesFound st, errs st), st).

(** ** The backoff scheduler *)

(** Modelled from the spec: the exponential backoff of the library
    github.com/cenkalti/backoff, which is not part of this package.  The
    scheduler has a current interval, an initial and a maximum interval and
    a reset; a fresh scheduler is reset, at an initial interval of 500 ms;
    each call of [NextBackOff] gives the current interval and then grows it
    by the multiplier, up to the maximum.  The multiplier is a ratio
    [(numerator, denominator)].  The elapsed-time ceiling is switched off by
    the run loop ([MaxElapsedTime = 0]) and the model has none. *)
Record ExponentialBackOff := mkBackOff {
  InitialInterval : Z;
  MaxInterval : Z;
  MaxElapsedTime : Z;
  Multiplier : Z * Z;
  currentInterval : Z
}.

(** Modelled from the spec: the constructor of that library.  The scheduler
    it gives is reset, at an initial interval of 500 ms; its maximum
    interval and its elapsed-time ceiling are set by the run loop before the
    first use. *)
Definition NewExponentialBackOff (multiplier : Z * Z) : ExponentialBackOff :=
  mkBackOff 500 60000 900000 multiplier 500.

(** Modelled from the spec: the reset of that library, back to the initial
    interval. *)
Definition Reset (b : ExponentialBackOff) : ExponentialBackOff :=
  mkBackOff (InitialInterval b) (MaxInterval b) (MaxElapsedTime b)
            (Multiplier b) (InitialInterval b).

(** Modelled from the spec: the next delay of that library, the current
    interval, which then grows by the multiplier up to the maximum. *)
Definition NextBackOff (b : ExponentialBackOff) : Z * ExponentialBackOff :=
  let next := currentInterval b in
  let grown := currentInterval b * fst (Multiplier b) / snd (Multiplier b) in
  (next,
   mkBackOff (InitialInterval b) (MaxInterval b) (MaxElapsedTime b)
             (Multiplier b) (Z.min grown (MaxInterval b))).

(** ** The run loop: [runCmd] and [Run] *)

(** The struct [Arguments]. *)
Record Args := mkArgs {
  FileName : string;
  Path : string;
  Watch : bool;
  Command : string;
  ProxyPort : Z;
  Proxy : string;
  WorkerCount : Z;
  GenerateSourceMapVisualisations : bool;
  IncludeVersion : bool;
  IncludeTimestamp : bool;
  PPROFPort : Z;
  KeepOrphanedFiles : bool
}.

(** What the run loop does that can be seen from outside, in order. *)
Inductive LoopEvent : Type :=
(** [processChanges] returned *)
| Scanned (changesFound : Z) (errs : list error)
(** [logError(w, "Error processing path: %v\n", errors.Join(errs...))] *)
| ErrorLogged (text : string)
(** the line "Generated code for %d templates with %d errors" *)
| Summary (level : Level) (changesFound : Z) (errors : Z)
| CommandRun (command : string)
| SentSSE (event data : string)
| ProxyListenStarted
| BrowserOpenStarted
(** [logWarning(w, "templ version check failed: %v\n", err)] *)
| VersionWarning (e : GateError)
| BackoffReset
| Slept (d : Z).

(** The machine the command runs on. *)
Record Host := mkHost {
  (** [url.Parse(args.Proxy)] *)
  url_Parse : string -> option error;
  (** [filepath.Abs(args.Path)] *)
  filepath_Abs : string -> error + string;
  (** [path.IsAbs(args.Path)] *)
  path_IsAbs : string -> bool;
  (** [runtime.NumCPU()] *)
  defaultWorkerCount : Z;
  semver_Compare : string -> string -> Z;
  templ_Version : string;
  (** [time.Now()] at the start of the command *)
  time_Now : Z;
  backoff_Multiplier : Z * Z;
  (** the collaborators and the system for the single-file mode *)
  host_tc : Toolchain;
  host_os : OS
}.

(** What one turn of the loop meets: what happened to the file system since
    the turn before, the tree the traversal then finds, the system and the
    collaborators, and the manifests above the path. *)
Record Round := mkRound {
  outside : FS -> FS;
  root : Root;
  round_os : OS;
  round_tc : Toolchain;
  abs_ok : bool;
  gomod : GoMod;
  gomod_parents : list GoMod
}.

Inductive Outcome : Type :=
(** the function returned this error (nil: [None]) *)
| Returned (err : option error)
(** the loop goes on: the rounds given are used up *)
| Running
(** [checkTemplVersion] does not return *)
| GateLoops
(** a nil pointer dereference in [checkTemplVersion] *)
| Panicked.

(** The loop's own variables. *)
Record Loop := mkLoop {
  firstRunComplete : bool;
  bo : ExponentialBackOff
}.

Definition gateFuel (r : Round) : nat := Datatypes.S (List.length (gomod_parents r)).

(** The end of the loop body: [if firstRunComplete { ... }] and
    [firstRunComplete = true]. *)
Definition consultScheduler (l : Loop) (changes : Z) : list LoopEvent * Loop :=
  if firstRunComplete l then
    let reset := if changes >? 0 then [BackoffReset] else [] in
    let bo1 := if changes >? 0 then Reset (bo l) else bo l in
    let '(d, bo2) := NextBackOff bo1 in
    (reset ++ [Slept d], mkLoop true bo2)
  else ([], mkLoop true (bo l)).

(** The loop body from [checkTemplVersion] on. *)
Definition afterScan (host : Host) (r : Round) (l : Loop) (changes : Z)
  : list LoopEvent * (Outcome + Loop) :=
  match checkTemplVersion (semver_Compare host) (templ_Version host)
                          (gateFuel r) (abs_ok r) (gomod r) (gomod_parents r) with
  | None => ([], inl GateLoops)
  | Some GatePanic => ([], inl Panicked)
  | Some gate =>
      let warn := match gate with GateFail e => [VersionWarning e] | _ => [] end in
      let '(evs, l') := consultScheduler l changes in
      (warn ++ evs, inr l')
  end.

(** What the loop body does with the result of a scan. *)
Definition loopBody (host : Host) (args : Args) (p : bool) (r : Round)
  (l : Loop) (changes : Z) (errs : list error)
  : list LoopEvent * (Outcome + Loop) :=
  let onErrs : list LoopEvent * option Outcome :=
    match errs with
    | [] => ([], None)
    | e0 :: _ =>
        if GoErrors.IsCanceled e0 then ([], Some (Returned (Some e0)))
        else if negb (Watch args) then
          ([], Some (Returned (Some (GoErrors.Errorf_v "failed to process path: "
                                                       (GoErrors.Join errs)))))
        else ([ErrorLogged (GoErrors.Error (GoErrors.Join errs))], None)
    end in
  match onErrs with
  | (evs, Some out) => (Scanned changes errs :: evs, inl out)
  | (evs, None) =>
      let onChanges :=
        if changes >? 0 then
          [Summary (match errs with [] => Success | _ => Failure end)
                   changes (Z.of_nat (List.length errs))]
          ++ (if String.eqb (Command args) "" then [] else [CommandRun (Command args)])
          ++ (if p then [SentSSE "message" "reload"] else [])
          ++ (if negb (firstRunComplete l) && p
              then [ProxyListenStarted; BrowserOpenStarted] else [])
        else [] in
      let '(evs', next) := afterScan host r l changes in
      (Scanned changes errs :: evs ++ onChanges ++ evs', next)
  end.

(** [for !firstRunComplete || args.Watch { ... }], one round per turn. *)
Fixpoint runLoop (host : Host) (args : Args) (p : bool) (rounds : list Round)
  (l : Loop) (st : State) : list LoopEvent * Outcome * State :=
  if negb (negb (firstRunComplete l) || Watch args) then ([], Returned None, st)
  else
    match rounds with
    | [] => ([], Running, st)
    | r :: rounds' =>
        let cfg := mkScanConfig (Path args) (GenerateSourceMapVisualisations args)
                                ((if IncludeVersion args
                                  then [WithVersion (templ_Version host)] else [])
                                 ++ (if IncludeTimestamp args
                                     then [WithTimestamp (time_Now host)] else []))
                                (WorkerCount args) (KeepOrphanedFiles args) in
        let st := set_fsys (outside r (fsys st)) st in
        let '((changes, errs), st) :=
          processChanges (round_tc r) (round_os r) cfg (root r) st in
        match loopBody host args p r l changes errs with
        | (evs, inl out) => (evs, out, st)
        | (evs, inr l') =>
            let '(evs', out, st') := runLoop host args p rounds' l' st in
            (evs ++ evs', out, st')
        end
    end.

(** [runCmd(ctx, w, args)] *)
Definition runCmd (host : Host) (args : Args) (rounds : list Round) (st : State)
  : list LoopEvent * Outcome * State :=
  if Watch args && negb (String.eqb (FileName args) "") then
    ([], Returned (Some (errorString
       "cannot watch a single file, remove the -f or -watch flag")), st)
  else
    let opts := (if IncludeVersion args then [WithVersion (templ_Version host)] else [])
                ++ (if IncludeTimestamp args then [WithTimestamp (time_Now host)] else []) in
    if negb (String.eqb (FileName args) "") then
      let '(err, st) :=
        processSingleFile (host_tc host) (host_os host) "" (FileName args)
                          (GenerateSourceMapVisualisations args) opts st in
      ([], Returned err, st)
    else
      match (if String.eqb (Proxy args) "" then None else url_Parse host (Proxy args)) with
      | Some err =>
          ([], Returned (Some (GoErrors.Errorf_w "failed to parse proxy URL: " err)), st)
      | None =>
          let proxyPort := if ProxyPort args =? 0 then 7331 else ProxyPort args in
          let workerCount :=
            if WorkerCount args =? 0 then defaultWorkerCount host else WorkerCount args in
          let absPath :=
            if path_IsAbs host (Path args) then inr (Path args)
            else filepath_Abs host (Path args) in
          match absPath with
          | inl err => ([], Returned (Some err), st)
          | inr path =>
              let args := mkArgs (FileName args) path (Watch args) (Command args)
                                 proxyPort (Proxy args) workerCount
                                 (GenerateSourceMapVisualisations args)
                                 (IncludeVersion args) (IncludeTimestamp args)
                                 (PPROFPort args) (KeepOrphanedFiles args) in
              let p := negb (String.eqb (Proxy args) "") in
              let b := NewExponentialBackOff (backoff_Multiplier host) in
              let b := mkBackOff 500 3000 0 (Multiplier b) (currentInterval b) in
              runLoop host args p rounds (mkLoop false b) st
          end
      end.

(** [Run(w, args)]: what it returns, for an outcome of [runCmd]. *)
Definition Run (host : Host) (args : Args) (rounds : list Round) (st : State)
  : list LoopEvent * Outcome * State :=
  let '(evs, out, st) := runCmd host args rounds st in
  match out with
  | Returned (Some err) =>
      if GoErrors.IsCanceled err then (evs, Returned None, st)
      else (evs, Returned (Some err), st)
  | _ => (evs, out, st)
  end.

(** ** The worker pool of [processChanges]: the semaphore and the wait group

    The goroutines of one scan, step by step.  The traversal sends on [sem]
    (a channel of capacity [maxWorkerCount]), adds one to the wait group and
    starts a worker; a worker runs [processSingleFile], receives from [sem]
    and, last (it is deferred), calls [wg.Done()]; after the traversal the
    function blocks in [wg.Wait()] and returns. *)

(** Where the goroutine that runs [processChanges] is; [todo] are the changed
    files the traversal has still to meet. *)
Inductive Walker : Type :=
| Traversing (todo : list string)
| SentOnSem (fileName : string) (todo : list string)
| AddedToWg (fileName : string) (todo : list string)
| Waiting
| ScanReturned.

(** Where a worker goroutine is. *)
Inductive WorkerAt : Type :=
| InProcessSingleFile (fileName : string)
| BeforeReceive (fileName : string)
| BeforeDone (fileName : string).

Record Pool := mkPool {
  capacity : Z;               (* cap(sem) *)
  sem : Z;                    (* len(sem) *)
  wg : Z;                     (* the counter of the wait group *)
  walker : Walker;
  workers : list WorkerAt;
  finished : list string      (* the files whose worker has ended *)
}.

(** The step a goroutine takes; a worker is named by its place in the list. *)
Inductive Step : Type :=
| SendOnSem          (* sem <- struct{}{} *)
| WgAdd              (* wg.Add(1) *)
| GoWorker           (* go func() { ... }() *)
| LeaveWalk          (* filepath.WalkDir returns: at its end, or on an error *)
| WorkerReturns (i : nat)   (* processSingleFile returns *)
| ReceiveFromSem (i : nat)  (* <-sem *)
| WgDone (i : nat)          (* the deferred wg.Done() *)
| WgWait.                   (* wg.Wait() returns *)

Definition set_worker (i : nat) (w : WorkerAt) (p : Pool) : Pool :=
  mkPool (capacity p) (sem p) (wg p) (walker p) (<[i := w]> (workers p)) (finished p).

(** One step; [None] when the goroutine is not at that point, or blocked. *)
Definition step (s : Step) (p : Pool) : option Pool :=
  match s with
  | SendOnSem =>
      match walker p with
      | Traversing (f :: todo) =>
          if sem p <? capacity p
          then Some (mkPool (capacity p) (sem p + 1) (wg p) (SentOnSem f todo)
                            (workers p) (finished p))
          else None
      | _ => None
      end
  | WgAdd =>
      match walker p with
      | SentOnSem f todo =>
          Some (mkPool (capacity p) (sem p) (wg p + 1) (AddedToWg f todo)
                       (workers p) (finished p))
      | _ => None
      end
  | GoWorker =>
      match walker p with
      | AddedToWg f todo =>
          Some (mkPool (capacity p) (sem p) (wg p) (Traversing todo)
                       (workers p ++ [InProcessSingleFile f]) (finished p))
      | _ => None
      end
  | LeaveWalk =>
      match walker p with
      | Traversing _ =>
          Some (mkPool (capacity p) (sem p) (wg p) Waiting (workers p) (finished p))
      | _ => None
      end
  | WorkerReturns i =>
      match workers p !! i with
      | Some (InProcessSingleFile f) => Some (set_worker i (BeforeReceive f) p)
      | _ => None
      end
  | ReceiveFromSem i =>
      match workers p !! i with
      | Some (BeforeReceive f) =>
          if 0 <? sem p
          then Some (mkPool (capacity p) (sem p - 1) (wg p) (walker p)
                            (<[i := BeforeDone f]> (workers p)) (finished p))
          else None
      | _ => None
      end
  | WgDone i =>
      match workers p !! i with
      | Some (BeforeDone f) =>
          Some (mkPool (capacity p) (sem p) (wg p - 1) (walker p)
                       (delete i (workers p)) (finished p ++ [f]))
      | _ => None
      end
  | WgWait =>
      match walker p with
      | Waiting =>
          if wg p =? 0
          then Some (mkPool (capacity p) (sem p) (wg p) ScanReturned
                            (workers p) (finished p))
          else None
      | _ => None
      end
  end.

(** A schedule: the steps in the order they happen. *)
Fixpoint exec (steps : list Step) (p : Pool) : option Pool :=
  match steps with
  | [] => Some p
  | s :: steps' =>
      match step s p with
      | Some p' => exec steps' p'
      | None => None
      end
  end.

(** [processChanges] starts: an empty channel, a wait group at zero. *)
Definition startPool (maxWorkerCount : Z) (changed : list string) : Pool :=
  mkPool maxWorkerCount 0 0 (Traversing changed) [] [].

Definition isCompiling (w : WorkerAt) : bool :=
  match w with InProcessSingleFile _ => true | _ => false end.

(** The number of calls of [processSingleFile] in progress. *)
Definition compiling (p : Pool) : Z :=
  Z.of_nat (List.length (List.filter isCompiling (workers p))).

(** The files the traversal has started a worker for. *)
Definition fileOf (w : WorkerAt) : string :=
  match w with
  | InProcessSingleFile f | BeforeReceive f | BeforeDone f => f
  end.

(** ** The go directive of a manifest: [goVersionRegexp] *)

(** [\d]: an ASCII digit. *)
Definition isDigit (c : ascii) : bool :=
  match Ascii.is_nat c with Some _ => true | None => false end.

(** The digits at the head of [s], all there are, and what follows them. *)
Fixpoint digitRun (s : string) : string * string :=
  match s with
  | EmptyString => ("", "")
  | String c r =>
      if isDigit c
      then let '(ds, rest) := digitRun r in (String c ds, rest)
      else ("", s)
  end.

(** [\d+] at the head of [s], as the matcher takes it: every digit there
    is.  What follows [\d+] in the pattern is a character that is no digit,
    so no shorter run leads to a match.  [None]: [s] starts with no digit. *)
Definition digits (s : string) : option (string * string) :=
  match digitRun s with
  | (EmptyString, _) => None
  | (ds, rest) => Some (ds, rest)
  end.

(** The text [lit] at the head of [s]: what follows it. *)
Fixpoint literal (lit s : string) : option string :=
  match lit, s with
  | EmptyString, _ => Some s
  | String a lit', String b s' => if Ascii.eqb a b then literal lit' s' else None
  | String _ _, EmptyString => None
  end.

(** The line feed, [\n]. *)
Definition newline : string := String "010" "".

(** [goVersionRegexp], the pattern [\ngo (\d+\.\d+)\.\d+\n], at the head of
    [s]: the submatch [$1] and what follows the match. *)
Definition goVersionRegexp_match (s : string) : option (string * string) :=
  match literal (newline +:+ "go ") s with
  | None => None
  | Some s1 =>
      match digits s1 with
      | None => None
      | Some (major, s2) =>
          match literal "." s2 with
          | None => None
          | Some s3 =>
              match digits s3 with
              | None => None
              | Some (minor, s4) =>
                  match literal "." s4 with
                  | None => None
                  | Some s5 =>
                      match digits s5 with
                      | None => None
                      | Some (_, s6) =>
                          match literal newline s6 with
                          | None => None
                          | Some rest => Some (major +:+ "." +:+ minor, rest)
                          end
                      end
                  end
              end
          end
      end
  end.

(** [goVersionRegexp.ReplaceAll(m, []byte("\ngo $1\n"))]: the matches are
    taken from left to right, each search starting where the match before
    it ended.  [skip] is the number of characters of the current match that
    are still to be passed over. *)
Fixpoint replaceAllFrom (skip : nat) (s : string) : string :=
  match s with
  | EmptyString => ""
  | String c r =>
      match skip with
      | Datatypes.S k => replaceAllFrom k r
      | O =>
          match goVersionRegexp_match s with
          | Some (submatch, rest) =>
              newline +:+ "go " +:+ submatch +:+ newline
              +:+ replaceAllFrom (String.length r - String.length rest) r
          | None => String c (replaceAllFrom O r)
          end
      end
  end.

Definition goVersionRegexp_ReplaceAll (m : string) : string := replaceAllFrom O m.

(** ** Waiting for the proxy target: [openURL] *)

(** What [openURL] does that can be seen from outside, in order. *)
Inductive UrlEvent : Type :=
(** [client.Get(url)] returned; [ok]: without an error *)
| Got (ok : bool)
(** the line "Server not ready. Retrying in %v..." *)
| RetryLogged (d : Z)
(** [time.Sleep(d)] *)
| UrlSlept (d : Z)
(** [browser.OpenURL(url)] was called *)
| BrowserOpened.

Section OpenURL.

(** The backoff scheduler is not part of this package: its state and its
    [NextBackOff] are parameters. *)
Context {B : Type}.
Variable nextBackOff : B -> Z * B.

(** [openURL(w, url)].  [gets] are the answers of the successive calls of
    [client.Get(url)] ([true]: no error) and [opened] is what
    [browser.OpenURL(url)] returns.  [None]: the loop is still running when
    the answers are used up. *)
Fixpoint openURL (gets : list bool) (opened : option error) (b : B)
  : list UrlEvent * option (option error) :=
  match gets with
  | [] => ([], None)
  | true :: _ => ([Got true; BrowserOpened], Some opened)
  | false :: gets' =>
      let '(d, b') := nextBackOff b in
      let '(evs, r) := openURL gets' opened b' in
      (Got false :: RetryLogged d :: UrlSlept d :: evs, r)
  end.

End OpenURL.

(* ===================================================================== *)
(** * Part I, continued: what the properties are stated with              *)
(* ===================================================================== *)

(** ** Trees and walks *)

(** The loop over the entries of a directory inside [walkDir], by name. *)
Fixpoint rangeDirs {S : Type}
  (fn : S -> string -> option Node -> option error -> S * WalkResult)
  (path : string) (dirs : list (string * Node)) (st : S) : S * WalkResult :=
  match dirs with
  | [] => (st, WalkNil)
  | (name, d1) :: dirs' =>
      let '(st', r') := walkDir fn (GoStrings.Join path name) d1 st in
      match r' with
      | WalkNil => rangeDirs fn path dirs' st'
      | WalkSkipDir => (st', WalkNil)
      | WalkErr e => (st', WalkErr e)
      end
  end.

(** Induction on a tree, with the property at hand for every entry of a
    directory. *)
Section NodeInduction.

Variable P : Node -> Prop.
Hypothesis HFile : forall info, P (NFile info).
Hypothesis HDir : forall entries, Forall (fun e => P (snd e)) entries -> P (NDir entries).
Hypothesis HBadDir : forall e, P (NBadDir e).

Fixpoint Node_nested_ind (d : Node) : P d :=
  match d with
  | NFile info => HFile info
  | NBadDir e => HBadDir e
  | NDir entries =>
      HDir entries
        ((fix all (es : list (string * Node)) : Forall (fun e => P (snd e)) es :=
            match es with
            | [] => @List.Forall_nil _ (fun e => P (snd e))
            | (name, d1) :: es' =>
                @List.Forall_cons _ (fun e => P (snd e)) (name, d1) es'
                                  (Node_nested_ind d1) (all es')
            end) entries)
  end.

End NodeInduction.

(** [name] holds no slash: it is a single path element. *)
Fixpoint noSlash (name : string) : bool :=
  match name with
  | EmptyString => true
  | String c r => negb (Ascii.eqb c "/") && noSlash r
  end.

(** ** States of a scan, one after the other *)

(** [st'] comes from [st] by steps that leave the map and the counter alone
    and the error list alone and only add to the trace. *)
Definition frames (st st' : State) : Prop :=
  fileNameToLastModTime st' = fileNameToLastModTime st
  /\ changesFound st' = changesFound st
  /\ (exists evs, trace st' = trace st ++ evs)
  /\ errs st' = errs st.

(** The traversal of [d], found at [path] and begun in [st], comes to the
    entry [d'] at [path'] in the state [st']: the callback has returned nil
    on every directory above it and the entries listed before it have been
    walked to their end. *)
Inductive comesTo (tc : Toolchain) (os : OS) (cfg : ScanConfig)
  : string -> Node -> State -> string -> Node -> State -> Prop :=
| comesTo_here path d st : comesTo tc os cfg path d st path d st
| comesTo_entry path before name d1 after st st1 st2 path' d' st' :
    visit tc os cfg st path (Some (NDir (before ++ (name, d1) :: after))) None
      = (st1, WalkNil) ->
    rangeDirs (visit tc os cfg) path before st1 = (st2, WalkNil) ->
    comesTo tc os cfg (GoStrings.Join path name) d1 st2 path' d' st' ->
    comesTo tc os cfg path (NDir (before ++ (name, d1) :: after)) st path' d' st'.

(** [st'] comes after [st] in a scan: no entry of the map has gone back,
    the counter has not gone down, the trace and the error list have only
    grown. *)
Definition grows (st st' : State) : Prop :=
  (forall f, lastModTime (fileNameToLastModTime st) f
             <= lastModTime (fileNameToLastModTime st') f)
  /\ changesFound st <= changesFound st'
  /\ (exists evs, trace st' = trace st ++ evs)
  /\ (exists es, errs st' = errs st ++ es).

(** The files a trace has started a worker for, in order. *)
Fixpoint dispatched (tr : list Event) : list string :=
  match tr with
  | [] => []
  | Dispatched f :: tr' => f :: dispatched tr'
  | _ :: tr' => dispatched tr'
  end.

(** [st'] comes from [st] without a change found. *)
Definition quiet (st st' : State) : Prop :=
  fileNameToLastModTime st' = fileNameToLastModTime st
  /\ changesFound st' = changesFound st
  /\ dispatched (trace st') = dispatched (trace st).

(** The path is there in the file system. *)
Definition present (fs : FS) (p : string) : bool :=
  match fs !! p with Some _ => true | None => false end.

(** [st'] comes from [st] without a change found and without a worker run:
    a context that was cancelled is still cancelled, no source path has
    come or gone, and no path has come to be. *)
Definition calm (st st' : State) : Prop :=
  quiet st st'
  /\ (ctx st = Some O -> ctx st' = Some O)
  /\ (forall p, GoStrings.HasSuffix p ".templ" = true ->
                present (fsys st') p = present (fsys st) p)
  /\ (forall p, is_Some (fsys st' !! p) -> is_Some (fsys st !! p)).

(** A scan can be taken up again in [t] where a scan was cut short in [F]:
    the map of [t] is not behind the one of [F], the context of [t] is
    cancelled if the one of [F] is, the two file systems hold the same
    source paths, and [t] holds no path that [F] does not. *)
Definition resumes (F t : State) : Prop :=
  (forall f, lastModTime (fileNameToLastModTime F) f
             <= lastModTime (fileNameToLastModTime t) f)
  /\ (ctx F = Some O -> ctx t = Some O)
  /\ (forall p, GoStrings.HasSuffix p ".templ" = true ->
                present (fsys t) p = present (fsys F) p)
  /\ (forall p, is_Some (fsys t !! p) -> is_Some (fsys F !! p)).

(** [st'] is [st] some time later: after more calls of the callback, more
    scans, and whatever the rest of the world did to the file system. *)
Inductive later (st : State) : State -> Prop :=
| later_now : later st st
| later_visit tc os cfg st1 path info err :
    later st st1 -> later st (fst (visit tc os cfg st1 path info err))
| later_scan tc os cfg root st1 :
    later st st1 -> later st (snd (processChanges tc os cfg root st1))
| later_outside fs st1 :
    later st st1 -> later st (set_fsys fs st1).

(** ** Trees and the map of modification times *)

(** [d], found at [path], holds no news for the map [m]: every source file
    the traversal would look at is not newer than its entry. *)
Fixpoint settled (m : gmap string Z) (path : string) (d : Node) : Prop :=
  match d with
  | NFile (InfoOk modTime) =>
      GoStrings.HasSuffix path ".templ" = true -> modTime <= lastModTime m path
  | NFile (InfoErr _) => True
  | NBadDir _ => True
  | NDir entries =>
      shouldSkipDir path = true \/
      (fix all (es : list (string * Node)) : Prop :=
         match es with
         | [] => True
         | (name, d1) :: es' => settled m (GoStrings.Join path name) d1 /\ all es'
         end) entries
  end.

(** The same, entry by entry. *)
Fixpoint settledAll (m : gmap string Z) (path : string)
  (entries : list (string * Node)) : Prop :=
  match entries with
  | [] => True
  | (name, d1) :: es' => settled m (GoStrings.Join path name) d1 /\ settledAll m path es'
  end.

(** The source files a traversal of [d], found at [path], looks at, each
    with its modification time: those outside the directories it skips. *)
Fixpoint sourcesOf (path : string) (d : Node) : list (string * Z) :=
  match d with
  | NFile (InfoOk modTime) =>
      if GoStrings.HasSuffix path ".templ" then [(path, modTime)] else []
  | NFile (InfoErr _) => []
  | NBadDir _ => []
  | NDir entries =>
      if shouldSkipDir path then []
      else
        (fix all (es : list (string * Node)) : list (string * Z) :=
           match es with
           | [] => []
           | (name, d1) :: es' => sourcesOf (GoStrings.Join path name) d1 ++ all es'
           end) entries
  end.

(** The same, entry by entry. *)
Fixpoint sourcesOfAll (path : string) (entries : list (string * Node))
  : list (string * Z) :=
  match entries with
  | [] => []
  | (name, d1) :: es' =>
      sourcesOf (GoStrings.Join path name) d1 ++ sourcesOfAll path es'
  end.

(** ** The worker pool: what is counted *)

(** A truth value as a number. *)
Definition b2z (b : bool) : Z := if b then 1 else 0.

(** A worker that has sent on [sem] for itself (the traversal did, on its
    behalf) and has not received yet. *)
Definition holdsSlot (w : WorkerAt) : bool :=
  match w with
  | InProcessSingleFile _ | BeforeReceive _ => true
  | BeforeDone _ => false
  end.

Definition count (f : WorkerAt -> bool) (ws : list WorkerAt) : Z :=
  Z.of_nat (List.length (List.filter f ws)).

(** The slot the traversal holds between its send and the start of the
    worker. *)
Definition walkerSlot (w : Walker) : Z :=
  match w with SentOnSem _ _ | AddedToWg _ _ => 1 | _ => 0 end.

(** The unit the traversal has added to the wait group for a worker it has
    not started yet. *)
Definition walkerAdded (w : Walker) : Z :=
  match w with AddedToWg _ _ => 1 | _ => 0 end.

(** What holds of the pool at every moment. *)
Definition poolInvariant (p : Pool) : Prop :=
  sem p = count holdsSlot (workers p) + walkerSlot (walker p)
  /\ sem p <= capacity p
  /\ wg p = Z.of_nat (List.length (workers p)) + walkerAdded (walker p)
  /\ (walker p = ScanReturned -> wg p = 0).

(** How many steps a goroutine has before it: the traversal, a worker,
    the whole pool. *)
Definition walkerRank (w : Walker) : Z :=
  match w with
  | Traversing todo => 6 * Z.of_nat (List.length todo) + 2
  | SentOnSem _ todo => 6 * Z.of_nat (List.length todo) + 7
  | AddedToWg _ todo => 6 * Z.of_nat (List.length todo) + 6
  | Waiting => 1
  | ScanReturned => 0
  end.

Definition workerRank (w : WorkerAt) : Z :=
  match w with
  | InProcessSingleFile _ => 3
  | BeforeReceive _ => 2
  | BeforeDone _ => 1
  end.

Fixpoint sumRank (ws : list WorkerAt) : Z :=
  match ws with
  | [] => 0
  | w :: ws' => workerRank w + sumRank ws'
  end.

Definition rank (p : Pool) : Z := walkerRank (walker p) + sumRank (workers p).

(** ** The run loop: what is read off its trace *)

Definition isScanned (e : LoopEvent) : bool :=
  match e with Scanned _ _ => true | _ => false end.

Definition isProxyStart (e : LoopEvent) : bool :=
  match e with ProxyListenStarted | BrowserOpenStarted => true | _ => false end.

Definition isSlept (e : LoopEvent) : bool :=
  match e with Slept _ => true | _ => false end.

Definition isReset (e : LoopEvent) : bool :=
  match e with BackoffReset => true | _ => false end.

(** The events the scheduler is judged on. *)
Definition isSchedule (e : LoopEvent) : bool :=
  match e with Scanned _ _ | BackoffReset | Slept _ => true | _ => false end.

(** The scans and the starts of the proxy and of the browser task, in the
    order they happen. *)
Definition milestones (evs : list LoopEvent) : list LoopEvent :=
  List.filter (fun e => isScanned e || isProxyStart e) evs.

(** A trace read from left to right by someone who remembers the last
    delay [lo], whether the scheduler has been reset since ([fresh]) and
    how many changes the last scan found.  A reset only follows a scan with
    changes; the delay after a scan with changes is the initial interval;
    the first delay after a reset is the initial interval; a delay is not
    below the one before it; no delay is above the maximum interval. *)
Fixpoint scheduleOk (lo : Z) (fresh : bool) (changes : Z) (evs : list LoopEvent)
  : Prop :=
  match evs with
  | [] => True
  | Scanned c _ :: rest => scheduleOk lo fresh c rest
  | BackoffReset :: rest => 0 < changes /\ scheduleOk 500 true changes rest
  | Slept d :: rest =>
      (0 < changes -> d = 500)
      /\ (if fresh then d = 500 else lo <= d)
      /\ d <= 3000
      /\ scheduleOk d false changes rest
  | _ :: rest => scheduleOk lo fresh changes rest
  end.

(** The first scan lets the loop go on to the rest of its first turn. *)
Definition goesOn (watch : bool) (errs : list error) : bool :=
  match errs with
  | [] => true
  | e0 :: _ => negb (GoErrors.IsCanceled e0) && watch
  end.

(** The scheduler state [b] is where the reader of the trace thinks it is. *)
Definition tracks (lo : Z) (fresh : bool) (b : ExponentialBackOff) : Prop :=
  if fresh then currentInterval b = 500 else lo <= currentInterval b.

(** The scheduler as the run loop sets it up and keeps it. *)
Definition backoffOk (mult : Z * Z) (b : ExponentialBackOff) : Prop :=
  InitialInterval b = 500 /\ MaxInterval b = 3000 /\ Multiplier b = mult
  /\ 500 <= currentInterval b <= 3000.

(** ** A small project to run the program on *)

(** A project two directories below its manifest; the manifest requires
    v0.2.0 and the running tool is v0.2.1. *)
Definition exampleManifest (declared : string) : ModFile :=
  mkModFile (Some "example.com/app")
            [mkRequire "github.com/stretchr/testify" "v1.8.4";
             mkRequire templModulePath declared].

(** A system on which every permitted operation succeeds. *)
Definition plainOS : OS :=
  mkOS (fun _ => false) (fun _ => false) (fun _ => false) (fun _ => None)
       (fun _ => false) (fun _ => false) (fun _ targpath => targpath).

(** Collaborators that accept every template but [/proj/b.templ], which
    does not parse. *)
Definition exampleToolchain : Toolchain :=
  mkToolchain
    (fun fileName =>
       if String.eqb fileName "/proj/b.templ"
       then inl (errorString "unexpected token")
       else inr (mkTemplateFile [] "template"))
    (fun _ _ => inr ("package main", mkSourceMap "map"))
    (fun b => inr b)
    (fun _ _ _ _ => ("<html>", None)).

Definition exampleConfig (keep vis : bool) : ScanConfig :=
  mkScanConfig "/proj" vis [] 4 keep.

(** The project: two sources, the artifact of the first, an artifact whose
    source is gone, and a vendored package. *)
Definition exampleTree : Node :=
  NDir [("a.templ", NFile (InfoOk 5));
        ("a_templ.go", NFile (InfoOk 4));
        ("b.templ", NFile (InfoOk 7));
        ("old_templ.go", NFile (InfoOk 1));
        ("vendor", NDir [("lib.templ", NFile (InfoOk 3))])].

Definition exampleFS : FS :=
  <["/proj" := IDir]>
    (<["/proj/a.templ" := IFile "templ a"]>
       (<["/proj/a_templ.go" := IFile "package old"]>
          (<["/proj/b.templ" := IFile "templ b"]>
             (<["/proj/old_templ.go" := IFile "package gone"]>
                (<["/proj/vendor" := IDir]>
                   (<["/proj/vendor/lib.templ" := IFile "templ lib"]> ∅)))))).

(** The state at the start of the command: an empty map, a live context. *)
Definition freshState (fs : FS) : State := mkState ∅ 0 [] None fs [].

(** A site kept in a directory whose name starts with an underscore. *)
Definition siteTree : Node := NDir [("index.templ", NFile (InfoOk 2))].

Definition siteFS : FS :=
  <["/srv/_site" := IDir]> (<["/srv/_site/index.templ" := IFile "templ index"]> ∅).

Definition siteConfig : ScanConfig := mkScanConfig "/srv/_site" false [] 4 false.

(** A system on which the artifact of [/proj/a.templ] can be written but
    not read. *)
Definition writeOnlyArtifactOS : OS :=
  mkOS (fun _ => false) (fun _ => false) (fun _ => false) (fun _ => None)
       (String.eqb "/proj/a_templ.go") (fun _ => false)
       (fun _ targpath => targpath).

(** A system on which the orphaned artifact of the project cannot be
    removed. *)
Definition stubbornOrphanOS : OS :=
  mkOS (fun _ => false) (String.eqb "/proj/old_templ.go") (fun _ => false)
       (fun _ => None) (fun _ => false) (fun _ => false)
       (fun _ targpath => targpath).

(** A system on which [/proj/a.templ] is there and [os.Stat] of it fails. *)
Definition unreadableSourceOS : OS :=
  mkOS (String.eqb "/proj/a.templ") (fun _ => false) (fun _ => false)
       (fun _ => None) (fun _ => false) (fun _ => false)
       (fun _ targpath => targpath).

(** A project of one template and its artifact. *)
Definition pairTree : Node :=
  NDir [("a.templ", NFile (InfoOk 5));
        ("a_templ.go", NFile (InfoOk 6))].

Definition pairFS : FS :=
  <["/proj" := IDir]>
    (<["/proj/a.templ" := IFile "templ a"]>
       (<["/proj/a_templ.go" := IFile "package a"]> ∅)).

(** The state after the scan that compiled the template: the map has it at
    its modification time. *)
Definition pairState : State :=
  mkState (<["/proj/a.templ" := 5]> ∅) 0 [] None pairFS [].

(** The project after its first scan: the artifacts are there, the orphan
    is gone. *)
Definition exampleTreeAfter : Node :=
  NDir [("a.templ", NFile (InfoOk 5));
        ("a_templ.go", NFile (InfoOk 10));
        ("b.templ", NFile (InfoOk 7));
        ("vendor", NDir [("lib.templ", NFile (InfoOk 3));
                         ("lib_templ.go", NFile (InfoOk 10))])].

(** The schedule in which each worker has ended before the traversal goes
    on: the one [worker] follows. *)
Fixpoint sequentialSchedule (changed : list string) : list Step :=
  match changed with
  | [] => [LeaveWalk; WgWait]
  | _ :: changed' =>
      [SendOnSem; WgAdd; GoWorker; WorkerReturns 0; ReceiveFromSem 0; WgDone 0]
      ++ sequentialSchedule changed'
  end.

(** A schedule that runs two changed files through a pool of one slot. *)
Definition exampleSchedule : list Step :=
  [SendOnSem; WgAdd; GoWorker; WorkerReturns 0; ReceiveFromSem 0;
   SendOnSem; WgDone 0; WgAdd; GoWorker; LeaveWalk;
   WorkerReturns 0; ReceiveFromSem 0; WgDone 0; WgWait].

(** ** A machine and a command line to run the command on *)

Definition exampleHost : Host :=
  mkHost (fun _ => None) (fun _ => inr "/proj") (String.prefix "/") 8
         PlainSemver.Compare "v0.2.1" 1000 (3, 2) exampleToolchain plainOS.

(** [templ generate -path /proj], with [-watch] and [-proxy] as given. *)
Definition exampleArgs (watch : bool) (proxy : string) : Args :=
  mkArgs "" "/proj" watch "" 0 proxy 0 false false false 0 false.

(** A turn of the loop that finds the tree [d] under a manifest at the
    version of the running tool; nobody else touches the files. *)
Definition exampleRound (d : Node) : Round :=
  mkRound (fun fs => fs) (RootNode d) plainOS exampleToolchain true
          (Parsed (exampleManifest "v0.2.1")) [].

(** The state at the start of the command when the interrupt arrives after
    [n] looks at the context. *)
Definition interruptedState (n : nat) (fs : FS) : State :=
  mkState ∅ 0 [] (Some n) fs [].
(** ** The files of a scan *)

(** The artifact [generate] writes for the template [fileName]:
    [strings.TrimSuffix(fileName, ".templ") + "_templ.go"]. *)
Definition artifactOf (fileName : string) : string :=
  GoStrings.TrimSuffix fileName ".templ" +:+ "_templ.go".

(** The visualisation [generateSourceMapVisualisation] writes for it:
    [strings.TrimSuffix(templFileName, ".templ") + "_templ_sourcemap.html"]. *)
Definition visualisationOf (fileName : string) : string :=
  GoStrings.TrimSuffix fileName ".templ" +:+ "_templ_sourcemap.html".

(** The path the orphan check looks for beside the artifact [fileName]:
    [strings.TrimSuffix(fileName, "_templ.go") + ".templ"]. *)
Definition sourceOf (fileName : string) : string :=
  GoStrings.TrimSuffix fileName "_templ.go" +:+ ".templ".

(** [fs'] holds every path of [fs]. *)
Definition nothingLost (fs fs' : FS) : Prop :=
  forall p, is_Some (fs !! p) -> is_Some (fs' !! p).

(** Every path whose name ends in [.templ] is in [fs'] what it is in [fs]:
    there or not, and with the same contents. *)
Definition sourcesKept (fs fs' : FS) : Prop :=
  forall p, GoStrings.HasSuffix p ".templ" = true -> fs' !! p = fs !! p.

(** A path of [fs] that is gone in [fs'] is an artifact for whose source
    path [os.Stat] gives an error in [fs], and orphaned artifacts are not
    kept. *)
Definition onlyOrphansLost (os : OS) (keep : bool) (fs fs' : FS) : Prop :=
  forall p, is_Some (fs !! p) -> fs' !! p = None ->
    keep = false
    /\ GoStrings.HasSuffix p "_templ.go" = true
    /\ os_Stat os fs (sourceOf p) <> None.

(** What a scan may do to the file system between two of its states. *)
Definition tidy (os : OS) (keep : bool) (st st' : State) : Prop :=
  sourcesKept (fsys st) (fsys st') /\ onlyOrphansLost os keep (fsys st) (fsys st').

(** What the pipeline of one file puts on the trace: log lines and the
    files it wrote. *)
Definition isPipelineEvent (e : Event) : bool :=
  match e with
  | Log _ _ | Wrote _ => true
  | _ => false
  end.

(** A system whose disk is full after the first seven bytes of the artifact
    of [/proj/a.templ]. *)
Definition fullDiskOS : OS :=
  mkOS (fun _ => false) (fun _ => false) (fun _ => false)
       (fun p => if String.eqb p "/proj/a_templ.go" then Some 7%nat else None)
       (fun _ => false) (fun _ => false) (fun _ targpath => targpath).

(** A source is newer than its entry in the map. *)
Definition newer (m : gmap string Z) (src : string * Z) : bool :=
  lastModTime m (fst src) <? snd src.

(** The sources a traversal finds changed when it meets [srcs] in this
    order, each one compared with the map as the ones before have left
    it, and the map it leaves. *)
Fixpoint changedIn (m : gmap string Z) (srcs : list (string * Z)) : list string :=
  match srcs with
  | [] => []
  | src :: srcs' =>
      if newer m src
      then fst src :: changedIn (<[fst src := snd src]> m) srcs'
      else changedIn m srcs'
  end.

Fixpoint advance (m : gmap string Z) (srcs : list (string * Z)) : gmap string Z :=
  match srcs with
  | [] => m
  | src :: srcs' =>
      advance (if newer m src then <[fst src := snd src]> m else m) srcs'
  end.

(** Between two states of a scan, every file counted has had its worker
    started, and at most one error has been filed per file counted. *)
Definition counted (st st' : State) : Prop :=
  changesFound st <= changesFound st'
  /\ Z.of_nat (List.length (errs st')) - Z.of_nat (List.length (errs st))
     <= changesFound st' - changesFound st
  /\ Z.of_nat (List.length (dispatched (trace st')))
     - Z.of_nat (List.length (dispatched (trace st)))
     = changesFound st' - changesFound st.

(** The events a state has more than an earlier one are all of the
    pipeline. *)
Definition pipelineOnly (st st' : State) : Prop :=
  exists evs, trace st' = trace st ++ evs /\ Forall (fun e => isPipelineEvent e = true) evs.


(** Between [st] and [st'] a traversal has met the sources [srcs], in this
    order, and nothing else that counts. *)
Definition folded (srcs : list (string * Z)) (st st' : State) : Prop :=
  fileNameToLastModTime st' = advance (fileNameToLastModTime st) srcs
  /\ dispatched (trace st')
     = dispatched (trace st) ++ changedIn (fileNameToLastModTime st) srcs
  /\ changesFound st'
     = changesFound st + Z.of_nat (List.length (changedIn (fileNameToLastModTime st) srcs)).

(** ** The directories above a path *)

(** The manifests from a directory upward: [k] directories without a
    go.mod, then the directory where [found] is met, then those [above]
    it. *)
Definition upward (k : nat) (found : GoMod) (above : list GoMod) : list GoMod :=
  List.repeat StatNotExist k ++ found :: above.

(** ** The command line as the run loop has it *)

(** [url.Parse(args.Proxy)], when a proxy is asked for: its error. *)
Definition proxyError (host : Host) (args : Args) : option error :=
  if String.eqb (Proxy args) "" then None else url_Parse host (Proxy args).

(** [args.Path], made absolute when it is not. *)
Definition absolutePath (host : Host) (args : Args) : error + string :=
  if path_IsAbs host (Path args) then inr (Path args)
  else filepath_Abs host (Path args).

(** The arguments after [runCmd] has put the defaults in: the proxy port
    7331 and the number of CPUs as the worker count in place of a zero,
    the path absolute. *)
Definition withDefaults (host : Host) (args : Args) (path : string) : Args :=
  mkArgs (FileName args) path (Watch args) (Command args)
         (if ProxyPort args =? 0 then 7331 else ProxyPort args) (Proxy args)
         (if WorkerCount args =? 0 then defaultWorkerCount host else WorkerCount args)
         (GenerateSourceMapVisualisations args)
         (IncludeVersion args) (IncludeTimestamp args)
         (PPROFPort args) (KeepOrphanedFiles args).

(** The loop's variables before its first turn. *)
Definition initialLoop (host : Host) : Loop :=
  mkLoop false (mkBackOff 500 3000 0 (backoff_Multiplier host) 500).

(** The options [runCmd] hands to the generator. *)
Definition generatorOptions (host : Host) (args : Args) : list GenerateOpt :=
  (if IncludeVersion args then [WithVersion (templ_Version host)] else [])
  ++ (if IncludeTimestamp args then [WithTimestamp (time_Now host)] else []).

(** The configuration of the scans of a run. *)
Definition scanConfig (host : Host) (args : Args) : ScanConfig :=
  mkScanConfig (Path args) (GenerateSourceMapVisualisations args)
               (generatorOptions host args) (WorkerCount args) (KeepOrphanedFiles args).

(** ** The run loop: the version warning and the reload *)

Definition isVersionWarning (e : LoopEvent) : bool :=
  match e with VersionWarning _ => true | _ => false end.

(** The version gate returns in the round [r], with a pass or an error. *)
Definition gateReturns (host : Host) (r : Round) : bool :=
  match checkTemplVersion (semver_Compare host) (templ_Version host)
                          (gateFuel r) (abs_ok r) (gomod r) (gomod_parents r) with
  | Some GatePass | Some (GateFail _) => true
  | _ => false
  end.

(** The round [r] with the path under the manifest of the tool itself,
    which the gate passes. *)
Definition underOwnManifest (r : Round) : Round :=
  mkRound (outside r) (root r) (round_os r) (round_tc r) true
          (Parsed (mkModFile (Some templModulePath) [])) [].

Definition isSummary (e : LoopEvent) : bool :=
  match e with Summary _ _ _ => true | _ => false end.

Definition isCommandRun (e : LoopEvent) : bool :=
  match e with CommandRun _ => true | _ => false end.

Definition isSentSSE (e : LoopEvent) : bool :=
  match e with SentSSE _ _ => true | _ => false end.

(** A trace read from left to right by someone who remembers what the last
    scan returned.  The summary line reports the numbers of that scan, which
    found changes, and says failure exactly when it returned errors; the
    command is the one of the command line and a reload is the event
    [message] with the data [reload]; the command, the reload and the start
    of the proxy come only after a scan that found changes. *)
Fixpoint reloadOk (command : string) (changes : Z) (errs : list error)
  (evs : list LoopEvent) : Prop :=
  match evs with
  | [] => True
  | Scanned c es :: rest => reloadOk command c es rest
  | Summary level c n :: rest =>
      c = changes /\ 0 < changes /\ n = Z.of_nat (List.length errs)
      /\ level = match errs with [] => Success | _ => Failure end
      /\ reloadOk command changes errs rest
  | CommandRun cmd :: rest =>
      cmd = command /\ command <> "" /\ 0 < changes /\ reloadOk command changes errs rest
  | SentSSE event data :: rest =>
      event = "message" /\ data = "reload" /\ 0 < changes
      /\ reloadOk command changes errs rest
  | ProxyListenStarted :: rest | BrowserOpenStarted :: rest =>
      0 < changes /\ reloadOk command changes errs rest
  | _ :: rest => reloadOk command changes errs rest
  end.

(** ** The worker pool: the files and their workers *)

Definition isSendOnSem (s : Step) : bool :=
  match s with SendOnSem => true | _ => false end.

(** The file the traversal has sent on [sem] for and not yet started the
    worker of. *)
Definition inHand (w : Walker) : list string :=
  match w with
  | SentOnSem f _ | AddedToWg f _ => [f]
  | _ => []
  end.

(** The changed files the traversal has still to meet, while it runs. *)
Definition todoOf (w : Walker) : option (list string) :=
  match w with
  | Traversing todo | SentOnSem _ todo | AddedToWg _ todo => Some todo
  | _ => None
  end.

(** The traversal has sent for the files [met], the first of the changed
    files, and each of them is in the traversal's hand, with a worker, or
    done. *)
Definition accounted (changed met : list string) (p : Pool) : Prop :=
  (exists rest, changed = met ++ rest
                /\ forall todo, todoOf (walker p) = Some todo -> rest = todo)
  /\ inHand (walker p) ++ (fileOf <$> workers p) ++ finished p ≡ₚ met.

(** ** Texts and numbers *)

(** A run of one or more ASCII digits. *)
Fixpoint allDigits (s : string) : bool :=
  match s with
  | EmptyString => true
  | String c r => isDigit c && allDigits r
  end.

Definition isNumber (s : string) : bool :=
  match s with EmptyString => false | _ => allDigits s end.

(** No line of the text but the first starts with the letter g: no line
    feed is followed by a g. *)
Fixpoint noLineStartsWithG (s : string) : bool :=
  match s with
  | EmptyString => true
  | String c r =>
      match r with
      | String d _ => negb (Ascii.eqb c "010" && Ascii.eqb d "g") && noLineStartsWithG r
      | EmptyString => true
      end
  end.

(** The first [k] delays a backoff scheduler gives. *)
Fixpoint delays {B : Type} (nextBackOff : B -> Z * B) (k : nat) (b : B) : list Z :=
  match k with
  | O => []
  | Datatypes.S k' => let '(d, b') := nextBackOff b in d :: delays nextBackOff k' b'
  end.

(** What [openURL] does on a call of [client.Get] that fails and is
    followed by the delay [d]. *)
Definition retry (d : Z) : list UrlEvent := [Got false; RetryLogged d; UrlSlept d].

(** ** More of the example project *)

(** The manifest of a module that does not require this tool. *)
Definition foreignManifest : ModFile :=
  mkModFile (Some "example.com/app")
            [mkRequire "github.com/stretchr/testify" "v1.8.4"].

(** A project of one source file. *)
Definition smallTree : Node := NDir [("a.templ", NFile (InfoOk 5))].

(** A turn of the loop over the tree [d], in a module that does not require
    this tool: the manifest is one directory above the path. *)
Definition foreignRound (d : Node) : Round :=
  mkRound (fun fs => fs) (RootNode d) plainOS exampleToolchain true
          StatNotExist [Parsed foreignManifest].

(** A turn of the loop over the tree [d], under a manifest that requires a
    version of this tool above the running one. *)
Definition outdatedRound (d : Node) : Round :=
  mkRound (fun fs => fs) (RootNode d) plainOS exampleToolchain true
          (Parsed (exampleManifest "v0.3.0")) [].

(** A turn of the loop that finds no file at the path. *)
Definition missingRound : Round :=
  mkRound (fun fs => fs)
          (LstatErr (errorString "lstat /proj: no such file or directory"))
          plainOS exampleToolchain true (Parsed (exampleManifest "v0.2.1")) [].

(** [templ generate -f /proj/a.templ], with [-watch] as given. *)
Definition singleFileArgs (watch : bool) : Args :=
  mkArgs "/proj/a.templ" "/proj" watch "" 0 "" 0 false false false 0 false.

(** A manifest as a text: the module line, an empty line, the go directive
    with three numbers, an empty line, a requirement. *)
Definition exampleGoMod : string :=
  ("module example.com/app" +:+ newline)
  +:+ newline +:+ "go " +:+ "1" +:+ "." +:+ "21" +:+ "." +:+ "3" +:+ newline
  +:+ (newline +:+ "require github.com/a-h/templ v0.2.1" +:+ newline).

(* ===================================================================== *)
(** * Part II: the properties                                             *)
(* ===================================================================== *)

(** ** The version gate *)

Section VersionGateFacts.

Variable cmp : string -> string -> Z.
Variable running : string.

(** The dependency loop returns what the comparison of the first matching
    entry says, and runs off the end when there is none. *)
Lemma rangeRequire_declared (rs : list Require) (v : string) :
  declaredVersion rs = Some v ->
  rangeRequire cmp running rs =
    Some (if cmp v running <? 0 then GateFail (ErrGeneratorNewer running v)
          else if cmp v running >? 0 then GateFail (ErrGeneratorOlder running v)
          else GatePass).
Proof.
  induction rs as [|r rs IH]; simpl; [discriminate|].
  destruct (String.eqb (Mod_Path r) templModulePath); [|exact IH].
  intros [= <-].
  destruct (cmp (Mod_Version r) running <? 0); [reflexivity|].
  destruct (cmp (Mod_Version r) running >? 0); reflexivity.
Qed.

Lemma rangeRequire_undeclared (rs : list Require) :
  declaredVersion rs = None -> rangeRequire cmp running rs = None.
Proof.
  induction rs as [|r rs IH]; simpl; [reflexivity|].
  destruct (String.eqb (Mod_Path r) templModulePath); [discriminate|exact IH].
Qed.

(** The search reaches the manifest with fuel to spare, and the loop returns
    there whenever the check of the manifest returns. *)
Lemma gateLoop_found (parents : list GoMod) :
  forall (cur : GoMod) (mf : ModFile) (r : GateResult) (fuel : nat),
    foundManifest cur parents = Some mf ->
    checkModFile cmp running mf = Some r ->
    (List.length parents < fuel)%nat ->
    gateLoop cmp running fuel cur parents = Some r.
Proof.
  induction parents as [|p ps IH]; intros cur mf r fuel Hfound Hcheck Hfuel;
    (destruct fuel as [|fuel]; [simpl in Hfuel; lia|]);
    destruct cur; simpl in Hfound; try discriminate.
  - injection Hfound as ->. simpl. rewrite Hcheck. reflexivity.
  - simpl. apply (IH p mf r fuel Hfound Hcheck). simpl in Hfuel. lia.
  - injection Hfound as ->. simpl. rewrite Hcheck. reflexivity.
Qed.

(** A manifest that names another module and does not list this tool keeps
    the loop turning on the same directory: the gate does not return. *)
Lemma gateLoop_undeclared_loops (fuel : nat) :
  forall (cur : GoMod) (parents : list GoMod) (mf : ModFile),
    foundManifest cur parents = Some mf ->
    checkModFile cmp running mf = None ->
    gateLoop cmp running fuel cur parents = None.
Proof.
  induction fuel as [|fuel IH]; intros cur parents mf Hfound Hcheck; [reflexivity|].
  destruct cur as [| | | |mf0], parents as [|p ps]; simpl in Hfound;
    try discriminate.
  - simpl. eapply IH; eauto.
  - injection Hfound as ->. simpl. rewrite Hcheck.
    eapply IH; [reflexivity|exact Hcheck].
  - injection Hfound as ->. simpl. rewrite Hcheck.
    eapply IH; [reflexivity|exact Hcheck].
Qed.

(** When the search finds no manifest the loop returns an error, within the
    same fuel. *)
Lemma gateLoop_not_found (parents : list GoMod) :
  forall (cur : GoMod) (fuel : nat),
    foundManifest cur parents = None ->
    (List.length parents < fuel)%nat ->
    exists e, gateLoop cmp running fuel cur parents = Some (GateFail e).
Proof.
  induction parents as [|p ps IH]; intros cur fuel Hfound Hfuel;
    (destruct fuel as [|fuel]; [simpl in Hfuel; lia|]);
    destruct cur; simpl in Hfound; try discriminate; simpl; eauto.
  apply IH; [exact Hfound|simpl in Hfuel; lia].
Qed.

(** The fuel the run loop gives the gate decides whether it returns: when it
    is not enough, no fuel is. *)
Lemma gateLoop_fuel_decides (cur : GoMod) (parents : list GoMod) :
  gateLoop cmp running (Datatypes.S (List.length parents)) cur parents = None ->
  forall fuel, gateLoop cmp running fuel cur parents = None.
Proof.
  intros Hnone fuel.
  destruct (foundManifest cur parents) as [mf|] eqn:Hfound.
  - destruct (checkModFile cmp running mf) as [r|] eqn:Hcheck.
    + rewrite (gateLoop_found parents cur mf r _ Hfound Hcheck) in Hnone by lia.
      discriminate.
    + eapply gateLoop_undeclared_loops; eauto.
  - destruct (gateLoop_not_found parents cur _ Hfound (Nat.lt_succ_diag_r _)) as [e He].
    rewrite He in Hnone. discriminate.
Qed.

(** C1 (as the code has it).  For the manifest the gate finds: when its own
    module path is this tool's, the gate passes, whatever it lists; when it
    names another module and declares a version of this tool, a declared
    version below the running one fails with the error that asks to upgrade
    the library in the project, a declared version above the running one
    fails with the error that asks to upgrade the CLI, and an equal one
    passes.  The gate returns as soon as its fuel exceeds the number of
    directories above the path. *)
Theorem version_gate_outcomes
  (cur : GoMod) (parents : list GoMod) (mf : ModFile) (fuel : nat) :
  foundManifest cur parents = Some mf ->
  (List.length parents < fuel)%nat ->
  (Module_Path mf = Some templModulePath ->
   checkTemplVersion cmp running fuel true cur parents = Some GatePass)
  /\
  (forall p v,
     Module_Path mf = Some p -> p <> templModulePath ->
     declaredVersion (Requires mf) = Some v ->
     (cmp v running < 0 ->
      checkTemplVersion cmp running fuel true cur parents
        = Some (GateFail (ErrGeneratorNewer running v))) /\
     (cmp v running > 0 ->
      checkTemplVersion cmp running fuel true cur parents
        = Some (GateFail (ErrGeneratorOlder running v))) /\
     (cmp v running = 0 ->
      checkTemplVersion cmp running fuel true cur parents = Some GatePass)).
Proof.
  intros Hfound Hfuel. split.
  - intros Hself. unfold checkTemplVersion.
    apply (gateLoop_found parents cur mf GatePass fuel Hfound); [|exact Hfuel].
    unfold checkModFile. rewrite Hself. reflexivity.
  - intros p v Hmod Hother Hdecl.
    assert (Hcheck : checkModFile cmp running mf =
                     Some (if cmp v running <? 0
                           then GateFail (ErrGeneratorNewer running v)
                           else if cmp v running >? 0
                                then GateFail (ErrGeneratorOlder running v)
                                else GatePass)).
    { unfold checkModFile. rewrite Hmod.
      destruct (String.eqb_spec p templModulePath) as [->|_]; [contradiction|].
      apply rangeRequire_declared. exact Hdecl. }
    unfold checkTemplVersion.
    rewrite (gateLoop_found parents cur mf _ fuel Hfound Hcheck Hfuel).
    repeat split; intros Hc.
    + destruct (Z.ltb_spec (cmp v running) 0); [reflexivity|lia].
    + destruct (Z.ltb_spec (cmp v running) 0); [lia|].
      destruct (cmp v running >? 0) eqn:Hgt; [reflexivity|].
      rewrite Z.gtb_ltb in Hgt. apply Z.ltb_ge in Hgt. lia.
    + rewrite Hc. reflexivity.
Qed.

End VersionGateFacts.

(** The gate on the example, at each of its outcomes. *)
Lemma version_gate_outcomes_witness :
  foundManifest StatNotExist [StatNotExist; Parsed (exampleManifest "v0.2.0")]
    = Some (exampleManifest "v0.2.0")
  /\ checkTemplVersion PlainSemver.Compare "v0.2.1" 3 true
       StatNotExist [StatNotExist; Parsed (exampleManifest "v0.2.0")]
     = Some (GateFail (ErrGeneratorNewer "v0.2.1" "v0.2.0")).
Proof.
  split; [reflexivity|].
  destruct (version_gate_outcomes PlainSemver.Compare "v0.2.1"
              StatNotExist [StatNotExist; Parsed (exampleManifest "v0.2.0")]
              (exampleManifest "v0.2.0") 3 eq_refl ltac:(simpl; lia))
    as [_ Hother].
  destruct (Hother "example.com/app" "v0.2.0" eq_refl ltac:(discriminate) eq_refl)
    as [Hbelow _].
  apply Hbelow. reflexivity.
Defined.

(** C1 (as stated) fails: a manifest that declares v0.2.0, below the
    running v0.2.1, does not pass the gate; it is told to upgrade the
    library. *)
Lemma version_gate_older_dependency_fails :
  foundManifest (Parsed (exampleManifest "v0.2.0")) []
    = Some (exampleManifest "v0.2.0")
  /\ declaredVersion (Requires (exampleManifest "v0.2.0")) = Some "v0.2.0"
  /\ PlainSemver.Compare "v0.2.0" "v0.2.1" < 0
  /\ checkTemplVersion PlainSemver.Compare "v0.2.1" 1 true
       (Parsed (exampleManifest "v0.2.0")) [] <> Some GatePass
  /\ (isUpgradeLibrary <$>
        checkTemplVersion PlainSemver.Compare "v0.2.1" 1 true
          (Parsed (exampleManifest "v0.2.0")) []) = Some true.
Proof.
  repeat split; try reflexivity. vm_compute. discriminate.
Qed.

(** ** The scan: strings, frames, the walk, the callback *)

Lemma HasSuffix_get (s suffix : string) (i : nat) :
  GoStrings.HasSuffix s suffix = true ->
  (i < String.length suffix)%nat ->
  String.get (String.length s - String.length suffix + i) s = String.get i suffix.
Proof.
  unfold GoStrings.HasSuffix. intros H Hi.
  apply andb_true_iff in H as [Hlen Heq].
  apply String.eqb_eq in Heq.
  transitivity (String.get i (String.substring
                 (String.length s - String.length suffix) (String.length suffix) s)).
  - rewrite String.substring_correct1 by exact Hi. f_equal. lia.
  - rewrite Heq. reflexivity.
Qed.

Lemma generated_is_not_source (fileName : string) :
  GoStrings.HasSuffix fileName "_templ.go" = true ->
  GoStrings.HasSuffix fileName ".templ" = false.
Proof.
  intros Hgo. destruct (GoStrings.HasSuffix fileName ".templ") eqn:Htempl; [|reflexivity].
  pose proof (HasSuffix_get _ _ 8 Hgo ltac:(simpl; lia)) as H1.
  pose proof (HasSuffix_get _ _ 5 Htempl ltac:(simpl; lia)) as H2.
  assert (Hlen : (9 <= String.length fileName)%nat).
  { unfold GoStrings.HasSuffix in Hgo. apply andb_true_iff in Hgo as [Hlen _].
    apply Nat.leb_le in Hlen. exact Hlen. }
  simpl String.length in H1, H2.
  replace (String.length fileName - 9 + 8)%nat with (String.length fileName - 6 + 5)%nat in H1 by lia.
  rewrite H1 in H2. simpl in H2. discriminate.
Qed.

Lemma frames_refl st : frames st st.
Proof. repeat split. exists []. rewrite app_nil_r. reflexivity. Qed.

Lemma frames_trans st1 st2 st3 : frames st1 st2 -> frames st2 st3 -> frames st1 st3.
Proof.
  intros (Hm1 & Hc1 & [t1 Ht1] & He1) (Hm2 & Hc2 & [t2 Ht2] & He2).
  repeat split; try congruence.
  exists (t1 ++ t2). rewrite Ht2, Ht1, app_assoc. reflexivity.
Qed.

Lemma frames_emit e st : frames st (emit e st).
Proof. repeat split. exists [e]. reflexivity. Qed.

Lemma frames_set_fsys fs st : frames st (set_fsys fs st).
Proof. repeat split. exists []. rewrite app_nil_r. reflexivity. Qed.

Lemma frames_set_ctx c st : frames st (set_ctx c st).
Proof. repeat split. exists []. rewrite app_nil_r. reflexivity. Qed.

Lemma frames_checkCtx st : frames st (snd (checkCtx st)).
Proof. unfold checkCtx. destruct (ctx_Err (ctx st)). apply frames_set_ctx. Qed.

Ltac frames_step :=
  first [ apply frames_refl
        | eapply frames_trans; [|apply frames_emit]
        | eapply frames_trans; [|apply frames_set_fsys] ].

Lemma frames_generateSourceMapVisualisation tc os templ go sm st :
  frames st (snd (generateSourceMapVisualisation tc os templ go sm st)).
Proof.
  unfold generateSourceMapVisualisation.
  pose proof (frames_checkCtx st) as Hc.
  destruct (checkCtx st) as [cerr st0]. simpl in Hc.
  destruct cerr; [exact Hc|].
  destruct (os_ReadFile os (fsys st0) templ); [exact Hc|].
  destruct (os_ReadFile os (fsys st0) go); [exact Hc|].
  destruct (os_Create os (fsys st0) _); [exact Hc|].
  destruct (visualize_Render tc _ _ _ _). simpl.
  eapply frames_trans; [exact Hc|]. repeat frames_step.
Qed.

Lemma frames_generate tc os basePath fileName vis opts st :
  frames st (snd (generate tc os basePath fileName vis opts st)).
Proof.
  unfold generate.
  pose proof (frames_checkCtx st) as Hc.
  destruct (checkCtx st) as [cerr st0]. simpl in Hc.
  destruct cerr; [exact Hc|].
  destruct (parser_Parse tc fileName); [exact Hc|].
  destruct (generator_Generate tc _ _) as [|[b sm]]; [exact Hc|].
  destruct (format_Source tc b); [exact Hc|].
  destruct (os_WriteFile os (fsys st0) _ _) as [[e fs1]|fs1];
    [eapply frames_trans; [exact Hc|apply frames_set_fsys]|].
  destruct vis; simpl.
  - match goal with |- context [generateSourceMapVisualisation ?a ?b ?c ?d ?e ?f] =>
      pose proof (frames_generateSourceMapVisualisation a b c d e f) as Hv;
      destruct (generateSourceMapVisualisation a b c d e f) end.
    simpl in *. eapply frames_trans; [exact Hc|].
    eapply frames_trans; [|exact Hv]. repeat frames_step.
  - eapply frames_trans; [exact Hc|]. repeat frames_step.
Qed.

Lemma frames_printDiagnostics diags : forall st, frames st (printDiagnostics diags st).
Proof.
  unfold printDiagnostics.
  induction diags as [|d ds IH]; intros st; simpl; [apply frames_refl|].
  eapply frames_trans; [apply frames_emit|apply IH].
Qed.

Lemma frames_processSingleFile tc os basePath fileName vis opts st :
  frames st (snd (processSingleFile tc os basePath fileName vis opts st)).
Proof.
  unfold processSingleFile.
  pose proof (frames_generate tc os basePath fileName vis opts st) as Hg.
  destruct (generate tc os basePath fileName vis opts st) as [[diag err] st0].
  simpl in Hg. destruct err; [exact Hg|].
  destruct diag; cbn [snd].
  - eapply frames_trans; [exact Hg|apply frames_emit].
  - eapply frames_trans; [exact Hg|].
    eapply frames_trans; [apply frames_emit|apply frames_printDiagnostics].
Qed.

(** The worker, spelled out: it runs the pipeline, notes its end in the
    trace, and files its error. *)
Lemma worker_spec tc os cfg fileName st :
  let err := fst (processSingleFile tc os (scan_path cfg) fileName
                    (generateSourceMapVisualisations cfg) (opts cfg) st) in
  fileNameToLastModTime (worker tc os cfg fileName st) = fileNameToLastModTime st
  /\ changesFound (worker tc os cfg fileName st) = changesFound st
  /\ (exists evs, trace (worker tc os cfg fileName st)
                  = trace st ++ evs ++ [Compiled fileName err])
  /\ errs (worker tc os cfg fileName st)
     = errs st ++ match err with Some e => [e] | None => [] end.
Proof.
  unfold worker.
  pose proof (frames_processSingleFile tc os (scan_path cfg) fileName
                (generateSourceMapVisualisations cfg) (opts cfg) st) as Hp.
  destruct (processSingleFile _ _ _ _ _ _ _) as [err st1].
  destruct Hp as (Hm & Hc & [evs Ht] & He). simpl in *.
  destruct err; simpl; rewrite Ht, He, ?app_nil_r; repeat split; try assumption;
    exists evs; rewrite app_assoc; reflexivity.
Qed.

Section WalkFacts.

Context {S : Type}.
Variable fn : S -> string -> option Node -> option error -> S * WalkResult.

Lemma walkDir_NFile (path : string) (info : InfoResult) (st : S) :
  walkDir fn path (NFile info) st =
    let '(st1, r) := fn st path (Some (NFile info)) None in
    match r with
    | WalkErr e => (st1, WalkErr e)
    | WalkSkipDir => (st1, WalkSkipDir)
    | WalkNil => (st1, WalkNil)
    end.
Proof.
  simpl. destruct (fn st path (Some (NFile info)) None) as [st1 r].
  destruct r; reflexivity.
Qed.

Lemma walkDir_NBadDir (path : string) (e : error) (st : S) :
  walkDir fn path (NBadDir e) st =
    let '(st1, r) := fn st path (Some (NBadDir e)) None in
    match r with
    | WalkErr e1 => (st1, WalkErr e1)
    | WalkSkipDir => (st1, WalkNil)
    | WalkNil =>
        let '(st2, r2) := fn st1 path (Some (NBadDir e)) (Some e) in
        match r2 with
        | WalkErr e2 => (st2, WalkErr e2)
        | _ => (st2, WalkNil)
        end
    end.
Proof.
  simpl. destruct (fn st path (Some (NBadDir e)) None) as [st1 r].
  destruct r; reflexivity.
Qed.

Lemma walkDir_NDir (path : string) (entries : list (string * Node)) (st : S) :
  walkDir fn path (NDir entries) st =
    let '(st1, r) := fn st path (Some (NDir entries)) None in
    match r with
    | WalkErr e => (st1, WalkErr e)
    | WalkSkipDir => (st1, WalkNil)
    | WalkNil => rangeDirs fn path entries st1
    end.
Proof.
  simpl. destruct (fn st path (Some (NDir entries)) None) as [st1 r].
  destruct r; try reflexivity.
  revert st1. induction entries as [|[name d1] es IH]; intros st1; [reflexivity|].
  simpl. destruct (walkDir fn (GoStrings.Join path name) d1 st1) as [st' r'].
  destruct r'; try reflexivity. apply IH.
Qed.

(** A relation between states that every call of the callback respects is
    respected by the whole walk. *)
Variable R : S -> S -> Prop.
Hypothesis R_refl : forall st, R st st.
Hypothesis R_trans : forall st1 st2 st3, R st1 st2 -> R st2 st3 -> R st1 st3.
Hypothesis R_fn : forall st path d err, R st (fst (fn st path d err)).

Lemma walkDir_respects (d : Node) :
  forall path st, R st (fst (walkDir fn path d st)).
Proof.
  induction d as [info|entries IH|e] using Node_nested_ind; intros path st.
  - simpl. pose proof (R_fn st path (Some (NFile info)) None) as H.
    destruct (fn st path (Some (NFile info)) None) as [st1 r].
    destruct r; exact H.
  - rewrite walkDir_NDir.
    pose proof (R_fn st path (Some (NDir entries)) None) as H.
    destruct (fn st path (Some (NDir entries)) None) as [st1 r]. simpl in H.
    destruct r; try exact H.
    eapply R_trans; [exact H|]. clear H st.
    revert st1. induction IH as [|[name d1] es Hd _ IHes]; intros st1; simpl.
    + apply R_refl.
    + pose proof (Hd (GoStrings.Join path name) st1) as H1. simpl in H1.
      destruct (walkDir fn (GoStrings.Join path name) d1 st1) as [st' r'].
      simpl in H1. destruct r'; try exact H1.
      eapply R_trans; [exact H1|apply IHes].
  - simpl. pose proof (R_fn st path (Some (NBadDir e)) None) as H.
    destruct (fn st path (Some (NBadDir e)) None) as [st1 r]. simpl in H.
    destruct r; try exact H.
    pose proof (R_fn st1 path (Some (NBadDir e)) (Some e)) as H2.
    destruct (fn st1 path (Some (NBadDir e)) (Some e)) as [st2 r2]. simpl in H2.
    destruct r2; simpl; eapply R_trans; eauto.
Qed.

Lemma WalkDir_respects (root : string) (r : Root) (st : S) :
  R st (fst (WalkDir fn root r st)).
Proof.
  unfold WalkDir. destruct r as [e|d].
  - pose proof (R_fn st root None (Some e)) as H.
    destruct (fn st root None (Some e)) as [st' res]. destruct res; exact H.
  - pose proof (walkDir_respects d root st) as H.
    destruct (walkDir fn root d st) as [st' res]. destruct res; exact H.
Qed.

End WalkFacts.

Lemma grows_refl st : grows st st.
Proof. repeat split; try lia; exists []; rewrite app_nil_r; reflexivity. Qed.

Lemma grows_trans st1 st2 st3 : grows st1 st2 -> grows st2 st3 -> grows st1 st3.
Proof.
  intros (Hm1 & Hc1 & [t1 Ht1] & [e1 He1]) (Hm2 & Hc2 & [t2 Ht2] & [e2 He2]).
  repeat split; try lia.
  - intros f. specialize (Hm1 f). specialize (Hm2 f). lia.
  - exists (t1 ++ t2). rewrite Ht2, Ht1, app_assoc. reflexivity.
  - exists (e1 ++ e2). rewrite He2, He1, app_assoc. reflexivity.
Qed.

Lemma frames_grows st st' : frames st st' -> grows st st'.
Proof.
  intros (Hm & Hc & Ht & He). repeat split; try assumption; try lia.
  - intros f. rewrite Hm. lia.
  - exists []. rewrite He, app_nil_r. reflexivity.
Qed.

Lemma worker_grows tc os cfg fileName st : grows st (worker tc os cfg fileName st).
Proof.
  destruct (worker_spec tc os cfg fileName st) as (Hm & Hc & [evs Ht] & He).
  repeat split; try lia.
  - intros f. rewrite Hm. lia.
  - eauto.
  - eauto.
Qed.

Lemma lastModTime_insert m f t g :
  lastModTime (<[f := t]> m) g = if decide (f = g) then t else lastModTime m g.
Proof.
  unfold lastModTime. rewrite lookup_insert. destruct (decide (f = g)); reflexivity.
Qed.

Lemma source_is_not_generated (fileName : string) :
  GoStrings.HasSuffix fileName ".templ" = true ->
  GoStrings.HasSuffix fileName "_templ.go" = false.
Proof.
  intros H. destruct (GoStrings.HasSuffix fileName "_templ.go") eqn:Hgo; [|reflexivity].
  rewrite (generated_is_not_source _ Hgo) in H. discriminate.
Qed.

Section VisitFacts.

Variable tc : Toolchain.
Variable os : OS.
Variable cfg : ScanConfig.

(** The callback asks for a directory to be skipped only on a directory. *)
Lemma visit_SkipDir st fileName info err :
  snd (visit tc os cfg st fileName info err) = WalkSkipDir ->
  exists d, info = Some d /\ IsDir d = true /\ shouldSkipDir fileName = true.
Proof.
  unfold visit. destruct err; [discriminate|].
  destruct (checkCtx st) as [cerr st0]. destruct cerr; [discriminate|].
  destruct info as [d|]; [|discriminate].
  destruct (IsDir d) eqn:Hd; simpl.
  - destruct (shouldSkipDir fileName) eqn:Hs; [eauto|discriminate].
  - destruct (negb (keepOrphanedFiles cfg) && GoStrings.HasSuffix fileName "_templ.go").
    + destruct (os_Stat _ _ _); [|discriminate].
      destruct (os_Remove _ _ _); discriminate.
    + destruct (GoStrings.HasSuffix fileName ".templ"); [|discriminate].
      destruct d as [[e|mt]| |]; try discriminate.
      destruct (After _ _); discriminate.
Qed.

(** A source file that is not newer than its entry: the callback only
    looks at the context. *)
Lemma visit_unchanged st fileName modTime :
  GoStrings.HasSuffix fileName ".templ" = true ->
  modTime <= lastModTime (fileNameToLastModTime st) fileName ->
  visit tc os cfg st fileName (Some (NFile (InfoOk modTime))) None =
    (snd (checkCtx st),
     match fst (checkCtx st) with Some e => WalkErr e | None => WalkNil end).
Proof.
  intros Hsrc Hold. unfold visit.
  destruct (checkCtx st) as [cerr st0] eqn:Hctx. simpl.
  destruct cerr; [reflexivity|].
  rewrite (source_is_not_generated _ Hsrc), andb_false_r, Hsrc.
  assert (fileNameToLastModTime st0 = fileNameToLastModTime st) as ->.
  { unfold checkCtx in Hctx. destruct (ctx_Err (ctx st)). injection Hctx as _ <-.
    reflexivity. }
  unfold After. destruct (Z.ltb_spec (lastModTime (fileNameToLastModTime st) fileName) modTime);
    [lia|reflexivity].
Qed.

(** A source file that is newer than its entry, the context live: the time
    is recorded, the file counted and a worker started, in that order. *)
Lemma visit_changed st fileName modTime c :
  ctx_Err (ctx st) = (None, c) ->
  GoStrings.HasSuffix fileName ".templ" = true ->
  lastModTime (fileNameToLastModTime st) fileName < modTime ->
  visit tc os cfg st fileName (Some (NFile (InfoOk modTime))) None =
    (worker tc os cfg fileName
       (emit (Dispatched fileName)
          (incr_changesFound
             (emit (Recorded fileName modTime)
                (set_lastModTime fileName modTime (set_ctx c st))))),
     WalkNil).
Proof.
  intros Hctx Hsrc Hnew. unfold visit, checkCtx. rewrite Hctx. simpl.
  rewrite (source_is_not_generated _ Hsrc), andb_false_r, Hsrc.
  unfold After. destruct (Z.ltb_spec (lastModTime (fileNameToLastModTime st) fileName) modTime);
    [reflexivity|lia].
Qed.

Lemma visit_grows st fileName info err :
  grows st (fst (visit tc os cfg st fileName info err)).
Proof.
  unfold visit. destruct err; [apply grows_refl|].
  pose proof (frames_grows _ _ (frames_checkCtx st)) as Hc.
  destruct (checkCtx st) as [cerr st0]. simpl in Hc.
  destruct cerr; [exact Hc|].
  destruct info as [d|]; [|exact Hc].
  destruct (IsDir d && shouldSkipDir fileName); [exact Hc|].
  destruct (IsDir d); [exact Hc|].
  destruct (negb (keepOrphanedFiles cfg) && GoStrings.HasSuffix fileName "_templ.go").
  - destruct (os_Stat _ _ _); [|exact Hc].
    destruct (os_Remove _ _ _); [exact Hc|]. cbn [fst].
    eapply grows_trans; [exact Hc|]. apply frames_grows. repeat frames_step.
  - destruct (GoStrings.HasSuffix fileName ".templ"); [|exact Hc].
    destruct d as [[e|mt]| |]; try exact Hc.
    unfold After.
    destruct (Z.ltb_spec (lastModTime (fileNameToLastModTime st0) fileName) mt);
      [|exact Hc].
    cbn [fst]. eapply grows_trans; [exact Hc|].
    eapply grows_trans; [|apply worker_grows].
    repeat split; simpl; try lia.
    + intros f. rewrite lastModTime_insert. destruct (decide (fileName = f)); [subst|]; lia.
    + exists [Recorded fileName mt; Dispatched fileName].
      rewrite <- app_assoc. reflexivity.
    + exists []. rewrite app_nil_r. reflexivity.
Qed.

End VisitFacts.

Lemma settled_NDir m path entries :
  settled m path (NDir entries) <->
  shouldSkipDir path = true \/ settledAll m path entries.
Proof.
  simpl. apply or_iff_compat_l.
  induction entries as [|[name d1] es IH]; simpl; [tauto|].
  rewrite IH. tauto.
Qed.

Lemma settled_mono (m m' : gmap string Z) :
  (forall f, lastModTime m f <= lastModTime m' f) ->
  forall d path, settled m path d -> settled m' path d.
Proof.
  intros Hle. induction d as [info|entries IH|e] using Node_nested_ind; intros path.
  - destruct info as [e|mt]; simpl; [tauto|].
    intros H Hsrc. specialize (H Hsrc). specialize (Hle path). lia.
  - rewrite !settled_NDir. intros [Hskip|Hall]; [left; exact Hskip|right].
    induction IH as [|[name d1] es Hd _ IHes]; simpl in *; [exact I|].
    destruct Hall as [H1 H2]. split; [apply Hd; exact H1|apply IHes; exact H2].
  - simpl. tauto.
Qed.

Lemma settledAll_mono (m m' : gmap string Z) path entries :
  (forall f, lastModTime m f <= lastModTime m' f) ->
  settledAll m path entries -> settledAll m' path entries.
Proof.
  intros Hle. induction entries as [|[name d1] es IH]; simpl; [tauto|].
  intros [H1 H2]. split; [eapply settled_mono; eauto|apply IH; exact H2].
Qed.

Lemma dispatched_app tr1 tr2 : dispatched (tr1 ++ tr2) = dispatched tr1 ++ dispatched tr2.
Proof.
  induction tr1 as [|e tr1 IH]; [reflexivity|].
  destruct e; simpl; rewrite IH; reflexivity.
Qed.

Lemma quiet_refl st : quiet st st.
Proof. repeat split. Qed.

Lemma quiet_trans st1 st2 st3 : quiet st1 st2 -> quiet st2 st3 -> quiet st1 st3.
Proof. intros (?&?&?) (?&?&?). repeat split; congruence. Qed.

Lemma quiet_checkCtx st : quiet st (snd (checkCtx st)).
Proof. unfold checkCtx. destruct (ctx_Err (ctx st)). repeat split. Qed.

Section Settling.

Variable tc : Toolchain.
Variable os : OS.
Variable cfg : ScanConfig.

(** The walk with this callback never hands a skip upward. *)
Lemma walkDir_visit_not_SkipDir (d : Node) path st :
  snd (walkDir (visit tc os cfg) path d st) <> WalkSkipDir.
Proof.
  destruct d as [info|entries|e].
  - rewrite walkDir_NFile.
    destruct (visit tc os cfg st path (Some (NFile info)) None) as [st1 r] eqn:Hv.
    destruct r; simpl; try discriminate.
    pose proof (visit_SkipDir tc os cfg st path (Some (NFile info)) None) as H.
    rewrite Hv in H. destruct (H eq_refl) as (d & [= <-] & Hd & _). discriminate.
  - rewrite walkDir_NDir.
    destruct (visit tc os cfg st path (Some (NDir entries)) None) as [st1 r].
    destruct r; simpl; try discriminate.
    revert st1. induction entries as [|[name d1] es IH]; intros st1; simpl;
      [discriminate|].
    destruct (walkDir (visit tc os cfg) (GoStrings.Join path name) d1 st1) as [st' r'].
    destruct r'; simpl; try discriminate. apply IH.
  - rewrite walkDir_NBadDir.
    destruct (visit tc os cfg st path (Some (NBadDir e)) None) as [st1 r].
    destruct r; simpl; discriminate.
Qed.

Lemma walkDir_grows (d : Node) path st :
  grows st (fst (walkDir (visit tc os cfg) path d st)).
Proof.
  apply (walkDir_respects (visit tc os cfg) grows grows_refl grows_trans).
  intros. apply visit_grows.
Qed.

(** After a file is looked at without an error, it holds no news. *)
Lemma visit_settles_file st path info :
  (forall e, snd (visit tc os cfg st path (Some (NFile info)) None) <> WalkErr e) ->
  settled (fileNameToLastModTime (fst (visit tc os cfg st path (Some (NFile info)) None)))
          path (NFile info).
Proof.
  destruct info as [e|mt]; simpl; [tauto|].
  intros Hok Hsrc.
  destruct (Z.le_gt_cases mt (lastModTime (fileNameToLastModTime st) path)) as [Hold|Hnew].
  - rewrite (visit_unchanged tc os cfg st path mt Hsrc Hold). simpl.
    unfold checkCtx. destruct (ctx_Err (ctx st)). exact Hold.
  - destruct (ctx_Err (ctx st)) as [cerr c] eqn:Hctx.
    destruct cerr as [e|].
    + exfalso. apply (Hok e). unfold visit, checkCtx. rewrite Hctx. reflexivity.
    + rewrite (visit_changed tc os cfg st path mt c Hctx Hsrc Hnew). cbn [fst].
      destruct (worker_spec tc os cfg path
                  (emit (Dispatched path)
                     (incr_changesFound
                        (emit (Recorded path mt)
                           (set_lastModTime path mt (set_ctx c st)))))) as [-> _].
      simpl. rewrite lastModTime_insert. destruct (decide (path = path)); [lia|congruence].
Qed.

(** A traversal that ends without an error leaves a tree that holds no
    news. *)
Lemma walkDir_settles (d : Node) :
  forall path st,
    (forall e, snd (walkDir (visit tc os cfg) path d st) <> WalkErr e) ->
    settled (fileNameToLastModTime (fst (walkDir (visit tc os cfg) path d st))) path d.
Proof.
  induction d as [info|entries IH|e] using Node_nested_ind; intros path st Hok.
  - pose proof (visit_settles_file st path info) as H.
    rewrite walkDir_NFile in Hok |- *.
    destruct (visit tc os cfg st path (Some (NFile info)) None) as [st1 r].
    destruct r; simpl in *; apply H; try discriminate.
    intros e0 He. apply (Hok e0). exact He.
  - apply settled_NDir. rewrite walkDir_NDir in Hok |- *.
    pose proof (visit_SkipDir tc os cfg st path (Some (NDir entries)) None) as Hskip.
    destruct (visit tc os cfg st path (Some (NDir entries)) None) as [st1 r].
    destruct r; simpl in *.
    + right. clear Hskip. revert st1 Hok.
      induction IH as [|[name d1] es Hd _ IHes]; intros st1 Hok; simpl; [exact I|].
      simpl in Hok, Hd.
      pose proof (Hd (GoStrings.Join path name) st1) as H1.
      pose proof (walkDir_visit_not_SkipDir d1 (GoStrings.Join path name) st1) as Hns.
      destruct (walkDir (visit tc os cfg) (GoStrings.Join path name) d1 st1) as [st' r'].
      destruct r'; simpl in *; [|contradiction|exfalso; eapply Hok; reflexivity].
      split; [|apply IHes; exact Hok].
      eapply settled_mono; [|apply H1; discriminate].
      pose proof (walkDir_respects (visit tc os cfg) grows grows_refl grows_trans
                    (visit_grows tc os cfg)) as Hg.
      assert (Hgr : grows st' (fst (rangeDirs (visit tc os cfg) path es st'))).
      { clear. revert st'. induction es as [|[n d] es IHe]; intros st'; simpl;
          [apply grows_refl|].
        pose proof (walkDir_grows d (GoStrings.Join path n) st') as H.
        destruct (walkDir (visit tc os cfg) (GoStrings.Join path n) d st') as [s r].
        destruct r; simpl in *; try exact H.
        eapply grows_trans; [exact H|apply IHe]. }
      apply Hgr.
    + left. destruct (Hskip eq_refl) as (? & _ & _ & H). exact H.
    + exfalso. eapply Hok. reflexivity.
  - simpl. exact I.
Qed.

(** On a tree that holds no news the callback finds no change. *)
Lemma visit_quiet st path d err :
  settled (fileNameToLastModTime st) path d ->
  quiet st (fst (visit tc os cfg st path (Some d) err)).
Proof.
  intros Hset. unfold visit. destruct err; [apply quiet_refl|].
  pose proof (quiet_checkCtx st) as Hc.
  destruct (checkCtx st) as [cerr st0]. simpl in Hc.
  destruct cerr; [exact Hc|].
  destruct (IsDir d && shouldSkipDir path); [exact Hc|].
  destruct (IsDir d); [exact Hc|].
  destruct (negb (keepOrphanedFiles cfg) && GoStrings.HasSuffix path "_templ.go").
  - destruct (os_Stat _ _ _); [|exact Hc].
    destruct (os_Remove _ _ _); [exact Hc|]. cbn [fst].
    eapply quiet_trans; [exact Hc|]. repeat split. simpl.
    rewrite !dispatched_app. simpl. rewrite !app_nil_r. reflexivity.
  - destruct (GoStrings.HasSuffix path ".templ") eqn:Hsrc; [|exact Hc].
    destruct d as [[e|mt]| |]; try exact Hc.
    simpl in Hset. specialize (Hset Hsrc).
    pose proof Hc as (Hm & _). rewrite Hm. unfold After.
    destruct (Z.ltb_spec (lastModTime (fileNameToLastModTime st) path) mt); [lia|].
    exact Hc.
Qed.

End Settling.

Section Idempotence.

Variable tc : Toolchain.
Variable os : OS.
Variable cfg : ScanConfig.

Lemma walkDir_quiet (d : Node) :
  forall path st,
    settled (fileNameToLastModTime st) path d ->
    quiet st (fst (walkDir (visit tc os cfg) path d st)).
Proof.
  induction d as [info|entries IH|e] using Node_nested_ind; intros path st Hset.
  - rewrite walkDir_NFile.
    pose proof (visit_quiet tc os cfg st path (NFile info) None Hset) as H.
    destruct (visit tc os cfg st path (Some (NFile info)) None) as [st1 r].
    destruct r; exact H.
  - rewrite walkDir_NDir.
    pose proof (visit_quiet tc os cfg st path (NDir entries) None Hset) as H.
    pose proof (visit_SkipDir tc os cfg st path (Some (NDir entries)) None) as Hskip.
    assert (Hnoskip : snd (visit tc os cfg st path (Some (NDir entries)) None) = WalkNil ->
                      shouldSkipDir path = false).
    { unfold visit. destruct (checkCtx st) as [[?|] ?]; [discriminate|].
      simpl. destruct (shouldSkipDir path); [discriminate|reflexivity]. }
    destruct (visit tc os cfg st path (Some (NDir entries)) None) as [st1 r].
    simpl in H, Hnoskip. destruct r; try exact H.
    apply settled_NDir in Hset. destruct Hset as [Hs|Hall];
      [rewrite (Hnoskip eq_refl) in Hs; discriminate|].
    eapply quiet_trans; [exact H|].
    destruct H as (Hm & _). rewrite <- Hm in Hall. clear Hm Hskip Hnoskip st.
    revert st1 Hall.
    induction IH as [|[name d1] es Hd _ IHes]; intros st1 Hall; simpl;
      [apply quiet_refl|].
    destruct Hall as [H1 H2].
    pose proof (Hd (GoStrings.Join path name) st1 H1) as Hq. simpl in Hq.
    destruct (walkDir (visit tc os cfg) (GoStrings.Join path name) d1 st1) as [st' r'].
    simpl in Hq. destruct r'; try exact Hq.
    eapply quiet_trans; [exact Hq|]. apply IHes.
    destruct Hq as (Hm & _). rewrite Hm. exact H2.
  - rewrite walkDir_NBadDir.
    pose proof (visit_quiet tc os cfg st path (NBadDir e) None Hset) as H.
    destruct (visit tc os cfg st path (Some (NBadDir e)) None) as [st1 r].
    simpl in H. destruct r; exact H.
Qed.

End Idempotence.

Section ScanFacts.

Variable tc : Toolchain.
Variable os : OS.
Variable cfg : ScanConfig.

Lemma traverse_grows root st :
  grows (startScan st) (fst (traverse tc os cfg root st)).
Proof.
  unfold traverse.
  apply (WalkDir_respects (visit tc os cfg) grows grows_refl grows_trans).
  intros. apply visit_grows.
Qed.

(** No entry of the map goes back in a scan. *)
Lemma processChanges_advances root st f :
  lastModTime (fileNameToLastModTime st) f
  <= lastModTime (fileNameToLastModTime (snd (processChanges tc os cfg root st))) f.
Proof.
  unfold processChanges.
  pose proof (traverse_grows root st) as (Hm & _).
  destruct (traverse tc os cfg root st) as [st1 err]. simpl in Hm.
  specialize (Hm f). destruct err; simpl; exact Hm.
Qed.

(** The error a traversal ends with is the last error of the scan. *)
Lemma processChanges_reports_traversal_error root st e :
  snd (traverse tc os cfg root st) = Some e ->
  exists es, snd (fst (processChanges tc os cfg root st)) = es ++ [e].
Proof.
  unfold processChanges. destruct (traverse tc os cfg root st) as [st1 err].
  simpl. intros ->. simpl. eauto.
Qed.

(** A traversal that ran to its end leaves a tree with no news. *)
Lemma traverse_settles d st :
  snd (traverse tc os cfg (RootNode d) st) = None ->
  settled (fileNameToLastModTime (fst (traverse tc os cfg (RootNode d) st)))
          (scan_path cfg) d.
Proof.
  unfold traverse, WalkDir. intros Hok.
  pose proof (walkDir_settles tc os cfg d (scan_path cfg) (startScan st)) as H.
  destruct (walkDir (visit tc os cfg) (scan_path cfg) d (startScan st)) as [st1 r].
  destruct r; simpl in *; try discriminate; apply H; discriminate.
Qed.

(** A scan of a tree with no news finds no change. *)
Lemma processChanges_quiet d st :
  settled (fileNameToLastModTime st) (scan_path cfg) d ->
  fst (fst (processChanges tc os cfg (RootNode d) st)) = 0
  /\ dispatched (trace (snd (processChanges tc os cfg (RootNode d) st)))
     = dispatched (trace st)
  /\ fileNameToLastModTime (snd (processChanges tc os cfg (RootNode d) st))
     = fileNameToLastModTime st.
Proof.
  intros Hset. unfold processChanges, traverse, WalkDir.
  pose proof (walkDir_quiet tc os cfg d (scan_path cfg) (startScan st) Hset) as H.
  destruct (walkDir (visit tc os cfg) (scan_path cfg) d (startScan st)) as [st1 r].
  destruct H as (Hm & Hc & Hd). simpl in Hm, Hc, Hd.
  destruct r; simpl; auto.
Qed.

End ScanFacts.


Lemma sourcesOf_NDir path entries :
  sourcesOf path (NDir entries)
  = if shouldSkipDir path then [] else sourcesOfAll path entries.
Proof.
  simpl. destruct (shouldSkipDir path); [reflexivity|].
  induction entries as [|[name d1] es IH]; simpl; [reflexivity|].
  rewrite IH. reflexivity.
Qed.

(** A tree holds no news exactly when none of its sources is above its
    entry in the map. *)
Lemma settled_sources (m : gmap string Z) (d : Node) :
  forall path,
    settled m path d <->
    (forall f modTime, In (f, modTime) (sourcesOf path d) -> modTime <= lastModTime m f).
Proof.
  induction d as [info|entries IH|e] using Node_nested_ind; intros path.
  - destruct info as [e|mt]; simpl.
    + split; [intros _ f t []|trivial].
    + destruct (GoStrings.HasSuffix path ".templ"); simpl.
      * split.
        -- intros H f t [[= <- <-]|[]]. apply H. reflexivity.
        -- intros H _. apply H. left. reflexivity.
      * split; [intros _ f t []|discriminate].
  - rewrite settled_NDir, sourcesOf_NDir.
    destruct (shouldSkipDir path).
    + split; [intros _ f t []|left; reflexivity].
    + assert (Hall : settledAll m path entries <->
                     (forall f t, In (f, t) (sourcesOfAll path entries) ->
                                  t <= lastModTime m f)).
      { induction IH as [|[name d1] es Hd _ IHes]; simpl.
        - split; [intros _ f t []|trivial].
        - rewrite (Hd (GoStrings.Join path name)), IHes. simpl. split.
          + intros [H1 H2] f t Hin. apply in_app_or in Hin as [Hin|Hin]; eauto.
          + intros H. split; intros f t Hin; apply H; apply in_or_app; auto. }
      rewrite <- Hall. split; [intros [Hs|Ha]; [discriminate|exact Ha]|right; assumption].
  - simpl. split; [intros _ f t []|trivial].
Qed.

Lemma settled_incl m path d path2 d2 :
  incl (sourcesOf path2 d2) (sourcesOf path d) ->
  settled m path d -> settled m path2 d2.
Proof.
  intros Hincl Hset. apply settled_sources. intros f t Hin.
  apply (proj1 (settled_sources m d path) Hset). apply Hincl. exact Hin.
Qed.

(** ** Directories the walk skips *)

Lemma LastIndexSlash_from_noSlash name : forall i last,
  noSlash name = true -> GoStrings.LastIndexSlash_from name i last = last.
Proof.
  induction name as [|c r IH]; intros i last H; simpl in *; [reflexivity|].
  apply andb_true_iff in H as [Hc Hr]. apply negb_true_iff in Hc. rewrite Hc.
  apply IH. exact Hr.
Qed.

Lemma string_append_cons c (r s : string) : String c r +:+ s = String c (r +:+ s).
Proof. reflexivity. Qed.

Lemma string_append_nil (s : string) : "" +:+ s = s.
Proof. reflexivity. Qed.

Lemma LastIndexSlash_from_app dir name : forall i last,
  noSlash name = true ->
  GoStrings.LastIndexSlash_from (dir +:+ String "/" name) i last
  = i + Z.of_nat (String.length dir).
Proof.
  induction dir as [|c r IH]; intros i last H.
  - rewrite string_append_nil. simpl.
    rewrite LastIndexSlash_from_noSlash by exact H. lia.
  - rewrite string_append_cons. cbn [GoStrings.LastIndexSlash_from String.length].
    rewrite IH by exact H. lia.
Qed.

Lemma string_substring_app_r (s1 s2 : string) :
  String.substring (String.length s1) (String.length s2) (s1 +:+ s2) = s2.
Proof.
  induction s1 as [|c r IH].
  - rewrite string_append_nil. simpl.
    induction s2 as [|c r IH]; simpl; [reflexivity|]. rewrite IH. reflexivity.
  - rewrite string_append_cons. simpl. exact IH.
Qed.

Lemma string_length_app (s1 s2 : string) :
  String.length (s1 +:+ s2) = (String.length s1 + String.length s2)%nat.
Proof.
  induction s1 as [|c r IH]; [reflexivity|].
  rewrite string_append_cons. simpl. rewrite IH. reflexivity.
Qed.

(** The last element of a joined path is the name joined on. *)
Lemma Split_app dir name :
  noSlash name = true ->
  snd (GoStrings.Split (dir +:+ String "/" name)) = name.
Proof.
  intros H. unfold GoStrings.Split, GoStrings.LastIndexSlash. cbn [snd].
  rewrite LastIndexSlash_from_app by exact H.
  assert (Hshape : dir +:+ String "/" name = (dir +:+ "/") +:+ name).
  { clear. induction dir as [|c r IH]; [reflexivity|].
    rewrite !string_append_cons, IH. reflexivity. }
  assert (Hlen : String.length (dir +:+ "/") = Datatypes.S (String.length dir)).
  { rewrite string_length_app. simpl. lia. }
  rewrite Hshape.
  replace (Z.to_nat (0 + Z.of_nat (String.length dir) + 1))
    with (String.length (dir +:+ "/")) by lia.
  replace (String.length ((dir +:+ "/") +:+ name) - String.length (dir +:+ "/"))%nat
    with (String.length name) by (rewrite (string_length_app (dir +:+ "/") name); lia).
  apply string_substring_app_r.
Qed.

Lemma Join_shape dir name :
  exists d, GoStrings.Join dir name = d +:+ String "/" name.
Proof.
  unfold GoStrings.Join. destruct (String.eqb dir "/").
  - exists "". reflexivity.
  - exists dir. reflexivity.
Qed.

Lemma app_slash_neq d name s :
  noSlash s = true -> d +:+ String "/" name <> s.
Proof.
  revert s. induction d as [|c r IH]; intros s Hs Heq.
  - rewrite string_append_nil in Heq. subst s. simpl in Hs. discriminate.
  - destruct s as [|c' s']; [discriminate|].
    rewrite string_append_cons in Heq. injection Heq as -> Heq.
    simpl in Hs. apply andb_true_iff in Hs as [_ Hs]. exact (IH s' Hs Heq).
Qed.

(** What [shouldSkipDir] answers on a path the walk builds below its root:
    only the first character of the last element counts. *)
Lemma shouldSkipDir_Join dir name :
  noSlash name = true ->
  shouldSkipDir (GoStrings.Join dir name)
  = GoStrings.HasPrefix name "." || GoStrings.HasPrefix name "_".
Proof.
  intros Hname. destruct (Join_shape dir name) as [d ->].
  unfold shouldSkipDir.
  destruct (String.eqb_spec (d +:+ String "/" name) ".") as [E|_];
    [exfalso; exact (app_slash_neq d name "." eq_refl E)|].
  destruct (String.eqb_spec (d +:+ String "/" name) "vendor") as [E|_];
    [exfalso; exact (app_slash_neq d name "vendor" eq_refl E)|].
  destruct (String.eqb_spec (d +:+ String "/" name) "node_modules") as [E|_];
    [exfalso; exact (app_slash_neq d name "node_modules" eq_refl E)|].
  cbn [orb]. rewrite Split_app by exact Hname.
  destruct (GoStrings.HasPrefix name "." || GoStrings.HasPrefix name "_"); reflexivity.
Qed.

(** C2 (what the code does).  Below the root a directory is skipped on the
    first character of its name alone: one named [vendor] or [node_modules]
    is walked like any other, and in the example project the source under
    [vendor] is recorded, compiled and its artifact written.  The root is
    judged like the others: a root whose name starts with an underscore is
    skipped, and the scan of it finds nothing. *)
Theorem vendor_directories_are_walked :
  (forall dir, shouldSkipDir (GoStrings.Join dir "vendor") = false)
  /\ (forall dir, shouldSkipDir (GoStrings.Join dir "node_modules") = false)
  /\ shouldSkipDir "/proj/vendor" = false
  /\ (let scan := processChanges exampleToolchain plainOS (exampleConfig false false)
                    (RootNode exampleTree) (freshState exampleFS) in
      fst (fst scan) = 3
      /\ dispatched (trace (snd scan))
         = ["/proj/a.templ"; "/proj/b.templ"; "/proj/vendor/lib.templ"]
      /\ fileNameToLastModTime (snd scan) !! "/proj/vendor/lib.templ" = Some 3
      /\ fsys (snd scan) !! "/proj/vendor/lib_templ.go" = Some (IFile "package main"))
  /\ shouldSkipDir "/srv/_site" = true
  /\ (let scan := processChanges exampleToolchain plainOS siteConfig
                    (RootNode siteTree) (freshState siteFS) in
      fst scan = (0, []) /\ dispatched (trace (snd scan)) = []).
Proof.
  split; [|split; [|split; [|split; [|split]]]].
  - intros dir. apply shouldSkipDir_Join. reflexivity.
  - intros dir. apply shouldSkipDir_Join. reflexivity.
  - reflexivity.
  - vm_compute. repeat split; reflexivity.
  - reflexivity.
  - vm_compute. split; reflexivity.
Qed.

(** A directory below the root whose name starts with a dot or an
    underscore is skipped with all it holds: the walk of it is the one call
    of the callback on the directory itself. *)
Lemma hidden_directories_are_skipped tc os cfg dir name entries st :
  noSlash name = true ->
  GoStrings.HasPrefix name "." || GoStrings.HasPrefix name "_" = true ->
  walkDir (visit tc os cfg) (GoStrings.Join dir name) (NDir entries) st
  = (snd (checkCtx st),
     match fst (checkCtx st) with Some e => WalkErr e | None => WalkNil end).
Proof.
  intros Hname Hhidden. rewrite walkDir_NDir. unfold visit.
  destruct (checkCtx st) as [[e|] st0]; [reflexivity|].
  rewrite (shouldSkipDir_Join dir name Hname), Hhidden. reflexivity.
Qed.
(** ** A scan after a scan that was cut short *)

Lemma calm_refl st : calm st st.
Proof. repeat split; auto. Qed.

Lemma calm_trans st1 st2 st3 : calm st1 st2 -> calm st2 st3 -> calm st1 st3.
Proof.
  intros (Hq1 & Hc1 & Hs1 & Hp1) (Hq2 & Hc2 & Hs2 & Hp2).
  split; [eapply quiet_trans; eauto|]. split; [auto|]. split.
  - intros p Hp. rewrite (Hs2 p Hp). apply Hs1. exact Hp.
  - auto.
Qed.

Lemma calm_checkCtx st : calm st (snd (checkCtx st)).
Proof.
  unfold checkCtx, calm, quiet. destruct (ctx st) as [[|n]|] eqn:Hc; simpl;
    (split; [repeat split|]); (split; [intros; congruence|]); split; auto.
Qed.

Lemma resumes_calm F t t' : resumes F t -> calm t t' -> resumes F t'.
Proof.
  intros (Hm & Hc & Hs & Hp) ((Hqm & _ & _) & Hcc & Hcs & Hcp).
  split; [intros f; rewrite Hqm; apply Hm|]. split; [auto|]. split.
  - intros p Hsrc. rewrite (Hcs p Hsrc). apply Hs. exact Hsrc.
  - auto.
Qed.

Lemma resumes_refl st : resumes st st.
Proof. repeat split; auto; lia. Qed.

Lemma present_delete (fs : FS) (f p : string) :
  GoStrings.HasSuffix f "_templ.go" = true ->
  GoStrings.HasSuffix p ".templ" = true ->
  present (delete f fs) p = present fs p.
Proof.
  intros Hf Hp. unfold present.
  rewrite lookup_delete_ne; [reflexivity|].
  intros ->. rewrite (generated_is_not_source _ Hf) in Hp. discriminate.
Qed.

(** What [os.Stat] answers for a path depends on the file system only
    through whether the path is there. *)
Lemma os_Stat_present (os : OS) (fs fs' : FS) (p : string) :
  present fs' p = present fs p -> os_Stat os fs' p = os_Stat os fs p.
Proof.
  unfold present, os_Stat.
  destruct (fs' !! p), (fs !! p); intros H; try discriminate; reflexivity.
Qed.

Section Calm.

Variable tc : Toolchain.
Variable os : OS.
Variable cfg : ScanConfig.

(** On a tree that holds no news the callback is calm. *)
Lemma visit_calm st path d err :
  settled (fileNameToLastModTime st) path d ->
  calm st (fst (visit tc os cfg st path (Some d) err)).
Proof.
  intros Hset. unfold visit. destruct err; [apply calm_refl|].
  pose proof (calm_checkCtx st) as Hc.
  destruct (checkCtx st) as [cerr st0]. simpl in Hc.
  destruct cerr; [exact Hc|].
  destruct (IsDir d && shouldSkipDir path); [exact Hc|].
  destruct (IsDir d); [exact Hc|].
  destruct (negb (keepOrphanedFiles cfg) && GoStrings.HasSuffix path "_templ.go") eqn:Hgen.
  - destruct (os_Stat _ _ _); [|exact Hc].
    unfold os_Remove. destruct (fsys st0 !! path) eqn:Hp; [|exact Hc].
    destruct (removeFails os path); [exact Hc|]. cbn [fst].
    eapply calm_trans; [exact Hc|].
    apply andb_true_iff in Hgen as [_ Hgen].
    split; [|split; [|split]].
    + repeat split. simpl. rewrite !dispatched_app. simpl. rewrite !app_nil_r. reflexivity.
    + auto.
    + intros p Hsrc. simpl. apply present_delete; assumption.
    + intros p. simpl. intros [ino Hi].
      destruct (decide (path = p)) as [->|Hne].
      * rewrite lookup_delete_eq in Hi. discriminate.
      * rewrite lookup_delete_ne in Hi by exact Hne. eauto.
  - destruct (GoStrings.HasSuffix path ".templ") eqn:Hsrc; [|exact Hc].
    destruct d as [[e|mt]| |]; try exact Hc.
    simpl in Hset. specialize (Hset Hsrc).
    pose proof Hc as ((Hm & _) & _). rewrite Hm. unfold After.
    destruct (Z.ltb_spec (lastModTime (fileNameToLastModTime st) path) mt); [lia|].
    exact Hc.
Qed.

Lemma walkDir_calm (d : Node) :
  forall path st,
    settled (fileNameToLastModTime st) path d ->
    calm st (fst (walkDir (visit tc os cfg) path d st)).
Proof.
  induction d as [info|entries IH|e] using Node_nested_ind; intros path st Hset.
  - rewrite walkDir_NFile.
    pose proof (visit_calm st path (NFile info) None Hset) as H.
    destruct (visit tc os cfg st path (Some (NFile info)) None) as [st1 r].
    destruct r; exact H.
  - rewrite walkDir_NDir.
    pose proof (visit_calm st path (NDir entries) None Hset) as H.
    assert (Hnoskip : snd (visit tc os cfg st path (Some (NDir entries)) None) = WalkNil ->
                      shouldSkipDir path = false).
    { unfold visit. destruct (checkCtx st) as [[?|] ?]; [discriminate|].
      simpl. destruct (shouldSkipDir path); [discriminate|reflexivity]. }
    destruct (visit tc os cfg st path (Some (NDir entries)) None) as [st1 r].
    simpl in H, Hnoskip. destruct r; try exact H.
    apply settled_NDir in Hset. destruct Hset as [Hs|Hall];
      [rewrite (Hnoskip eq_refl) in Hs; discriminate|].
    eapply calm_trans; [exact H|].
    destruct H as ((Hm & _) & _). rewrite <- Hm in Hall. clear Hm Hnoskip st.
    revert st1 Hall.
    induction IH as [|[name d1] es Hd _ IHes]; intros st1 Hall; simpl;
      [apply calm_refl|].
    destruct Hall as [H1 H2].
    pose proof (Hd (GoStrings.Join path name) st1 H1) as Hq. simpl in Hq.
    destruct (walkDir (visit tc os cfg) (GoStrings.Join path name) d1 st1) as [st' r'].
    simpl in Hq. destruct r'; try exact Hq.
    eapply calm_trans; [exact Hq|]. apply IHes.
    destruct Hq as ((Hm & _) & _). rewrite Hm. exact H2.
  - rewrite walkDir_NBadDir.
    pose proof (visit_calm st path (NBadDir e) None Hset) as H.
    destruct (visit tc os cfg st path (Some (NBadDir e)) None) as [st1 r].
    simpl in H. destruct r; exact H.
Qed.

End Calm.

Lemma HasSuffix_app (s suffix : string) :
  GoStrings.HasSuffix (s +:+ suffix) suffix = true.
Proof.
  unfold GoStrings.HasSuffix. rewrite string_length_app.
  apply andb_true_iff. split; [apply Nat.leb_le; lia|].
  replace (String.length s + String.length suffix - String.length suffix)%nat
    with (String.length s) by lia.
  rewrite string_substring_app_r. apply String.eqb_refl.
Qed.

Section FailsAgain.

Variables (tc tc2 : Toolchain) (os : OS) (cfg cfg2 : ScanConfig).
Hypothesis Hkeep : keepOrphanedFiles cfg2 = keepOrphanedFiles cfg.

Lemma visit_dir_calm st path d err :
  IsDir d = true -> calm st (fst (visit tc2 os cfg2 st path (Some d) err)).
Proof.
  intros Hd. unfold visit. destruct err; [apply calm_refl|].
  pose proof (calm_checkCtx st) as Hc.
  destruct (checkCtx st) as [cerr st0]. simpl in Hc.
  destruct cerr; [exact Hc|]. rewrite Hd. simpl.
  destruct (shouldSkipDir path); exact Hc.
Qed.

Lemma checkCtx_cancelled st e st0 :
  checkCtx st = (Some e, st0) -> ctx st0 = Some O.
Proof.
  unfold checkCtx. destruct (ctx st) as [[|n]|]; simpl; intros [= <- <-]; reflexivity.
Qed.

Lemma checkCtx_resumes F t :
  ctx F = Some O -> resumes F t ->
  exists e, checkCtx t = (Some e, set_ctx (Some O) t).
Proof.
  intros HF (_ & Hc & _). unfold checkCtx. rewrite (Hc HF). simpl. eauto.
Qed.

Lemma checkCtx_fsys st : fsys (snd (checkCtx st)) = fsys st.
Proof. unfold checkCtx. destruct (ctx_Err (ctx st)). reflexivity. Qed.

(** A call of the callback that ended a scan with an error ends the next
    scan too, if that one comes to it. *)
Lemma visit_fails_again st path d err F e :
  visit tc os cfg st path (Some d) err = (F, WalkErr e) ->
  forall t, resumes F t ->
    exists e', snd (visit tc2 os cfg2 t path (Some d) err) = WalkErr e'
               /\ calm t (fst (visit tc2 os cfg2 t path (Some d) err)).
Proof.
  unfold visit. destruct err as [e0|].
  { intros _ t _. exists e0. split; [reflexivity|apply calm_refl]. }
  destruct (checkCtx st) as [cerr st0] eqn:Hctx.
  intros Hv t Hres.
  pose proof (calm_checkCtx t) as Hcalm.
  pose proof (checkCtx_fsys t) as Hfs.
  destruct cerr as [ce|].
  { injection Hv as <- <-.
    destruct (checkCtx_resumes _ _ (checkCtx_cancelled _ _ _ Hctx) Hres) as [e' He'].
    rewrite He' in Hcalm |- *. simpl in *. eauto. }
  destruct (checkCtx t) as [[ce|] t0]; simpl in Hcalm, Hfs; [eauto|].
  destruct (IsDir d && shouldSkipDir path); [discriminate|].
  destruct (IsDir d); [discriminate|].
  rewrite Hkeep.
  destruct Hres as (_ & _ & Hsrc & Hpath).
  destruct (negb (keepOrphanedFiles cfg) && GoStrings.HasSuffix path "_templ.go").
  - destruct (os_Stat os (fsys st0) _) as [se|] eqn:Hstat; [|discriminate].
    destruct (os_Remove os (fsys st0) path) as [re|fs'] eqn:Hrm; [|discriminate].
    injection Hv as <- <-.
    rewrite Hfs, (os_Stat_present os _ _ _ (Hsrc _ (HasSuffix_app _ _))), Hstat.
    unfold os_Remove in Hrm |- *.
    destruct (fsys t !! path) as [ino|] eqn:Hp; [|simpl; eauto].
    destruct (Hpath path) as [ino' Hino']; [rewrite Hp; eauto|].
    rewrite Hino' in Hrm.
    destruct (removeFails os path); [simpl; eauto|discriminate].
  - destruct (GoStrings.HasSuffix path ".templ"); [|discriminate].
    destruct d as [[ie|mt]| |]; try discriminate; [simpl; eauto|].
    destruct (After mt _); discriminate.
Qed.

Lemma rangeDirs_grows path es st :
  grows st (fst (rangeDirs (visit tc os cfg) path es st)).
Proof.
  revert st. induction es as [|[n d] es IHe]; intros st; simpl; [apply grows_refl|].
  pose proof (walkDir_grows tc os cfg d (GoStrings.Join path n) st) as H.
  destruct (walkDir (visit tc os cfg) (GoStrings.Join path n) d st) as [s r].
  destruct r; simpl in *; try exact H.
  eapply grows_trans; [exact H|apply IHe].
Qed.

Lemma visit_Nil_not_skipped st path d :
  IsDir d = true ->
  snd (visit tc os cfg st path (Some d) None) = WalkNil -> shouldSkipDir path = false.
Proof.
  intros Hd. unfold visit. destruct (checkCtx st) as [[?|] ?]; [discriminate|].
  rewrite Hd. simpl. destruct (shouldSkipDir path); [discriminate|reflexivity].
Qed.

Lemma visit_dir_again t path d :
  IsDir d = true -> shouldSkipDir path = false ->
  (exists e, snd (visit tc2 os cfg2 t path (Some d) None) = WalkErr e)
  \/ snd (visit tc2 os cfg2 t path (Some d) None) = WalkNil.
Proof.
  intros Hd Hs. unfold visit. destruct (checkCtx t) as [[?|] ?]; [left; eauto|].
  rewrite Hd, Hs. simpl. right. reflexivity.
Qed.

(** A walk that was cut short by an error is cut short again, at the same
    place or before it, and finds no change on the way there. *)
Lemma walkDir_fails_again (d : Node) :
  forall path st F e,
    walkDir (visit tc os cfg) path d st = (F, WalkErr e) ->
    forall t, resumes F t ->
      exists e', snd (walkDir (visit tc2 os cfg2) path d t) = WalkErr e'
                 /\ calm t (fst (walkDir (visit tc2 os cfg2) path d t)).
Proof.
  induction d as [info|entries IH|be] using Node_nested_ind; intros path st F e Hw t Hres.
  - rewrite walkDir_NFile in Hw |- *.
    destruct (visit tc os cfg st path (Some (NFile info)) None) as [st1 r] eqn:Hv.
    destruct r; try discriminate. injection Hw as <- <-.
    destruct (visit_fails_again _ _ _ _ _ _ Hv t Hres) as (e' & He' & Hc).
    destruct (visit tc2 os cfg2 t path (Some (NFile info)) None) as [t1 r].
    simpl in *. subst r. eauto.
  - rewrite walkDir_NDir in Hw |- *.
    pose proof (visit_Nil_not_skipped st path (NDir entries) eq_refl) as Hns.
    destruct (visit tc os cfg st path (Some (NDir entries)) None) as [st1 r] eqn:Hv.
    destruct r; try discriminate.
    2:{ injection Hw as <- <-.
        destruct (visit_fails_again _ _ _ _ _ _ Hv t Hres) as (e' & He' & Hc).
        destruct (visit tc2 os cfg2 t path (Some (NDir entries)) None) as [t1 r].
        simpl in *. subst r. eauto. }
    pose proof (visit_dir_again t path (NDir entries) eq_refl (Hns eq_refl)) as Hagain.
    pose proof (visit_dir_calm t path (NDir entries) None eq_refl) as Hc1.
    destruct (visit tc2 os cfg2 t path (Some (NDir entries)) None) as [t1 r].
    simpl in Hagain, Hc1.
    destruct Hagain as [[e' ->]| ->]; [simpl; eauto|].
    pose proof (resumes_calm _ _ _ Hres Hc1) as Hres1.
    assert (Hrange : exists e',
               snd (rangeDirs (visit tc2 os cfg2) path entries t1) = WalkErr e'
               /\ calm t1 (fst (rangeDirs (visit tc2 os cfg2) path entries t1))).
    { clear Hv Hns Hc1 Hres t st. revert st1 t1 Hw Hres1.
      induction IH as [|[name d1] es Hd _ IHes]; intros st1 t1 Hw Hres1; simpl in *;
        [discriminate|].
      pose proof (walkDir_settles tc os cfg d1 (GoStrings.Join path name) st1) as Hset.
      pose proof (walkDir_visit_not_SkipDir tc os cfg d1 (GoStrings.Join path name) st1) as Hnsk.
      destruct (walkDir (visit tc os cfg) (GoStrings.Join path name) d1 st1) as [s' r'] eqn:Hw1.
      simpl in Hset, Hnsk.
      destruct r'; [|contradiction|].
      - (* this entry was walked to its end *)
        assert (Hs : settled (fileNameToLastModTime t1) (GoStrings.Join path name) d1).
        { eapply settled_mono; [|apply Hset; discriminate].
          intros f. destruct Hres1 as (Hm & _).
          pose proof (rangeDirs_grows path es s') as (Hg & _).
          rewrite Hw in Hg. simpl in Hg. specialize (Hg f). specialize (Hm f). lia. }
        pose proof (walkDir_calm tc2 os cfg2 d1 (GoStrings.Join path name) t1 Hs) as Hc.
        pose proof (walkDir_visit_not_SkipDir tc2 os cfg2 d1 (GoStrings.Join path name) t1) as Hn2.
        destruct (walkDir (visit tc2 os cfg2) (GoStrings.Join path name) d1 t1) as [t' r2].
        simpl in Hc, Hn2. destruct r2; [|contradiction|simpl; eauto].
        destruct (IHes s' t' Hw (resumes_calm _ _ _ Hres1 Hc)) as (e' & He' & Hc').
        exists e'. split; [exact He'|]. eapply calm_trans; eauto.
      - (* this entry is where the walk was cut short *)
        injection Hw as <- <-.
        destruct (Hd (GoStrings.Join path name) st1 s' e0 Hw1 t1 Hres1) as (e' & He' & Hc).
        destruct (walkDir (visit tc2 os cfg2) (GoStrings.Join path name) d1 t1) as [t' r2].
        simpl in *. subst r2. eauto. }
    destruct Hrange as (e' & He' & Hc2).
    exists e'. split; [exact He'|]. eapply calm_trans; eauto.
  - rewrite walkDir_NBadDir in Hw |- *.
    pose proof (visit_Nil_not_skipped st path (NBadDir be) eq_refl) as Hns.
    destruct (visit tc os cfg st path (Some (NBadDir be)) None) as [st1 r] eqn:Hv.
    destruct r; try discriminate.
    2:{ injection Hw as <- <-.
        destruct (visit_fails_again _ _ _ _ _ _ Hv t Hres) as (e' & He' & Hc).
        destruct (visit tc2 os cfg2 t path (Some (NBadDir be)) None) as [t1 r].
        simpl in *. subst r. eauto. }
    pose proof (visit_dir_again t path (NBadDir be) eq_refl (Hns eq_refl)) as Hagain.
    pose proof (visit_dir_calm t path (NBadDir be) None eq_refl) as Hc1.
    destruct (visit tc2 os cfg2 t path (Some (NBadDir be)) None) as [t1 r].
    simpl in Hagain, Hc1.
    destruct Hagain as [[e' ->]| ->]; [simpl; eauto|].
    unfold visit at 1. simpl. eauto.
Qed.

End FailsAgain.

Section ScanAgain.

Variables (tc tc2 : Toolchain) (os : OS) (cfg cfg2 : ScanConfig).
Hypothesis Hpath : scan_path cfg2 = scan_path cfg.
Hypothesis Hkeep : keepOrphanedFiles cfg2 = keepOrphanedFiles cfg.

(** A scan taken up where a scan was cut short finds no change. *)
Lemma processChanges_again root st e st2 :
  snd (traverse tc os cfg root st) = Some e ->
  resumes (snd (processChanges tc os cfg root st)) st2 ->
  fst (fst (processChanges tc2 os cfg2 root st2)) = 0
  /\ dispatched (trace (snd (processChanges tc2 os cfg2 root st2)))
     = dispatched (trace st2)
  /\ fileNameToLastModTime (snd (processChanges tc2 os cfg2 root st2))
     = fileNameToLastModTime st2.
Proof.
  unfold processChanges, traverse, WalkDir. rewrite Hpath.
  destruct root as [le|d].
  - intros _ _. unfold visit. simpl. auto.
  - pose proof (walkDir_fails_again tc tc2 os cfg cfg2 Hkeep d (scan_path cfg) (startScan st))
      as Hagain.
    destruct (walkDir (visit tc os cfg) (scan_path cfg) d (startScan st)) as [F r].
    destruct r; simpl; try discriminate. intros _ Hres.
    destruct (Hagain F e0 eq_refl (startScan st2)) as (e' & He' & (Hm & Hc & Hd) & _).
    { destruct Hres as (H1 & H2 & H3 & H4). repeat split; assumption. }
    destruct (walkDir (visit tc2 os cfg2) (scan_path cfg) d (startScan st2)) as [t' r2].
    simpl in *. subst r2. simpl. auto.
Qed.

End ScanAgain.

(** ** The orphan reaper *)

(** What the callback does with a generated artifact it meets, the context
    live.  With retain-orphans set nothing happens to it.  With
    retain-orphans unset: when [os.Stat] of the sibling source path answers
    without an error nothing happens to it; when [os.Stat] answers with an
    error, whichever it is, the artifact is removed, which is reported as a
    warning while the traversal goes on without an error, unless the
    removal fails, which ends the traversal with an error; so the artifact
    goes away exactly when [os.Stat] of its sibling fails and the removal
    succeeds. *)
Lemma orphan_callback
  (tc : Toolchain) (os : OS) (cfg : ScanConfig) (st : State)
  (fileName : string) (info : InfoResult) (c : Ctx) :
  ctx_Err (ctx st) = (None, c) ->
  GoStrings.HasSuffix fileName "_templ.go" = true ->
  let sibling := GoStrings.TrimSuffix fileName "_templ.go" +:+ ".templ" in
  let st' := fst (visit tc os cfg st fileName (Some (NFile info)) None) in
  let r := snd (visit tc os cfg st fileName (Some (NFile info)) None) in
  (keepOrphanedFiles cfg = true ->
   st' = set_ctx c st /\ r = WalkNil)
  /\
  (keepOrphanedFiles cfg = false ->
   (os_Stat os (fsys st) sibling = None -> st' = set_ctx c st /\ r = WalkNil)
   /\
   (os_Stat os (fsys st) sibling <> None ->
    match os_Remove os (fsys st) fileName with
    | inr fs' =>
        fs' = delete fileName (fsys st)
        /\ st' = emit (Log Warning ("Deleted orphaned file " +:+ fileName))
                   (emit (Removed fileName) (set_fsys fs' (set_ctx c st)))
        /\ r = WalkNil
    | inl e =>
        st' = set_ctx c st
        /\ r = WalkErr (GoErrors.Errorf_w "failed to remove file: " e)
    end)
   /\
   (is_Some (fsys st !! fileName) ->
    (fsys st' !! fileName = None
     <-> os_Stat os (fsys st) sibling <> None /\ removeFails os fileName = false))).
Proof.
  intros Hctx Hgen sibling st' r. subst st' r.
  unfold visit, checkCtx. rewrite Hctx. cbn [IsDir andb fsys set_ctx].
  rewrite Hgen, andb_true_r.
  split.
  - intros ->. cbn [negb].
    rewrite (generated_is_not_source _ Hgen). split; reflexivity.
  - intros ->. cbn [negb]. fold sibling.
    split; [|split].
    + intros ->. split; reflexivity.
    + intros Hs. destruct (os_Stat os (fsys st) sibling) as [se|]; [|congruence].
      unfold os_Remove.
      destruct (fsys st !! fileName) eqn:Hf.
      * destruct (removeFails os fileName); cbn [fst snd]; repeat split.
      * cbn [fst snd]. repeat split.
    + intros [i Hi]. destruct (os_Stat os (fsys st) sibling) as [se|] eqn:Hs.
      * unfold os_Remove. rewrite Hi.
        destruct (removeFails os fileName); cbn [fst fsys set_ctx emit set_fsys].
        -- rewrite Hi. split; [discriminate|intros [_ ?]; discriminate].
        -- rewrite lookup_delete_eq. split; [intros _; split; [discriminate|reflexivity]|auto].
      * cbn [fst fsys set_ctx]. rewrite Hi.
        split; [discriminate|intros [? _]; congruence].
Qed.

(** *** An error of the callback at the scan *)

Section CallbackError.

Variable tc : Toolchain.
Variable os : OS.
Variable cfg : ScanConfig.

Lemma rangeDirs_visit_app path before rest :
  forall st1 st2,
    rangeDirs (visit tc os cfg) path before st1 = (st2, WalkNil) ->
    rangeDirs (visit tc os cfg) path (before ++ rest) st1
    = rangeDirs (visit tc os cfg) path rest st2.
Proof.
  induction before as [|[name d1] before IH]; intros st1 st2; simpl.
  - intros [= <-]. reflexivity.
  - pose proof (walkDir_visit_not_SkipDir tc os cfg d1 (GoStrings.Join path name) st1)
      as Hns.
    destruct (walkDir (visit tc os cfg) (GoStrings.Join path name) d1 st1) as [s r].
    simpl in Hns. destruct r; [apply IH|contradiction|discriminate].
Qed.

(** An error the callback returns for an entry is what the walk of the
    entry returns. *)
Lemma walkDir_callback_error path d st st' e :
  visit tc os cfg st path (Some d) None = (st', WalkErr e) ->
  walkDir (visit tc os cfg) path d st = (st', WalkErr e).
Proof.
  intros Hv. destruct d.
  - rewrite walkDir_NFile, Hv. reflexivity.
  - rewrite walkDir_NDir, Hv. reflexivity.
  - rewrite walkDir_NBadDir, Hv. reflexivity.
Qed.

(** The walk does not go on after an error of the callback, and returns
    it. *)
Lemma comesTo_error path d st path' d' st' st'' e :
  comesTo tc os cfg path d st path' d' st' ->
  visit tc os cfg st' path' (Some d') None = (st'', WalkErr e) ->
  walkDir (visit tc os cfg) path d st = (st'', WalkErr e).
Proof.
  induction 1 as [path d st|path before name d1 after st st1 st2 path' d' st' Hv Hr _ IH];
    intros Herr.
  - apply walkDir_callback_error. exact Herr.
  - rewrite walkDir_NDir, Hv, (rangeDirs_visit_app _ _ _ _ _ Hr). simpl.
    rewrite (IH Herr). reflexivity.
Qed.

(** An error the callback returns for an entry the traversal comes to is
    the error the traversal ends with, and the last of the errors the scan
    returns. *)
Lemma callback_error_is_a_scan_error d st0 path' d' st' e :
  comesTo tc os cfg (scan_path cfg) d (startScan st0) path' d' st' ->
  snd (visit tc os cfg st' path' (Some d') None) = WalkErr e ->
  snd (traverse tc os cfg (RootNode d) st0) = Some e
  /\ exists es, snd (fst (processChanges tc os cfg (RootNode d) st0)) = es ++ [e].
Proof.
  intros Hto Herr.
  assert (Htr : snd (traverse tc os cfg (RootNode d) st0) = Some e).
  { unfold traverse, WalkDir.
    destruct (visit tc os cfg st' path' (Some d') None) as [st'' r] eqn:Hv.
    simpl in Herr. subst r.
    rewrite (comesTo_error _ _ _ _ _ _ _ _ Hto Hv). reflexivity. }
  split; [exact Htr|].
  exact (processChanges_reports_traversal_error tc os cfg (RootNode d) st0 e Htr).
Qed.

(** A removal that fails is reported as an error of the scan: when the
    traversal comes to an artifact with the context live, orphaned
    artifacts are not kept, [os.Stat] of the sibling source path fails and
    [os.Remove] of the artifact fails, the traversal ends there, and the
    error of the removal, wrapped, is the last of the errors the scan
    returns. *)
Lemma failed_removal_is_a_scan_error d st0 fileName info st c e :
  comesTo tc os cfg (scan_path cfg) d (startScan st0) fileName (NFile info) st ->
  ctx_Err (ctx st) = (None, c) ->
  GoStrings.HasSuffix fileName "_templ.go" = true ->
  keepOrphanedFiles cfg = false ->
  os_Stat os (fsys st) (GoStrings.TrimSuffix fileName "_templ.go" +:+ ".templ") <> None ->
  os_Remove os (fsys st) fileName = inl e ->
  snd (traverse tc os cfg (RootNode d) st0)
    = Some (GoErrors.Errorf_w "failed to remove file: " e)
  /\ exists es,
       snd (fst (processChanges tc os cfg (RootNode d) st0))
       = es ++ [GoErrors.Errorf_w "failed to remove file: " e].
Proof.
  intros Hto Hctx Hgen Hkeep Hstat Hrm.
  apply (callback_error_is_a_scan_error d st0 fileName (NFile info) st _ Hto).
  destruct (orphan_callback tc os cfg st fileName info c Hctx Hgen) as [_ Hunset].
  destruct (Hunset Hkeep) as (_ & Hfail & _).
  specialize (Hfail Hstat). rewrite Hrm in Hfail.
  destruct Hfail as (_ & Hr). exact Hr.
Qed.

End CallbackError.

(** The example project on a system that does not let the orphaned
    artifact go: the traversal comes to it after the three entries before
    it, the removal fails, and the scan returns that failure after the
    error of the template that does not parse. *)
Lemma failed_removal_example :
  let cfg := exampleConfig false false in
  let scan := processChanges exampleToolchain stubbornOrphanOS cfg
                (RootNode exampleTree) (freshState exampleFS) in
  (exists st,
     comesTo exampleToolchain stubbornOrphanOS cfg "/proj" exampleTree
             (startScan (freshState exampleFS))
             "/proj/old_templ.go" (NFile (InfoOk 1)) st)
  /\ snd (fst scan)
     = [wrapError "/proj/b.templ parsing error: " (errorString "unexpected token");
        wrapError "failed to remove file: "
          (errorString "remove /proj/old_templ.go: operation not permitted")]
  /\ is_Some (fsys (snd scan) !! "/proj/old_templ.go").
Proof.
  intros cfg scan. split; [|split].
  - eexists.
    change exampleTree
      with (NDir ([("a.templ", NFile (InfoOk 5));
                   ("a_templ.go", NFile (InfoOk 4));
                   ("b.templ", NFile (InfoOk 7))]
                  ++ ("old_templ.go", NFile (InfoOk 1))
                     :: [("vendor", NDir [("lib.templ", NFile (InfoOk 3))])])).
    eapply comesTo_entry; [vm_compute; reflexivity|vm_compute; reflexivity|].
    apply comesTo_here.
  - vm_compute. reflexivity.
  - vm_compute. eauto.
Qed.

(** C5 (what the code does).  A project of one template, [/proj/a.templ],
    and its artifact, scanned with retain-orphans unset in a state that has
    the template at its modification time.  The template is there, and
    [os.Stat] of it fails with an error that is not the error of a missing
    file.  The scan takes the error for a missing source: it removes the
    artifact, with the warning of an orphaned file, and returns no error,
    while the template is where it was. *)
Theorem artifact_is_removed_beside_its_source :
  let scan := processChanges exampleToolchain unreadableSourceOS
                (exampleConfig false false) (RootNode pairTree) pairState in
  fsys pairState !! "/proj/a.templ" = Some (IFile "templ a")
  /\ fsys pairState !! "/proj/a_templ.go" = Some (IFile "package a")
  /\ os_Stat unreadableSourceOS (fsys pairState) "/proj/a.templ"
     = Some (errorString "stat /proj/a.templ: input/output error")
  /\ fst scan = (0, [])
  /\ trace (snd scan)
     = [Removed "/proj/a_templ.go";
        Log Warning "Deleted orphaned file /proj/a_templ.go"]
  /\ fsys (snd scan) !! "/proj/a_templ.go" = None
  /\ fsys (snd scan) !! "/proj/a.templ" = Some (IFile "templ a").
Proof. vm_compute. repeat split. Qed.

(** ** The change detector and the map of modification times *)


Lemma runLoop_advances host args p rounds :
  forall l st f,
    lastModTime (fileNameToLastModTime st) f
    <= lastModTime (fileNameToLastModTime (snd (runLoop host args p rounds l st))) f.
Proof.
  induction rounds as [|r rounds IH]; intros l st f; simpl.
  - destruct (negb (negb (firstRunComplete l) || Watch args)); simpl; lia.
  - destruct (negb (negb (firstRunComplete l) || Watch args)); [simpl; lia|].
    match goal with |- context [processChanges ?a ?b ?c ?d ?e] =>
      pose proof (processChanges_advances a b c d e f) as Hp;
      destruct (processChanges a b c d e) as [[changes es] st1] end.
    simpl in Hp.
    destruct (loopBody host args p r l changes es) as [evs [out|l']]; [simpl; exact Hp|].
    specialize (IH l' st1 f).
    destruct (runLoop host args p rounds l' st1) as [[evs' out] st'].
    simpl in *. lia.
Qed.

Lemma runCmd_advances host args rounds st f :
  lastModTime (fileNameToLastModTime st) f
  <= lastModTime (fileNameToLastModTime (snd (runCmd host args rounds st))) f.
Proof.
  unfold runCmd.
  destruct (Watch args && negb (String.eqb (FileName args) "")); [simpl; lia|].
  destruct (negb (String.eqb (FileName args) "")).
  - match goal with |- context [processSingleFile ?a ?b ?c ?d ?e ?g ?h] =>
      pose proof (frames_processSingleFile a b c d e g h) as (Hm & _);
      destruct (processSingleFile a b c d e g h) as [err st1] end.
    simpl in *. rewrite Hm. lia.
  - destruct (if String.eqb (Proxy args) "" then None else url_Parse host (Proxy args));
      [simpl; lia|].
    destruct (if path_IsAbs host (Path args) then _ else _); [simpl; lia|].
    apply runLoop_advances.
Qed.

(** C6.  (1) A source file whose modification time is not above its entry
    in the map is left as it is: the callback changes nothing but the count
    of looks at the context, so no time is recorded, nothing is counted and
    no worker is started.  (2) After a scan whose traversal ran to its end,
    a second scan from the map the first one left finds zero changed files
    and starts no worker, when the tree it walks holds no source file, at
    no modification time, that the first tree did not hold: the same tree,
    or one that differs in other files only; whatever else has changed.
    (3) After a scan whose traversal was cut short by an error, a second
    scan of the same tree on the same system, with the same setting for
    orphaned artifacts, taken up in the state the first one left (or in any
    state that resumes it), finds zero changed files and starts no worker.
    (4) No entry of the map ever goes back: not in a scan, and not in a
    whole run of the command. *)
Theorem change_detector_is_idempotent_and_monotone :
  (forall tc os cfg st fileName modTime,
     GoStrings.HasSuffix fileName ".templ" = true ->
     modTime <= lastModTime (fileNameToLastModTime st) fileName ->
     fst (visit tc os cfg st fileName (Some (NFile (InfoOk modTime))) None)
       = snd (checkCtx st)
     /\ snd (checkCtx st) = set_ctx (snd (ctx_Err (ctx st))) st)
  /\
  (forall tc os cfg d st,
     snd (traverse tc os cfg (RootNode d) st) = None ->
     forall tc2 os2 cfg2 d2 st2,
       scan_path cfg2 = scan_path cfg ->
       fileNameToLastModTime st2
         = fileNameToLastModTime (snd (processChanges tc os cfg (RootNode d) st)) ->
       incl (sourcesOf (scan_path cfg) d2) (sourcesOf (scan_path cfg) d) ->
       fst (fst (processChanges tc2 os2 cfg2 (RootNode d2) st2)) = 0
       /\ dispatched (trace (snd (processChanges tc2 os2 cfg2 (RootNode d2) st2)))
          = dispatched (trace st2)
       /\ fileNameToLastModTime (snd (processChanges tc2 os2 cfg2 (RootNode d2) st2))
          = fileNameToLastModTime st2)
  /\
  (forall tc os cfg root st e,
     snd (traverse tc os cfg root st) = Some e ->
     forall tc2 cfg2 st2,
       scan_path cfg2 = scan_path cfg ->
       keepOrphanedFiles cfg2 = keepOrphanedFiles cfg ->
       resumes (snd (processChanges tc os cfg root st)) st2 ->
       fst (fst (processChanges tc2 os cfg2 root st2)) = 0
       /\ dispatched (trace (snd (processChanges tc2 os cfg2 root st2)))
          = dispatched (trace st2)
       /\ fileNameToLastModTime (snd (processChanges tc2 os cfg2 root st2))
          = fileNameToLastModTime st2)
  /\
  (forall tc os cfg root st f,
     lastModTime (fileNameToLastModTime st) f
     <= lastModTime (fileNameToLastModTime (snd (processChanges tc os cfg root st))) f)
  /\
  (forall host args rounds st f,
     lastModTime (fileNameToLastModTime st) f
     <= lastModTime (fileNameToLastModTime (snd (runCmd host args rounds st))) f).
Proof.
  split; [|split; [|split; [|split]]].
  - intros tc os cfg st fileName modTime Hsrc Hold.
    rewrite (visit_unchanged tc os cfg st fileName modTime Hsrc Hold).
    split; [reflexivity|].
    unfold checkCtx. destruct (ctx_Err (ctx st)). reflexivity.
  - intros tc os cfg d st Hok tc2 os2 cfg2 d2 st2 Hpath Hmap Hincl.
    apply processChanges_quiet. rewrite Hmap, Hpath.
    apply (settled_incl _ (scan_path cfg) d _ _ Hincl).
    pose proof (traverse_settles tc os cfg d st Hok) as Hset.
    unfold processChanges. destruct (traverse tc os cfg (RootNode d) st) as [st1 err].
    simpl in Hok. subst err. exact Hset.
  - intros tc os cfg root st e Hcut tc2 cfg2 st2 Hpath Hkeep Hres.
    exact (processChanges_again tc tc2 os cfg cfg2 Hpath Hkeep root st e st2 Hcut Hres).
  - apply processChanges_advances.
  - apply runCmd_advances.
Qed.


(** ** The per-file pipeline and the sourcemap visualisation *)

Section Visualisation.

Variable tc : Toolchain.
Variable os : OS.

(** The visualisation step, case by case, the context live. *)
Lemma visualisation_source_unreadable templ go sm st c e :
  ctx_Err (ctx st) = (None, c) ->
  os_ReadFile os (fsys st) templ = inl e ->
  generateSourceMapVisualisation tc os templ go sm st = (Some e, set_ctx c st).
Proof.
  intros Hctx Hr. unfold generateSourceMapVisualisation, checkCtx.
  rewrite Hctx. cbn [fsys set_ctx]. rewrite Hr. reflexivity.
Qed.

(** The slip: the second test returns the error of the first read. *)
Lemma visualisation_artifact_unreadable templ go sm st c data e :
  ctx_Err (ctx st) = (None, c) ->
  os_ReadFile os (fsys st) templ = inr data ->
  os_ReadFile os (fsys st) go = inl e ->
  generateSourceMapVisualisation tc os templ go sm st = (None, set_ctx c st).
Proof.
  intros Hctx Hr Hg. unfold generateSourceMapVisualisation, checkCtx.
  rewrite Hctx. cbn [fsys set_ctx]. rewrite Hr, Hg. reflexivity.
Qed.

Lemma visualisation_create_fails templ go sm st c data1 data2 e :
  ctx_Err (ctx st) = (None, c) ->
  os_ReadFile os (fsys st) templ = inr data1 ->
  os_ReadFile os (fsys st) go = inr data2 ->
  os_Create os (fsys st)
    (GoStrings.TrimSuffix templ ".templ" +:+ "_templ_sourcemap.html") = inl e ->
  generateSourceMapVisualisation tc os templ go sm st
  = (Some (GoErrors.Errorf_w (templ +:+ " sourcemap visualisation error: ") e),
     set_ctx c st).
Proof.
  intros Hctx Hr Hg Hc. unfold generateSourceMapVisualisation, checkCtx.
  rewrite Hctx. cbn [fsys set_ctx]. rewrite Hr, Hg, Hc. reflexivity.
Qed.

Lemma visualisation_render_fails templ go sm st c data1 data2 fs1 :
  ctx_Err (ctx st) = (None, c) ->
  os_ReadFile os (fsys st) templ = inr data1 ->
  os_ReadFile os (fsys st) go = inr data2 ->
  os_Create os (fsys st)
    (GoStrings.TrimSuffix templ ".templ" +:+ "_templ_sourcemap.html") = inr fs1 ->
  fst (generateSourceMapVisualisation tc os templ go sm st)
  = snd (visualize_Render tc templ data1 data2 sm).
Proof.
  intros Hctx Hr Hg Hc. unfold generateSourceMapVisualisation, checkCtx.
  rewrite Hctx. cbn [fsys set_ctx]. rewrite Hr, Hg, Hc.
  destruct (visualize_Render tc templ data1 data2 sm). reflexivity.
Qed.

(** Whatever the visualisation step does, a file other than the
    visualisation itself is left as it was. *)
Lemma visualisation_keeps_files templ go sm st p :
  p <> GoStrings.TrimSuffix templ ".templ" +:+ "_templ_sourcemap.html" ->
  fsys (snd (generateSourceMapVisualisation tc os templ go sm st)) !! p = fsys st !! p.
Proof.
  intros Hp. unfold generateSourceMapVisualisation, checkCtx.
  destruct (ctx_Err (ctx st)) as [[e|] c]; [reflexivity|]. cbn [fsys set_ctx].
  destruct (os_ReadFile os (fsys st) templ); [reflexivity|].
  destruct (os_ReadFile os (fsys st) go); [reflexivity|].
  unfold os_Create.
  destruct (fsys st !! _) as [[|]|]; try reflexivity;
    destruct (createFails os _); try reflexivity;
    destruct (visualize_Render tc _ _ _ _); cbn [snd fsys emit set_fsys];
    rewrite !lookup_insert_ne by congruence; reflexivity.
Qed.

End Visualisation.

(** C3 (what the code does).  Visualisation requested, the artifact of
    [/proj/a.templ] written but not readable: the pipeline returns no
    error, no visualisation is made, the run of the file is reported as a
    success; the artifact written stays on disk. *)
Theorem unreadable_artifact_is_not_reported :
  let st := freshState exampleFS in
  let run := generate exampleToolchain writeOnlyArtifactOS "/proj" "/proj/a.templ"
                      true [] st in
  let st' := snd run in
  fst run = ([], None)
  /\ fsys st' !! "/proj/a_templ.go" = Some (IFile "package main")
  /\ (exists e, os_ReadFile writeOnlyArtifactOS (fsys st') "/proj/a_templ.go" = inl e)
  /\ fsys st' !! "/proj/a_templ_sourcemap.html" = None
  /\ (let whole := processSingleFile exampleToolchain writeOnlyArtifactOS "/proj"
                     "/proj/a.templ" true [] st in
      fst whole = None
      /\ trace (snd whole) = [Wrote "/proj/a_templ.go";
                              Log Success "Generated code for /proj/a.templ"]).
Proof.
  vm_compute. repeat split; try reflexivity. eexists. reflexivity.
Qed.

(** ** The worker pool *)

Lemma count_nil f : count f [] = 0.
Proof. reflexivity. Qed.

Lemma count_cons f w ws : count f (w :: ws) = b2z (f w) + count f ws.
Proof. unfold count. simpl. destruct (f w); simpl; lia. Qed.

Lemma count_app f ws1 ws2 : count f (ws1 ++ ws2) = count f ws1 + count f ws2.
Proof.
  induction ws1 as [|w ws IH]; simpl; [rewrite count_nil; lia|].
  rewrite !count_cons, IH. lia.
Qed.

Lemma count_bounds f ws : 0 <= count f ws <= Z.of_nat (List.length ws).
Proof.
  induction ws as [|w ws IH]; [unfold count; simpl; lia|].
  rewrite count_cons. simpl List.length. unfold b2z. destruct (f w); lia.
Qed.

Lemma count_insert f (ws : list WorkerAt) i w w' :
  ws !! i = Some w ->
  count f (<[i := w']> ws) = count f ws - b2z (f w) + b2z (f w').
Proof.
  revert i. induction ws as [|x ws IH]; intros [|i] H; try discriminate.
  - injection H as ->. simpl. rewrite !count_cons. lia.
  - simpl in H |- *. rewrite !count_cons, (IH i H). lia.
Qed.

Lemma count_delete f (ws : list WorkerAt) i w :
  ws !! i = Some w ->
  count f (delete i ws) = count f ws - b2z (f w).
Proof.
  revert i. induction ws as [|x ws IH]; intros [|i] H; try discriminate.
  - injection H as ->. simpl. rewrite count_cons. lia.
  - simpl in H |- *. rewrite !count_cons, (IH i H). lia.
Qed.

Lemma length_delete_Some (ws : list WorkerAt) i w :
  ws !! i = Some w ->
  Z.of_nat (List.length (delete i ws)) = Z.of_nat (List.length ws) - 1.
Proof.
  revert i. induction ws as [|x ws IH]; intros [|i] H; try discriminate.
  - simpl. lia.
  - simpl in H |- *. specialize (IH i H). lia.
Qed.

Lemma compiling_le_slots ws : count isCompiling ws <= count holdsSlot ws.
Proof.
  induction ws as [|w ws IH]; [rewrite !count_nil; lia|].
  rewrite !count_cons. destruct w; simpl; lia.
Qed.

Lemma startPool_invariant W changed : 0 <= W -> poolInvariant (startPool W changed).
Proof.
  intros HW. unfold poolInvariant, startPool, count. simpl.
  repeat split; try lia; try discriminate.
Qed.

Lemma lookup_Some_length (ws : list WorkerAt) i w :
  ws !! i = Some w -> 0 < Z.of_nat (List.length ws).
Proof. destruct ws; [destruct i; discriminate|simpl; lia]. Qed.

Lemma step_invariant s p p' :
  poolInvariant p -> step s p = Some p' -> poolInvariant p'.
Proof.
  intros (Hsem & Hcap & Hwg & Hret) Hstep. unfold poolInvariant.
  destruct s; simpl in Hstep.
  - destruct (walker p) as [[|f todo]| | | |] eqn:Hw; try discriminate.
    destruct (Z.ltb_spec (sem p) (capacity p)); [|discriminate].
    injection Hstep as <-. simpl in *. repeat split; try lia; try discriminate.
  - destruct (walker p) eqn:Hw; try discriminate.
    injection Hstep as <-. simpl in *. repeat split; try lia; try discriminate.
  - destruct (walker p) eqn:Hw; try discriminate.
    injection Hstep as <-. simpl in *.
    rewrite count_app, count_cons, count_nil, length_app. simpl.
    repeat split; try lia; try discriminate.
  - destruct (walker p) eqn:Hw; try discriminate.
    injection Hstep as <-. simpl in *. repeat split; try lia; try discriminate.
  - destruct (workers p !! i) as [[f|f|f]|] eqn:Hi; try discriminate.
    injection Hstep as <-. simpl.
    rewrite (count_insert _ _ _ _ _ Hi), length_insert. simpl.
    repeat split; try lia. exact Hret.
  - destruct (workers p !! i) as [[f|f|f]|] eqn:Hi; try discriminate.
    destruct (Z.ltb_spec 0 (sem p)); [|discriminate].
    injection Hstep as <-. simpl.
    rewrite (count_insert _ _ _ _ _ Hi), length_insert. simpl.
    repeat split; try lia. exact Hret.
  - destruct (workers p !! i) as [[f|f|f]|] eqn:Hi; try discriminate.
    injection Hstep as <-. simpl.
    rewrite (count_delete _ _ _ _ Hi), (length_delete_Some _ _ _ Hi). simpl.
    repeat split; try lia.
    intros Hw. specialize (Hret Hw). rewrite Hw in Hwg. simpl in Hwg.
    pose proof (lookup_Some_length _ _ _ Hi). lia.
  - destruct (walker p) eqn:Hw; try discriminate.
    destruct (Z.eqb_spec (wg p) 0); [|discriminate].
    injection Hstep as <-. simpl in *. repeat split; try lia.
Qed.

Lemma exec_invariant steps : forall p p',
  poolInvariant p -> exec steps p = Some p' -> poolInvariant p'.
Proof.
  induction steps as [|s steps IH]; intros p p' Hinv Hexec; simpl in Hexec.
  - injection Hexec as <-. exact Hinv.
  - destruct (step s p) as [p1|] eqn:Hs; [|discriminate].
    eapply IH; [eapply step_invariant; eauto|exact Hexec].
Qed.

Lemma step_capacity s p p' : step s p = Some p' -> capacity p' = capacity p.
Proof.
  destruct s; simpl; intros H;
    repeat match type of H with
           | context [match ?x with _ => _ end] => destruct x; try discriminate
           end;
    injection H as <-; reflexivity.
Qed.

Lemma exec_capacity steps : forall p p',
  exec steps p = Some p' -> capacity p' = capacity p.
Proof.
  induction steps as [|s steps IH]; intros p p' Hexec; simpl in Hexec.
  - injection Hexec as <-. reflexivity.
  - destruct (step s p) as [p1|] eqn:Hs; [|discriminate].
    rewrite (IH _ _ Hexec). eapply step_capacity; eauto.
Qed.

(** C7.  Whatever the schedule, in a pool of [W >= 1] slots and for any
    list of changed files: at every moment at most [W] calls of
    [processSingleFile] are in progress, and once [processChanges] has
    returned from [wg.Wait()] no worker is left: each one it started has
    ended. *)
Theorem worker_pool_is_bounded
  (W : Z) (changed : list string) (steps : list Step) (p : Pool) :
  1 <= W ->
  exec steps (startPool W changed) = Some p ->
  compiling p <= W
  /\ (walker p = ScanReturned -> workers p = [] /\ sem p = 0 /\ wg p = 0).
Proof.
  intros HW Hexec.
  pose proof (exec_invariant steps _ _ (startPool_invariant W changed ltac:(lia)) Hexec)
    as (Hsem & Hcap & Hwg & Hret).
  pose proof (exec_capacity steps _ _ Hexec) as Hc. simpl in Hc.
  split.
  - pose proof (compiling_le_slots (workers p)) as Hle.
    change (compiling p) with (count isCompiling (workers p)).
    assert (0 <= walkerSlot (walker p)) by (destruct (walker p); simpl; lia).
    lia.
  - intros Hw. specialize (Hret Hw). rewrite Hw in Hsem, Hwg. simpl in Hsem, Hwg.
    assert (Hnil : workers p = []).
    { destruct (workers p); [reflexivity|simpl in Hwg; lia]. }
    rewrite Hnil in Hsem. rewrite count_nil in Hsem.
    repeat split; [exact Hnil|lia|exact Hret].
Qed.

(** The pool never stops short of the end: as long as [processChanges] has
    not returned, some goroutine can take a step. *)
Lemma worker_pool_progress (W : Z) (changed : list string) (steps : list Step) (p : Pool) :
  1 <= W ->
  exec steps (startPool W changed) = Some p ->
  walker p <> ScanReturned ->
  exists s p', step s p = Some p'.
Proof.
  intros HW Hexec Hnot.
  pose proof (exec_invariant steps _ _ (startPool_invariant W changed ltac:(lia)) Hexec)
    as (Hsem & Hcap & Hwg & Hret).
  pose proof (exec_capacity steps _ _ Hexec) as Hc. simpl in Hc.
  assert (Hworker : forall w ws, workers p = w :: ws -> exists s p', step s p = Some p').
  { intros w ws Hws. destruct w as [f|f|f].
    - exists (WorkerReturns 0). simpl. rewrite Hws. simpl. eauto.
    - exists (ReceiveFromSem 0). simpl. rewrite Hws. simpl.
      assert (0 < sem p).
      { rewrite Hsem, Hws, count_cons. simpl.
        pose proof (count_bounds holdsSlot ws).
        assert (0 <= walkerSlot (walker p)) by (destruct (walker p); simpl; lia).
        lia. }
      destruct (Z.ltb_spec 0 (sem p)); [eauto|lia].
    - exists (WgDone 0). simpl. rewrite Hws. simpl. eauto. }
  destruct (walker p) as [[|f todo]|f todo|f todo| |] eqn:Hw.
  - exists LeaveWalk. simpl. rewrite Hw. eauto.
  - destruct (Z.ltb_spec (sem p) (capacity p)) as [Hlt|Hge].
    + exists SendOnSem. simpl. rewrite Hw.
      destruct (Z.ltb_spec (sem p) (capacity p)); [eauto|lia].
    + destruct (workers p) as [|w ws] eqn:Hws; [|eapply Hworker; reflexivity].
      rewrite count_nil in Hsem. simpl in Hsem. lia.
  - exists WgAdd. simpl. rewrite Hw. eauto.
  - exists GoWorker. simpl. rewrite Hw. eauto.
  - destruct (workers p) as [|w ws] eqn:Hws; [|eapply Hworker; reflexivity].
    exists WgWait. simpl. rewrite Hw. simpl in Hwg.
    destruct (Z.eqb_spec (wg p) 0); [eauto|lia].
  - contradiction.
Qed.

Lemma sumRank_nonneg ws : 0 <= sumRank ws.
Proof. induction ws as [|w ws IH]; simpl; [lia|]. destruct w; simpl; lia. Qed.

Lemma sumRank_app ws1 ws2 : sumRank (ws1 ++ ws2) = sumRank ws1 + sumRank ws2.
Proof. induction ws1 as [|w ws IH]; simpl; [lia|]. rewrite IH. lia. Qed.

Lemma sumRank_insert (ws : list WorkerAt) i w w' :
  ws !! i = Some w ->
  sumRank (<[i := w']> ws) = sumRank ws - workerRank w + workerRank w'.
Proof.
  revert i. induction ws as [|x ws IH]; intros [|i] H; try discriminate.
  - injection H as ->. simpl. lia.
  - simpl in H |- *. rewrite (IH i H). lia.
Qed.

Lemma sumRank_delete (ws : list WorkerAt) i w :
  ws !! i = Some w ->
  sumRank (delete i ws) = sumRank ws - workerRank w.
Proof.
  revert i. induction ws as [|x ws IH]; intros [|i] H; try discriminate.
  - injection H as ->. simpl. lia.
  - simpl in H |- *. rewrite (IH i H). lia.
Qed.

Lemma rank_nonneg p : 0 <= rank p.
Proof.
  unfold rank. pose proof (sumRank_nonneg (workers p)).
  destruct (walker p); simpl; lia.
Qed.

(** Every step brings the end nearer. *)
Lemma step_rank s p p' : step s p = Some p' -> rank p' < rank p.
Proof.
  intros Hstep. unfold rank. destruct s; simpl in Hstep.
  - destruct (walker p) as [[|f todo]| | | |] eqn:Hw; try discriminate.
    destruct (sem p <? capacity p); [|discriminate].
    injection Hstep as <-. simpl. lia.
  - destruct (walker p) eqn:Hw; try discriminate.
    injection Hstep as <-. simpl. lia.
  - destruct (walker p) eqn:Hw; try discriminate.
    injection Hstep as <-. simpl. rewrite sumRank_app. simpl. lia.
  - destruct (walker p) eqn:Hw; try discriminate.
    injection Hstep as <-. simpl. lia.
  - destruct (workers p !! i) as [[f|f|f]|] eqn:Hi; try discriminate.
    injection Hstep as <-. simpl. rewrite (sumRank_insert _ _ _ _ Hi). simpl. lia.
  - destruct (workers p !! i) as [[f|f|f]|] eqn:Hi; try discriminate.
    destruct (0 <? sem p); [|discriminate].
    injection Hstep as <-. simpl. rewrite (sumRank_insert _ _ _ _ Hi). simpl. lia.
  - destruct (workers p !! i) as [[f|f|f]|] eqn:Hi; try discriminate.
    injection Hstep as <-. simpl. rewrite (sumRank_delete _ _ _ Hi). simpl. lia.
  - destruct (walker p) eqn:Hw; try discriminate.
    destruct (wg p =? 0); [|discriminate].
    injection Hstep as <-. simpl. lia.
Qed.

(** No schedule of a scan is longer than six steps for each changed file
    and two: with [worker_pool_progress], every scan comes to its end. *)
Lemma worker_pool_terminates (W : Z) (changed : list string) (steps : list Step) (p : Pool) :
  exec steps (startPool W changed) = Some p ->
  Z.of_nat (List.length steps) <= 6 * Z.of_nat (List.length changed) + 2.
Proof.
  assert (Hgen : forall steps p0 p1,
            exec steps p0 = Some p1 ->
            Z.of_nat (List.length steps) + rank p1 <= rank p0).
  { clear. induction steps as [|s steps IH]; intros p0 p1 Hexec; simpl in Hexec.
    - injection Hexec as <-. simpl. lia.
    - destruct (step s p0) as [p'|] eqn:Hs; [|discriminate].
      pose proof (step_rank _ _ _ Hs). specialize (IH _ _ Hexec).
      simpl List.length. lia. }
  intros Hexec. specialize (Hgen _ _ _ Hexec).
  pose proof (rank_nonneg p).
  assert (Hstart : rank (startPool W changed) = 6 * Z.of_nat (List.length changed) + 2)
    by (unfold rank, startPool; simpl; lia).
  lia.
Qed.

(** The execution in which each worker has ended before the traversal goes
    on is one of the executions of the pool, whatever its size. *)
Lemma sequential_schedule_is_allowed (W : Z) (changed : list string) :
  1 <= W ->
  exec (sequentialSchedule changed) (startPool W changed)
  = Some (mkPool W 0 0 ScanReturned [] changed).
Proof.
  intros HW.
  assert (Hgen : forall changed fin,
            exec (sequentialSchedule changed) (mkPool W 0 0 (Traversing changed) [] fin)
            = Some (mkPool W 0 0 ScanReturned [] (fin ++ changed))).
  { clear changed. induction changed as [|f changed IH]; intros fin.
    - simpl. rewrite app_nil_r. reflexivity.
    - cbn [sequentialSchedule app exec step walker sem capacity].
      destruct (Z.ltb_spec 0 W); [|lia].
      cbn [exec step walker workers sem wg capacity finished lookup list_lookup
           set_worker app Z.add Z.sub Z.ltb Z.compare Pos.pred_double Z.pos_sub
           Z.opp Z.eqb list_insert insert delete list_delete Z.succ].
      simpl. rewrite IH, <- app_assoc. reflexivity. }
  apply (Hgen changed []).
Qed.

(** ** The backoff scheduler in the run loop *)

(** *** The scheduler *)

Lemma NextBackOff_spec mult b :
  0 < snd mult <= fst mult ->
  backoffOk mult b ->
  fst (NextBackOff b) = currentInterval b
  /\ backoffOk mult (snd (NextBackOff b))
  /\ currentInterval b <= currentInterval (snd (NextBackOff b)).
Proof.
  intros Hmult (Hi & Hm & Hmul & Hc). unfold NextBackOff, backoffOk. simpl.
  rewrite Hmul, Hm. destruct mult as [n d]. simpl in *.
  assert (currentInterval b <= currentInterval b * n / d).
  { apply Z.div_le_lower_bound; [lia|]. nia. }
  repeat split; try assumption; try lia.
Qed.

Lemma Reset_spec mult b :
  backoffOk mult b -> backoffOk mult (Reset b) /\ currentInterval (Reset b) = 500.
Proof.
  intros (Hi & Hm & Hmul & Hc). unfold Reset, backoffOk. simpl.
  repeat split; try assumption; lia.
Qed.

Lemma scheduleOk_skip lo fresh changes pre rest :
  Forall (fun e => isSchedule e = false) pre ->
  scheduleOk lo fresh changes (pre ++ rest) <-> scheduleOk lo fresh changes rest.
Proof.
  induction 1 as [|e pre He _ IH]; [reflexivity|].
  simpl. destruct e; try discriminate; exact IH.
Qed.

Lemma consultScheduler_schedule mult l changes lo fresh :
  0 < snd mult <= fst mult ->
  backoffOk mult (bo l) ->
  tracks lo fresh (bo l) ->
  let l' := snd (consultScheduler l changes) in
  firstRunComplete l' = true
  /\ backoffOk mult (bo l')
  /\ exists lo' fresh',
      tracks lo' fresh' (bo l')
      /\ forall rest,
           scheduleOk lo' fresh' changes rest ->
           scheduleOk lo fresh changes (fst (consultScheduler l changes) ++ rest).
Proof.
  intros Hmult Hok Htr. unfold consultScheduler.
  destruct (firstRunComplete l) eqn:Hfirst.
  - destruct (Z.gtb_spec changes 0) as [Hpos|Hzero].
    + destruct (Reset_spec _ _ Hok) as [Hok1 Hcur].
      destruct (NextBackOff_spec _ _ Hmult Hok1) as (Hd & Hok2 & Hup).
      destruct (NextBackOff (Reset (bo l))) as [d bo2]. simpl in *.
      split; [reflexivity|]. split; [exact Hok2|].
      exists d, false. split; [unfold tracks; lia|].
      intros rest Hrest. repeat split; try lia. exact Hrest.
    + destruct (NextBackOff_spec _ _ Hmult Hok) as (Hd & Hok2 & Hup).
      destruct (NextBackOff (bo l)) as [d bo2]. simpl in *.
      split; [reflexivity|]. split; [exact Hok2|].
      exists d, false. split; [unfold tracks; lia|].
      intros rest Hrest. destruct Hok as (_ & _ & _ & Hc).
      unfold tracks in Htr.
      repeat split; try lia; [destruct fresh; lia|exact Hrest].
  - simpl. split; [reflexivity|]. split; [exact Hok|].
    exists lo, fresh. split; [exact Htr|]. intros rest Hrest. exact Hrest.
Qed.

Lemma afterScan_schedule host r l changes lo fresh :
  0 < snd (backoff_Multiplier host) <= fst (backoff_Multiplier host) ->
  backoffOk (backoff_Multiplier host) (bo l) ->
  tracks lo fresh (bo l) ->
  match snd (afterScan host r l changes) with
  | inl _ => Forall (fun e => isSchedule e = false) (fst (afterScan host r l changes))
  | inr l' =>
      firstRunComplete l' = true
      /\ backoffOk (backoff_Multiplier host) (bo l')
      /\ exists lo' fresh',
          tracks lo' fresh' (bo l')
          /\ forall rest,
               scheduleOk lo' fresh' changes rest ->
               scheduleOk lo fresh changes (fst (afterScan host r l changes) ++ rest)
  end.
Proof.
  intros Hmult Hok Htr. unfold afterScan.
  pose proof (consultScheduler_schedule _ l changes lo fresh Hmult Hok Htr) as Hc.
  destruct (consultScheduler l changes) as [evs l']. simpl in Hc.
  destruct Hc as (Hf & Hok' & lo' & fresh' & Htr' & Hrest).
  destruct (checkTemplVersion _ _ _ _ _ _) as [[|e|]|]; simpl; try constructor.
  - exact Hf.
  - eauto 10.
  - exact Hf.
  - split; [exact Hok'|]. exists lo', fresh'. split; [exact Htr'|].
    intros rest Hr. apply Hrest. exact Hr.
Qed.

Lemma loopBody_schedule host args p r l changes errs lo fresh changes0 :
  0 < snd (backoff_Multiplier host) <= fst (backoff_Multiplier host) ->
  backoffOk (backoff_Multiplier host) (bo l) ->
  tracks lo fresh (bo l) ->
  match snd (loopBody host args p r l changes errs) with
  | inl _ => scheduleOk lo fresh changes0 (fst (loopBody host args p r l changes errs))
  | inr l' =>
      firstRunComplete l' = true
      /\ backoffOk (backoff_Multiplier host) (bo l')
      /\ exists lo' fresh',
          tracks lo' fresh' (bo l')
          /\ forall rest,
               scheduleOk lo' fresh' changes rest ->
               scheduleOk lo fresh changes0
                 (fst (loopBody host args p r l changes errs) ++ rest)
  end.
Proof.
  intros Hmult Hok Htr. unfold loopBody.
  set (onChanges := if changes >? 0 then _ else _).
  assert (Hon : Forall (fun e => isSchedule e = false) onChanges).
  { subst onChanges. destruct (changes >? 0); [|constructor].
    repeat apply Forall_app_2; repeat constructor.
    - destruct (String.eqb (Command args) ""); repeat constructor.
    - destruct p; repeat constructor.
    - destruct (negb (firstRunComplete l) && p); repeat constructor. }
  assert (Hcont : forall evsE,
    Forall (fun e => isSchedule e = false) evsE ->
    match snd (let '(evs', next) := afterScan host r l changes in
               (Scanned changes errs :: evsE ++ onChanges ++ evs', next)) with
    | inl _ => scheduleOk lo fresh changes0
                 (fst (let '(evs', next) := afterScan host r l changes in
                       (Scanned changes errs :: evsE ++ onChanges ++ evs', next)))
    | inr l' =>
      firstRunComplete l' = true
      /\ backoffOk (backoff_Multiplier host) (bo l')
      /\ exists lo' fresh',
          tracks lo' fresh' (bo l')
          /\ forall rest,
               scheduleOk lo' fresh' changes rest ->
               scheduleOk lo fresh changes0
                 (fst (let '(evs', next) := afterScan host r l changes in
                       (Scanned changes errs :: evsE ++ onChanges ++ evs', next)) ++ rest)
    end).
  { intros evsE HE.
    pose proof (afterScan_schedule host r l changes lo fresh Hmult Hok Htr) as Ha.
    destruct (afterScan host r l changes) as [evs' [out|l']]; simpl in *.
    - apply scheduleOk_skip; [exact HE|].
      apply scheduleOk_skip; [exact Hon|].
      rewrite <- (app_nil_r evs'). apply scheduleOk_skip; [exact Ha|exact I].
    - destruct Ha as (Hf & Hok' & lo' & fresh' & Htr' & Hrest).
      split; [exact Hf|]. split; [exact Hok'|].
      exists lo', fresh'. split; [exact Htr'|]. intros rest Hr.
      rewrite <- !app_assoc.
      apply scheduleOk_skip; [exact HE|].
      apply scheduleOk_skip; [exact Hon|]. apply Hrest. exact Hr. }
  destruct errs as [|e0 errs'].
  - apply (Hcont []). constructor.
  - destruct (GoErrors.IsCanceled e0); [simpl; exact I|].
    destruct (negb (Watch args)); [simpl; exact I|].
    apply (Hcont [_]). repeat constructor.
Qed.

Lemma runLoop_schedule host args p rounds :
  0 < snd (backoff_Multiplier host) <= fst (backoff_Multiplier host) ->
  forall l st lo fresh changes0,
    backoffOk (backoff_Multiplier host) (bo l) ->
    tracks lo fresh (bo l) ->
    scheduleOk lo fresh changes0 (fst (fst (runLoop host args p rounds l st))).
Proof.
  intros Hmult.
  induction rounds as [|r rounds IH]; intros l st lo fresh changes0 Hok Htr; simpl.
  - destruct (negb (negb (firstRunComplete l) || Watch args)); exact I.
  - destruct (negb (negb (firstRunComplete l) || Watch args)); [exact I|].
    destruct (processChanges _ _ _ _ _) as [[changes errs] st1].
    pose proof (loopBody_schedule host args p r l changes errs lo fresh changes0
                  Hmult Hok Htr) as Hb.
    destruct (loopBody host args p r l changes errs) as [evs [out|l']]; simpl in *.
    + exact Hb.
    + destruct Hb as (_ & Hok' & lo' & fresh' & Htr' & Hrest).
      specialize (IH l' st1 lo' fresh' changes Hok' Htr').
      destruct (runLoop host args p rounds l' st1) as [[evs' out] st'].
      simpl in *. apply Hrest. exact IH.
Qed.

Lemma runLoop_once host args p rounds l st :
  Watch args = false ->
  List.filter isSchedule (fst (fst (runLoop host args p rounds l st))) = []
  \/ exists c errs,
       List.filter isSchedule (fst (fst (runLoop host args p rounds l st)))
       = [Scanned c errs].
Proof.
  intros Hw. destruct rounds as [|r rounds]; simpl; rewrite Hw.
  - destruct (negb (negb (firstRunComplete l) || false)); left; reflexivity.
  - destruct (firstRunComplete l) eqn:Hfirst; simpl; [left; reflexivity|].
    destruct (processChanges _ _ _ _ _) as [[changes errs] st1].
    right. exists changes, errs.
    unfold loopBody, afterScan, consultScheduler. rewrite Hfirst, Hw.
    set (onChanges := if changes >? 0 then _ else _).
    assert (Hon : List.filter isSchedule onChanges = []).
    { subst onChanges. destruct (changes >? 0); [|reflexivity].
      rewrite !List.filter_app. simpl.
      destruct (String.eqb (Command args) ""), p; reflexivity. }
    assert (Hnext : forall rs st2,
              fst (fst (runLoop host args p rs (mkLoop true (bo l)) st2)) = []).
    { intros [|r2 rs] st2; simpl; rewrite Hw; reflexivity. }
    destruct errs as [|e0 errs'].
    + destruct (checkTemplVersion _ _ _ _ _ _) as [[|e|]|]; simpl;
        rewrite ?app_nil_r, ?Hon; try reflexivity.
      * specialize (Hnext rounds st1).
        destruct (runLoop host args p rounds _ st1) as [[evs' out] st'].
        simpl in *. subst evs'. rewrite List.filter_app, Hon. reflexivity.
      * specialize (Hnext rounds st1).
        destruct (runLoop host args p rounds _ st1) as [[evs' out] st'].
        simpl in *. subst evs'. rewrite !List.filter_app, Hon. reflexivity.
    + destruct (GoErrors.IsCanceled e0); reflexivity.
Qed.

(** *** What [scheduleOk] says about the delays of a trace *)

(** Reading on through a trace keeps the reader above the initial
    interval. *)
Lemma scheduleOk_app pre : forall lo fresh changes rest,
  500 <= lo ->
  scheduleOk lo fresh changes (pre ++ rest) ->
  exists lo' fresh' changes',
    500 <= lo' /\ scheduleOk lo' fresh' changes' rest.
Proof.
  induction pre as [|e pre IH]; intros lo fresh changes rest Hlo H.
  - exists lo, fresh, changes. split; assumption.
  - destruct e; simpl in H; try (eapply IH; eassumption).
    + destruct H as [_ H]. eapply (IH 500); [lia|exact H].
    + destruct H as (_ & Hd & _ & H). eapply (IH d); [|exact H].
      destruct fresh; lia.
Qed.

(** Reading through events that are neither delays nor resets changes
    neither the last delay nor the freshness. *)
Lemma scheduleOk_mid mid : forall lo fresh changes rest,
  Forall (fun e => isSlept e = false /\ isReset e = false) mid ->
  scheduleOk lo fresh changes (mid ++ rest) ->
  exists changes', scheduleOk lo fresh changes' rest.
Proof.
  induction mid as [|e mid IH]; intros lo fresh changes rest Hmid H.
  - exists changes. exact H.
  - inversion Hmid as [|? ? [Hs Hr] Hmid']; subst.
    destruct e; simpl in H; try discriminate; eapply IH; eassumption.
Qed.

(** Reading through events that are neither scans nor delays keeps the
    count of changes of the last scan. *)
Lemma scheduleOk_same_scan mid : forall lo fresh changes rest,
  Forall (fun e => isScanned e = false /\ isSlept e = false) mid ->
  scheduleOk lo fresh changes (mid ++ rest) ->
  exists lo' fresh', scheduleOk lo' fresh' changes rest.
Proof.
  induction mid as [|e mid IH]; intros lo fresh changes rest Hmid H.
  - exists lo, fresh. exact H.
  - inversion Hmid as [|? ? [Hs Hr] Hmid']; subst.
    destruct e; simpl in H; try discriminate; try (eapply IH; eassumption).
    destruct H as [_ H]. eapply IH; eassumption.
Qed.

Lemma schedule_delays_bounded evs pre d post :
  scheduleOk 500 true 0 evs ->
  evs = pre ++ Slept d :: post ->
  500 <= d <= 3000.
Proof.
  intros H ->.
  destruct (scheduleOk_app pre 500 true 0 _ ltac:(lia) H) as (lo & fresh & c & Hlo & Hs).
  simpl in Hs. destruct Hs as (_ & Hd & Hmax & _). destruct fresh; lia.
Qed.

Lemma schedule_delays_grow evs pre d1 mid d2 post :
  scheduleOk 500 true 0 evs ->
  evs = pre ++ Slept d1 :: mid ++ Slept d2 :: post ->
  Forall (fun e => isSlept e = false /\ isReset e = false) mid ->
  d1 <= d2.
Proof.
  intros H -> Hmid.
  destruct (scheduleOk_app pre 500 true 0 _ ltac:(lia) H) as (lo & fresh & c & Hlo & Hs).
  simpl in Hs. destruct Hs as (_ & _ & _ & Hs).
  destruct (scheduleOk_mid mid _ _ _ _ Hmid Hs) as [c' Hs'].
  simpl in Hs'. destruct Hs' as (_ & Hd & _). exact Hd.
Qed.

Lemma schedule_delay_after_reset evs pre mid d post :
  scheduleOk 500 true 0 evs ->
  evs = pre ++ BackoffReset :: mid ++ Slept d :: post ->
  Forall (fun e => isSlept e = false /\ isReset e = false) mid ->
  d = 500.
Proof.
  intros H -> Hmid.
  destruct (scheduleOk_app pre 500 true 0 _ ltac:(lia) H) as (lo & fresh & c & Hlo & Hs).
  simpl in Hs. destruct Hs as (_ & Hs).
  destruct (scheduleOk_mid mid _ _ _ _ Hmid Hs) as [c' Hs'].
  simpl in Hs'. destruct Hs' as (_ & Hd & _). exact Hd.
Qed.

Lemma schedule_first_delay evs mid d post :
  scheduleOk 500 true 0 evs ->
  evs = mid ++ Slept d :: post ->
  Forall (fun e => isSlept e = false /\ isReset e = false) mid ->
  d = 500.
Proof.
  intros H -> Hmid.
  destruct (scheduleOk_mid mid _ _ _ _ Hmid H) as [c' Hs'].
  simpl in Hs'. destruct Hs' as (_ & Hd & _). exact Hd.
Qed.

Lemma schedule_delay_after_changes evs pre c errs mid d post :
  scheduleOk 500 true 0 evs ->
  evs = pre ++ Scanned c errs :: mid ++ Slept d :: post ->
  Forall (fun e => isScanned e = false /\ isSlept e = false) mid ->
  0 < c ->
  d = 500.
Proof.
  intros H -> Hmid Hc.
  destruct (scheduleOk_app pre 500 true 0 _ ltac:(lia) H) as (lo & fresh & c0 & Hlo & Hs).
  simpl in Hs.
  destruct (scheduleOk_same_scan mid _ _ _ _ Hmid Hs) as (lo' & fresh' & Hs').
  simpl in Hs'. destruct Hs' as (Hd & _). exact (Hd Hc).
Qed.

Lemma schedule_reset_after_changes evs pre c errs mid post :
  scheduleOk 500 true 0 evs ->
  evs = pre ++ Scanned c errs :: mid ++ BackoffReset :: post ->
  Forall (fun e => isScanned e = false /\ isSlept e = false) mid ->
  0 < c.
Proof.
  intros H -> Hmid.
  destruct (scheduleOk_app pre 500 true 0 _ ltac:(lia) H) as (lo & fresh & c0 & Hlo & Hs).
  simpl in Hs.
  destruct (scheduleOk_same_scan mid _ _ _ _ Hmid Hs) as (lo' & fresh' & Hs').
  simpl in Hs'. destruct Hs' as (Hd & _). exact Hd.
Qed.

(** C8.  With a multiplier of at least one, in the trace of the command:
    every delay lies between the initial interval of 500 ms and the
    maximum interval of 3000 ms; the first delay is the initial interval,
    and so is the first delay after a reset; from one delay to the next,
    with no reset between them, the delay does not go down; the delay that
    follows a scan with changed files is the initial interval, and a reset
    only follows such a scan.  On the scheduler alone: consulted after a
    scan without changes when it has just been reset, it gives the initial
    interval; consulted after a scan with changes, it is reset and gives
    the initial interval.  Without [-watch] the scheduler is not consulted:
    the trace holds no delay and no reset, and one scan at most, exactly
    one when the loop is entered with a round to run. *)
Theorem backoff_scheduler (host : Host) (args : Args) (rounds : list Round) (st : State) :
  0 < snd (backoff_Multiplier host) <= fst (backoff_Multiplier host) ->
  let evs := fst (fst (runCmd host args rounds st)) in
  let noDelayNoReset := Forall (fun e => isSlept e = false /\ isReset e = false) in
  let noScanNoDelay := Forall (fun e => isScanned e = false /\ isSlept e = false) in
  scheduleOk 500 true 0 evs
  /\ (forall pre d post, evs = pre ++ Slept d :: post -> 500 <= d <= 3000)
  /\ (forall mid d post,
        evs = mid ++ Slept d :: post -> noDelayNoReset mid -> d = 500)
  /\ (forall pre mid d post,
        evs = pre ++ BackoffReset :: mid ++ Slept d :: post ->
        noDelayNoReset mid -> d = 500)
  /\ (forall pre d1 mid d2 post,
        evs = pre ++ Slept d1 :: mid ++ Slept d2 :: post ->
        noDelayNoReset mid -> d1 <= d2)
  /\ (forall pre c errs mid d post,
        evs = pre ++ Scanned c errs :: mid ++ Slept d :: post ->
        noScanNoDelay mid -> 0 < c -> d = 500)
  /\ (forall pre c errs mid post,
        evs = pre ++ Scanned c errs :: mid ++ BackoffReset :: post ->
        noScanNoDelay mid -> 0 < c)
  /\ (forall b, fst (NextBackOff (Reset b)) = InitialInterval b)
  /\ (forall b,
        fst (consultScheduler (mkLoop true (Reset b)) 0) = [Slept (InitialInterval b)])
  /\ (forall b changes,
        0 < changes ->
        fst (consultScheduler (mkLoop true b) changes)
        = [BackoffReset; Slept (InitialInterval b)])
  /\ (Watch args = false ->
      (List.filter isSchedule evs = []
       \/ exists c errs, List.filter isSchedule evs = [Scanned c errs])
      /\ (FileName args = "" ->
          (if String.eqb (Proxy args) "" then None else url_Parse host (Proxy args)) = None ->
          forall path r rounds',
            (if path_IsAbs host (Path args) then inr (Path args)
             else filepath_Abs host (Path args)) = inr path ->
            rounds = r :: rounds' ->
            exists c errs, List.filter isSchedule evs = [Scanned c errs])).
Proof.
  intros Hmult evs noDelayNoReset noScanNoDelay.
  assert (Hschedule : scheduleOk 500 true 0 evs).
  { subst evs. unfold runCmd.
    destruct (Watch args && negb (String.eqb (FileName args) "")); [exact I|].
    destruct (negb (String.eqb (FileName args) "")).
    { destruct (processSingleFile _ _ _ _ _ _ _). exact I. }
    destruct (if String.eqb (Proxy args) "" then None else url_Parse host (Proxy args));
      [exact I|].
    destruct (if path_IsAbs host (Path args) then _ else _); [exact I|].
    apply runLoop_schedule; [exact Hmult| |reflexivity].
    unfold backoffOk. simpl. repeat split; lia. }
  split; [exact Hschedule|].
  split; [intros pre d post; apply schedule_delays_bounded; exact Hschedule|].
  split; [intros mid d post; apply schedule_first_delay; exact Hschedule|].
  split; [intros pre mid d post; apply schedule_delay_after_reset; exact Hschedule|].
  split; [intros pre d1 mid d2 post; apply schedule_delays_grow; exact Hschedule|].
  split; [intros pre c errs mid d post; apply schedule_delay_after_changes;
          exact Hschedule|].
  split; [intros pre c errs mid post; apply schedule_reset_after_changes;
          exact Hschedule|].
  clear Hschedule. subst evs. unfold runCmd.
  split; [reflexivity|split; [reflexivity|split]].
  - intros b changes Hpos. unfold consultScheduler. cbn [firstRunComplete bo].
    destruct (Z.gtb_spec changes 0); [reflexivity|lia].
  - intros Hw. rewrite Hw. cbn [andb]. split.
    + destruct (negb (String.eqb (FileName args) "")).
      { destruct (processSingleFile _ _ _ _ _ _ _). left. reflexivity. }
      destruct (if String.eqb (Proxy args) "" then None else url_Parse host (Proxy args));
        [left; reflexivity|].
      destruct (if path_IsAbs host (Path args) then _ else _); [left; reflexivity|].
      apply runLoop_once. reflexivity.
    + intros Hfile Hurl path r rounds' Habs ->.
      rewrite Hfile, Hurl, Habs. cbn [String.eqb negb].
      match goal with |- context [runLoop ?h ?a ?p ?rs ?l ?s] =>
        destruct (runLoop_once h a p rs l s eq_refl) as [Hnil|Hone];
        [|exact Hone]; exfalso; revert Hnil end.
      simpl. destruct (processChanges _ _ _ _ _) as [[changes errs] st1].
      destruct (loopBody _ _ _ _ _ _ _) as [evs [out|l']] eqn:Hb.
      * unfold loopBody in Hb.
        destruct errs as [|e0 errs'].
        -- destruct (afterScan _ _ _ _). injection Hb as <- _. discriminate.
        -- destruct (GoErrors.IsCanceled e0); [injection Hb as <- _; discriminate|].
           cbn [Watch negb] in Hb. injection Hb as <- _. discriminate.
      * unfold loopBody in Hb.
        destruct errs as [|e0 errs'].
        -- destruct (afterScan _ _ _ _). injection Hb as <- _.
           destruct (runLoop _ _ _ _ _ _) as [[? ?] ?]. discriminate.
        -- destruct (GoErrors.IsCanceled e0); [discriminate|].
           cbn [Watch negb] in Hb. discriminate.
Qed.

(** ** The proxy, the browser and cancellation in the run loop *)

Lemma milestones_app evs1 evs2 : milestones (evs1 ++ evs2) = milestones evs1 ++ milestones evs2.
Proof. apply List.filter_app. Qed.

Lemma afterScan_milestones host r l changes :
  milestones (fst (afterScan host r l changes)) = []
  /\ forall l', snd (afterScan host r l changes) = inr l' -> firstRunComplete l' = true.
Proof.
  unfold afterScan, consultScheduler.
  destruct (checkTemplVersion _ _ _ _ _ _) as [[|e|]|];
    destruct (firstRunComplete l); simpl;
    try destruct (NextBackOff _) as [d bo2]; simpl;
    try destruct (changes >? 0); simpl;
    split; try reflexivity; intros l'; try discriminate; intros [= <-]; reflexivity.
Qed.

(** The scans and the starts in one turn of the loop. *)
Lemma loopBody_milestones host args p r l changes errs :
  milestones (fst (loopBody host args p r l changes errs))
  = Scanned changes errs
      :: (if negb (firstRunComplete l) && p && (changes >? 0) && goesOn (Watch args) errs
          then [ProxyListenStarted; BrowserOpenStarted] else [])
  /\ forall l', snd (loopBody host args p r l changes errs) = inr l' ->
                firstRunComplete l' = true.
Proof.
  unfold loopBody.
  destruct (afterScan_milestones host r l changes) as [Hnil Hfirst].
  destruct (afterScan host r l changes) as [evs' next].
  simpl in Hnil, Hfirst.
  set (onChanges := if changes >? 0 then _ else _).
  assert (Hon : milestones onChanges
                = if negb (firstRunComplete l) && p && (changes >? 0)
                  then [ProxyListenStarted; BrowserOpenStarted] else []).
  { subst onChanges. destruct (changes >? 0); [|rewrite andb_false_r; reflexivity].
    rewrite andb_true_r.
    destruct (String.eqb (Command args) ""), p, (firstRunComplete l); reflexivity. }
  destruct errs as [|e0 errs'].
  - cbn [goesOn]. rewrite andb_true_r. split; [|exact Hfirst].
    cbn [fst app]. unfold milestones at 1. cbn [List.filter isScanned orb].
    fold (milestones (onChanges ++ evs')).
    rewrite milestones_app, Hnil, app_nil_r, Hon. reflexivity.
  - cbn [goesOn]. destruct (GoErrors.IsCanceled e0).
    + cbn [negb andb]. rewrite !andb_false_r. split; [reflexivity|discriminate].
    + destruct (Watch args).
      * cbn [negb andb]. rewrite andb_true_r. split; [|exact Hfirst].
        cbn [fst app]. unfold milestones at 1.
        cbn [List.filter isScanned isProxyStart orb].
        fold (milestones (onChanges ++ evs')).
        rewrite milestones_app, Hnil, app_nil_r, Hon. reflexivity.
      * cbn [negb andb]. rewrite !andb_false_r. split; [reflexivity|discriminate].
Qed.

(** After the first turn the loop starts neither the proxy nor the browser
    task. *)
Lemma runLoop_later host args p rounds :
  forall l st,
    firstRunComplete l = true ->
    Forall (fun e => isScanned e = true)
           (milestones (fst (fst (runLoop host args p rounds l st)))).
Proof.
  induction rounds as [|r rounds IH]; intros l st Hfirst; simpl.
  - destruct (negb _); constructor.
  - destruct (negb _); [constructor|].
    destruct (processChanges _ _ _ _ _) as [[changes errs] st1].
    destruct (loopBody_milestones host args p r l changes errs) as [Hm Hl].
    rewrite Hfirst in Hm. cbn [negb andb] in Hm.
    destruct (loopBody host args p r l changes errs) as [evs [out|l']]; simpl in *.
    + rewrite Hm. repeat constructor.
    + specialize (IH l' st1 (Hl l' eq_refl)).
      destruct (runLoop host args p rounds l' st1) as [[evs' out] st'].
      simpl in *. rewrite milestones_app, Hm. constructor; [reflexivity|exact IH].
Qed.

(** The order the code keeps.  Read off the trace of the command, the
    scans and the starts of the proxy listener and of the browser task come
    in this order: the first scan; then, if and only if a proxy is
    configured, that first scan found changed files and the loop goes on
    after it, the start of the listener and the start of the browser task,
    once each; then only scans.  So the two are started in the first turn
    of the loop or never: at most once, and never before a scan has found
    changes. *)
Lemma runCmd_starts_the_proxy_in_the_first_turn_only
  (host : Host) (args : Args) (rounds : list Round) (st : State) :
  let evs := fst (fst (runCmd host args rounds st)) in
  milestones evs = []
  \/ exists c errs later,
       milestones evs
       = Scanned c errs
           :: (if negb (String.eqb (Proxy args) "") && (c >? 0)
                  && goesOn (Watch args) errs
               then [ProxyListenStarted; BrowserOpenStarted] else [])
           ++ later
       /\ Forall (fun e => isScanned e = true) later.
Proof.
  intros evs. subst evs. unfold runCmd.
  destruct (Watch args && negb (String.eqb (FileName args) "")); [left; reflexivity|].
  destruct (negb (String.eqb (FileName args) "")).
  { destruct (processSingleFile _ _ _ _ _ _ _). left. reflexivity. }
  destruct (if String.eqb (Proxy args) "" then None else url_Parse host (Proxy args));
    [left; reflexivity|].
  destruct (if path_IsAbs host (Path args) then _ else _) as [|path]; [left; reflexivity|].
  destruct rounds as [|r rounds]; [left; reflexivity|].
  right. simpl.
  destruct (processChanges _ _ _ _ _) as [[changes errs] st1].
  match goal with |- context [loopBody ?h ?a ?p ?r ?l ?c ?e] =>
    destruct (loopBody_milestones h a p r l c e) as [Hm Hl];
    destruct (loopBody h a p r l c e) as [evs [out|l']] end; simpl in *.
  - exists changes, errs, []. rewrite app_nil_r. split; [exact Hm|constructor].
  - match goal with |- context [runLoop ?h ?a ?p ?rs ?l ?s] =>
      pose proof (runLoop_later h a p rs l s (Hl l eq_refl)) as Hlater;
      destruct (runLoop h a p rs l s) as [[evs' out] st'] end.
    simpl in *. exists changes, errs, (milestones evs').
    rewrite milestones_app, Hm. split; [|exact Hlater].
    destruct (negb (String.eqb (Proxy args) "") && (changes >? 0) && goesOn (Watch args) errs);
      reflexivity.
Qed.

(** C4 (what the code does).  [-watch] with a proxy, in a project that has
    no template yet.  The first scan finds nothing, and the loop marks its
    first turn as done.  A template is added; the second scan is the first
    to report changed files, and the reload event is sent to the proxy.
    But the test that starts the listener and the browser task asks for the
    first turn of the loop, not for the first scan with changes: neither is
    started, in that turn or in any later one, and the reload goes to a
    proxy that nobody can reach. *)
Theorem proxy_not_started_on_a_later_first_change :
  let run := runCmd exampleHost (exampleArgs true "http://localhost:8080")
               [exampleRound (NDir []); exampleRound exampleTree;
                exampleRound exampleTreeAfter]
               (freshState exampleFS) in
  let evs := fst (fst run) in
  let parseError :=
    wrapError "/proj/b.templ parsing error: " (errorString "unexpected token") in
  evs = [Scanned 0 [];
         Scanned 3 [parseError];
         ErrorLogged "/proj/b.templ parsing error: unexpected token";
         Summary Failure 3 1;
         SentSSE "message" "reload";
         BackoffReset; Slept 500;
         Scanned 0 []; Slept 750]
  /\ List.filter isScanned evs = [Scanned 0 []; Scanned 3 [parseError]; Scanned 0 []]
  /\ In (SentSSE "message" "reload") evs
  /\ ~ In ProxyListenStarted evs
  /\ ~ In BrowserOpenStarted evs.
Proof.
  vm_compute. repeat split.
  - tauto.
  - intros H. repeat (destruct H as [H|H]; [discriminate|]). exact H.
  - intros H. repeat (destruct H as [H|H]; [discriminate|]). exact H.
Qed.

(** *** Cancellation at the boundary of the run loop *)

(** A cancellation that heads the error list of a scan ends the loop, and
    [Run] returns nil. *)
Lemma loopBody_first_cancellation host args p r l changes e0 errs :
  GoErrors.IsCanceled e0 = true ->
  loopBody host args p r l changes (e0 :: errs)
  = ([Scanned changes (e0 :: errs)], inl (Returned (Some e0))).
Proof. intros H. unfold loopBody. rewrite H. reflexivity. Qed.

(** [Run] never returns an error that is a cancellation. *)
Lemma Run_never_returns_cancellation host args rounds st e :
  snd (fst (Run host args rounds st)) = Returned (Some e) ->
  GoErrors.IsCanceled e = false.
Proof.
  unfold Run. destruct (runCmd host args rounds st) as [[evs out] st'].
  destruct out as [[err|]| | |]; simpl; try discriminate.
  destruct (GoErrors.IsCanceled err) eqn:Hc; simpl; [discriminate|].
  intros [= <-]. exact Hc.
Qed.

(** C9 (what the code does).  One scan without [-watch]; the interrupt
    arrives after the worker of [/proj/b.templ] has failed to parse it.
    The traversal ends with the cancellation, which comes second in the
    error list of the scan; the run loop looks at the first error only,
    and [Run] returns an error: the cancellation is reported as a failure
    to process the path. *)
Theorem cancellation_after_a_failure_is_reported
  : let run := Run exampleHost (exampleArgs false "") [exampleRound exampleTree]
                   (interruptedState 6 exampleFS) in
    let parseError :=
      wrapError "/proj/b.templ parsing error: " (errorString "unexpected token") in
    fst (fst run) = [Scanned 2 [parseError; context_Canceled]]
    /\ snd (fst run)
       = Returned (Some (GoErrors.Errorf_v "failed to process path: "
                           (GoErrors.Join [parseError; context_Canceled])))
    /\ GoErrors.IsCanceled (GoErrors.Join [parseError; context_Canceled]) = true.
Proof. vm_compute. repeat split. Qed.
(** ** What the pipeline and the scan do to the files *)

Lemma string_length_substring_0 (n : nat) : forall s : string,
  (n <= String.length s)%nat -> String.length (String.substring 0 n s) = n.
Proof.
  induction n as [|n IH]; intros s Hn.
  - destruct s; reflexivity.
  - destruct s as [|c r]; simpl in *; [lia|]. rewrite IH; [reflexivity|lia].
Qed.

Lemma TrimSuffix_length (s suffix : string) :
  (String.length s - String.length suffix <= String.length (GoStrings.TrimSuffix s suffix)
   <= String.length s)%nat.
Proof.
  unfold GoStrings.TrimSuffix. destruct (GoStrings.HasSuffix s suffix); [|lia].
  rewrite string_length_substring_0; lia.
Qed.

(** The artifact and the visualisation are never the template itself, nor
    each other. *)
Lemma artifactOf_neq fileName : artifactOf fileName <> fileName.
Proof.
  intros H. apply (f_equal String.length) in H. unfold artifactOf in H.
  rewrite string_length_app in H.
  pose proof (TrimSuffix_length fileName ".templ"). simpl in *. lia.
Qed.

Lemma visualisationOf_neq fileName : visualisationOf fileName <> fileName.
Proof.
  intros H. apply (f_equal String.length) in H. unfold visualisationOf in H.
  rewrite string_length_app in H.
  pose proof (TrimSuffix_length fileName ".templ"). simpl in *. lia.
Qed.

Lemma visualisationOf_artifactOf fileName : visualisationOf fileName <> artifactOf fileName.
Proof.
  intros H. apply (f_equal String.length) in H. unfold visualisationOf, artifactOf in H.
  rewrite !string_length_app in H. simpl in H. lia.
Qed.

Lemma artifactOf_generated fileName :
  GoStrings.HasSuffix (artifactOf fileName) "_templ.go" = true.
Proof. apply HasSuffix_app. Qed.

Lemma artifactOf_not_source fileName :
  GoStrings.HasSuffix (artifactOf fileName) ".templ" = false.
Proof. apply generated_is_not_source, artifactOf_generated. Qed.

Lemma visualisationOf_not_source fileName :
  GoStrings.HasSuffix (visualisationOf fileName) ".templ" = false.
Proof.
  destruct (GoStrings.HasSuffix (visualisationOf fileName) ".templ") eqn:H; [|reflexivity].
  pose proof (HasSuffix_get _ _ 0 H ltac:(simpl; lia)) as H1.
  pose proof (HasSuffix_get _ _ 15 (HasSuffix_app (GoStrings.TrimSuffix fileName ".templ")
                                      "_templ_sourcemap.html") ltac:(simpl; lia)) as H2.
  fold (visualisationOf fileName) in H2.
  assert (Hlen : (21 <= String.length (visualisationOf fileName))%nat).
  { unfold visualisationOf. rewrite string_length_app. simpl. lia. }
  simpl in H1, H2.
  replace (String.length (visualisationOf fileName) - 6 + 0)%nat
    with (String.length (visualisationOf fileName) - 21 + 15)%nat in H1 by lia.
  rewrite H1 in H2. discriminate.
Qed.

Lemma nothingLost_refl fs : nothingLost fs fs.
Proof. intros p H. exact H. Qed.

Lemma nothingLost_trans fs1 fs2 fs3 :
  nothingLost fs1 fs2 -> nothingLost fs2 fs3 -> nothingLost fs1 fs3.
Proof. intros H1 H2 p H. auto. Qed.

Lemma nothingLost_insert (fs : FS) p i : nothingLost fs (<[p := i]> fs).
Proof.
  intros q Hq. destruct (decide (p = q)) as [->|Hne].
  - rewrite lookup_insert_eq. eauto.
  - rewrite lookup_insert_ne by exact Hne. exact Hq.
Qed.

Section PipelineFiles.

Variable tc : Toolchain.
Variable os : OS.

Lemma os_WriteFile_inr (fs fs1 : FS) p data :
  os_WriteFile os fs p data = inr fs1 -> fs1 = <[p := IFile data]> fs.
Proof.
  unfold os_WriteFile. destruct (fs !! p) as [[|]|]; try discriminate;
    destruct (writeFails os p); try discriminate;
    destruct (writeStops os p); try discriminate; intros [= <-]; reflexivity.
Qed.

(** A write that fails leaves the file system as it was, or the file cut
    to the bytes that reached it. *)
Lemma os_WriteFile_inl (fs fs1 : FS) p data e :
  os_WriteFile os fs p data = inl (e, fs1) ->
  fs1 = fs
  \/ exists n, writeFails os p = false /\ writeStops os p = Some n
               /\ fs1 = <[p := IFile (String.substring 0 n data)]> fs.
Proof.
  unfold os_WriteFile.
  destruct (fs !! p) as [[|]|]; try (intros [= <- <-]; left; reflexivity);
    (destruct (writeFails os p); [intros [= <- <-]; left; reflexivity|]);
    (destruct (writeStops os p) as [n|]; [|discriminate]);
    intros [= <- <-]; right; exists n; auto.
Qed.

Lemma os_WriteFile_inl_frame (fs fs1 : FS) p data e :
  os_WriteFile os fs p data = inl (e, fs1) ->
  nothingLost fs fs1 /\ (forall q, q <> p -> fs1 !! q = fs !! q).
Proof.
  intros H. apply os_WriteFile_inl in H as [->|(n & _ & _ & ->)].
  - split; [apply nothingLost_refl|reflexivity].
  - split; [apply nothingLost_insert|].
    intros q Hq. apply lookup_insert_ne. congruence.
Qed.

Lemma os_Create_inr (fs fs1 : FS) p :
  os_Create os fs p = inr fs1 -> fs1 = <[p := IFile ""]> fs.
Proof.
  unfold os_Create. destruct (fs !! p) as [[|]|]; try discriminate;
    destruct (createFails os p); try discriminate; intros [= <-]; reflexivity.
Qed.

Lemma visualisation_nothingLost templ go sm st :
  nothingLost (fsys st) (fsys (snd (generateSourceMapVisualisation tc os templ go sm st))).
Proof.
  unfold generateSourceMapVisualisation.
  pose proof (checkCtx_fsys st) as Hc.
  destruct (checkCtx st) as [cerr st0]. simpl in Hc. rewrite <- Hc.
  destruct cerr; [apply nothingLost_refl|].
  destruct (os_ReadFile os (fsys st0) templ); [apply nothingLost_refl|].
  destruct (os_ReadFile os (fsys st0) go); [apply nothingLost_refl|].
  destruct (os_Create os (fsys st0) _) as [|fs1] eqn:Hcr; [apply nothingLost_refl|].
  apply os_Create_inr in Hcr. subst fs1.
  destruct (visualize_Render tc _ _ _ _). simpl.
  eapply nothingLost_trans; apply nothingLost_insert.
Qed.

(** What [generate] leaves of the file system: every path but its two
    outputs is as it was, and nothing is gone. *)
Lemma generate_fsys basePath fileName vis opts st :
  let st' := snd (generate tc os basePath fileName vis opts st) in
  nothingLost (fsys st) (fsys st')
  /\ (forall p, p <> artifactOf fileName -> p <> visualisationOf fileName ->
                fsys st' !! p = fsys st !! p).
Proof.
  unfold generate.
  pose proof (checkCtx_fsys st) as Hc.
  destruct (checkCtx st) as [cerr st0]. simpl in Hc. rewrite <- Hc.
  destruct cerr; [split; [apply nothingLost_refl|reflexivity]|].
  destruct (parser_Parse tc fileName); [split; [apply nothingLost_refl|reflexivity]|].
  destruct (generator_Generate tc _ _) as [|[b sm]];
    [split; [apply nothingLost_refl|reflexivity]|].
  destruct (format_Source tc b); [split; [apply nothingLost_refl|reflexivity]|].
  destruct (os_WriteFile os (fsys st0) _ _) as [[we fs1]|fs1] eqn:Hw.
  { apply os_WriteFile_inl_frame in Hw as [Hl Hk]. fold (artifactOf fileName) in Hk.
    split; [exact Hl|]. intros p Hp _. apply Hk. exact Hp. }
  apply os_WriteFile_inr in Hw. subst fs1. fold (artifactOf fileName).
  destruct vis; simpl.
  - match goal with |- context [generateSourceMapVisualisation ?a ?b ?c ?d ?e ?f] =>
      pose proof (visualisation_nothingLost c d e f) as Hl;
      pose proof (visualisation_keeps_files a b c d e f) as Hk;
      destruct (generateSourceMapVisualisation a b c d e f) as [verr st1] end.
    simpl in *. split.
    + eapply nothingLost_trans; [apply nothingLost_insert|exact Hl].
    + intros p Hp1 Hp2. rewrite (Hk p Hp2). apply lookup_insert_ne. congruence.
  - split; [apply nothingLost_insert|].
    intros p Hp1 _. apply lookup_insert_ne. congruence.
Qed.

Lemma printDiagnostics_fsys diags : forall st, fsys (printDiagnostics diags st) = fsys st.
Proof.
  unfold printDiagnostics. induction diags as [|d ds IH]; intros st; simpl; [reflexivity|].
  rewrite IH. reflexivity.
Qed.

Lemma processSingleFile_fsys basePath fileName vis opts st :
  fsys (snd (processSingleFile tc os basePath fileName vis opts st))
  = fsys (snd (generate tc os basePath fileName vis opts st)).
Proof.
  unfold processSingleFile.
  destruct (generate tc os basePath fileName vis opts st) as [[diag err] st0].
  destruct err; [reflexivity|]. destruct diag; simpl; [reflexivity|].
  rewrite printDiagnostics_fsys. reflexivity.
Qed.

Lemma worker_fsys cfg fileName st :
  fsys (worker tc os cfg fileName st)
  = fsys (snd (generate tc os (scan_path cfg) fileName
                 (generateSourceMapVisualisations cfg) (opts cfg) st)).
Proof.
  unfold worker. rewrite <- processSingleFile_fsys.
  destruct (processSingleFile _ _ _ _ _ _ _) as [[e|] st1]; reflexivity.
Qed.

End PipelineFiles.

(** ** The pipeline of one file *)

(** X1.  [generate] writes at most two files, the artifact and the
    visualisation of the template: every other path is after the call what
    it was before, the template itself among them, whatever its name;
    without the visualisation asked for, the visualisation file is left as
    it was too; and no path is gone. *)
Theorem generate_writes_only_its_outputs
  (tc : Toolchain) (os : OS) (basePath fileName : string) (vis : bool)
  (opts : list GenerateOpt) (st : State) :
  let st' := snd (generate tc os basePath fileName vis opts st) in
  (forall p, p <> artifactOf fileName -> p <> visualisationOf fileName ->
             fsys st' !! p = fsys st !! p)
  /\ fsys st' !! fileName = fsys st !! fileName
  /\ (vis = false ->
      fsys st' !! visualisationOf fileName = fsys st !! visualisationOf fileName)
  /\ (forall p, is_Some (fsys st !! p) -> is_Some (fsys st' !! p)).
Proof.
  destruct (generate_fsys tc os basePath fileName vis opts st) as [Hl Hk].
  split; [exact Hk|]. split; [|split; [|exact Hl]].
  - apply Hk; intros H; symmetry in H;
      [exact (artifactOf_neq _ H)|exact (visualisationOf_neq _ H)].
  - intros ->. clear Hl Hk. unfold generate.
    pose proof (checkCtx_fsys st) as Hc.
    destruct (checkCtx st) as [cerr st0]. simpl in Hc. rewrite <- Hc.
    destruct cerr; [reflexivity|].
    destruct (parser_Parse tc fileName); [reflexivity|].
    destruct (generator_Generate tc _ _) as [|[b sm]]; [reflexivity|].
    destruct (format_Source tc b); [reflexivity|].
    destruct (os_WriteFile os (fsys st0) _ _) as [[we fs1]|fs1] eqn:Hw.
    { apply os_WriteFile_inl_frame in Hw as [_ Hk]. apply Hk.
      fold (artifactOf fileName).
      intros H. exact (visualisationOf_artifactOf _ H). }
    apply os_WriteFile_inr in Hw. subst fs1. simpl.
    apply lookup_insert_ne. fold (artifactOf fileName).
    intros H. symmetry in H. exact (visualisationOf_artifactOf _ H).
Qed.

(** X2.  When [generate] returns an error, one of three things has
    happened.  Nothing but the look at the context: no file is written,
    nothing is on the trace, no diagnostics are returned; so it is when the
    context is cancelled, when the parser, the generator or the formatter
    fails, and when the artifact cannot be opened.  Or the artifact was
    opened and its write or its close failed: the template had parsed, the
    generator and the formatter had run, the artifact holds the bytes that
    reached it, which are the first of the formatted bytes, every other
    path is as it was, nothing is on the trace and no diagnostics are
    returned.  Or the visualisation was asked for and the error comes from
    it: then the template had parsed, its diagnostics are returned with the
    error and the artifact is on disk. *)
Theorem generate_failure_leaves_at_most_a_cut_artifact
  (tc : Toolchain) (os : OS) (basePath fileName : string) (vis : bool)
  (opts : list GenerateOpt) (st : State) (e : error) :
  snd (fst (generate tc os basePath fileName vis opts st)) = Some e ->
  (snd (generate tc os basePath fileName vis opts st) = snd (checkCtx st)
   /\ fst (fst (generate tc os basePath fileName vis opts st)) = [])
  \/ (exists t b sourceMap data n,
        parser_Parse tc fileName = inr t
        /\ generator_Generate tc t
             (opts ++ [WithFileName (if String.eqb basePath "" then fileName
                                     else filepath_Rel os basePath fileName)])
           = inr (b, sourceMap)
        /\ format_Source tc b = inr data
        /\ writeStops os (artifactOf fileName) = Some n
        /\ snd (generate tc os basePath fileName vis opts st)
           = set_fsys (<[artifactOf fileName := IFile (String.substring 0 n data)]>
                         (fsys st))
                      (snd (checkCtx st))
        /\ fst (fst (generate tc os basePath fileName vis opts st)) = [])
  \/ (vis = true
      /\ exists t data,
           parser_Parse tc fileName = inr t
           /\ fst (fst (generate tc os basePath fileName vis opts st)) = Diagnostics t
           /\ fsys (snd (generate tc os basePath fileName vis opts st))
                !! artifactOf fileName = Some (IFile data)).
Proof.
  unfold generate.
  pose proof (checkCtx_fsys st) as Hfs.
  destruct (checkCtx st) as [cerr st0]. simpl in Hfs |- *.
  destruct cerr; [auto|].
  destruct (parser_Parse tc fileName) as [|t]; [auto|].
  destruct (generator_Generate tc _ _) as [|[b sm]] eqn:Hgen; [auto|].
  destruct (format_Source tc b) as [|data] eqn:Hfmt; [auto|].
  destruct (os_WriteFile os (fsys st0) _ _) as [[we fs1]|fs1] eqn:Hw.
  { intros _. apply os_WriteFile_inl in Hw as [->|(n & _ & Hn & ->)].
    - left. split; [destruct st0; reflexivity|reflexivity].
    - right. left. exists t, b, sm, data, n. fold (artifactOf fileName) in Hn |- *.
      rewrite Hfs. repeat split; try assumption; reflexivity. }
  apply os_WriteFile_inr in Hw. subst fs1. fold (artifactOf fileName).
  destruct vis; simpl; [|discriminate].
  match goal with |- context [generateSourceMapVisualisation ?a ?b ?c ?d ?e ?f] =>
    pose proof (visualisation_keeps_files a b c d e f (artifactOf fileName)) as Hk;
    destruct (generateSourceMapVisualisation a b c d e f) as [verr st1] end.
  simpl in *. intros _. right. right. split; [reflexivity|]. exists t, data.
  split; [reflexivity|]. split; [reflexivity|].
  rewrite Hk; [apply lookup_insert_eq|].
  intros H. symmetry in H. exact (visualisationOf_artifactOf _ H).
Qed.


Lemma printDiagnostics_trace diags : forall st,
  trace (printDiagnostics diags st)
  = trace st ++ List.map (fun d => Log Warning (Message d)) diags.
Proof.
  unfold printDiagnostics.
  induction diags as [|d ds IH]; intros st; simpl; [rewrite app_nil_r; reflexivity|].
  rewrite IH. simpl. rewrite <- app_assoc. reflexivity.
Qed.

(** X4.  [processSingleFile] returns the error of [generate], so
    diagnostics never make it fail.  On an error it prints nothing.
    Otherwise it prints one line for the file, a warning when there are
    diagnostics and a success when there are none, followed by one warning
    line per diagnostic, in their order. *)
Theorem processSingleFile_reports_what_generate_returns
  (tc : Toolchain) (os : OS) (basePath fileName : string) (vis : bool)
  (opts : list GenerateOpt) (st : State) :
  let generated := generate tc os basePath fileName vis opts st in
  let result := processSingleFile tc os basePath fileName vis opts st in
  let diags := fst (fst generated) in
  fst result = snd (fst generated)
  /\ (fst result <> None -> snd result = snd generated)
  /\ (fst result = None ->
      trace (snd result)
      = trace (snd generated)
        ++ Log (match diags with [] => Success | _ => Warning end)
               ("Generated code for " +:+ fileName)
        :: List.map (fun d => Log Warning (Message d)) diags).
Proof.
  unfold processSingleFile.
  destruct (generate tc os basePath fileName vis opts st) as [[diag err] st0].
  destruct err as [e|]; simpl.
  - split; [reflexivity|]. split; [reflexivity|discriminate].
  - destruct diag as [|d ds]; cbn [fst snd].
    + split; [reflexivity|]. split; [congruence|reflexivity].
    + split; [reflexivity|]. split; [congruence|]. intros _.
      rewrite (printDiagnostics_trace (d :: ds)). simpl.
      rewrite <- app_assoc. reflexivity.
Qed.

(** ** The scan and the files: what it never does *)

Lemma sourcesKept_refl fs : sourcesKept fs fs.
Proof. intros p _. reflexivity. Qed.

Lemma sourceOf_source p : GoStrings.HasSuffix (sourceOf p) ".templ" = true.
Proof. apply HasSuffix_app. Qed.

(** What [os.Stat] answers for a source path is the same in two file
    systems that hold the same sources. *)
Lemma os_Stat_sourcesKept (os : OS) (fs fs' : FS) (p : string) :
  sourcesKept fs fs' -> GoStrings.HasSuffix p ".templ" = true ->
  os_Stat os fs' p = os_Stat os fs p.
Proof. intros Hs Hp. unfold os_Stat. rewrite (Hs p Hp). reflexivity. Qed.

Section ScanFiles.

Variable tc : Toolchain.
Variable os : OS.
Variable cfg : ScanConfig.

Lemma tidy_refl keep st : tidy os keep st st.
Proof.
  split; [apply sourcesKept_refl|].
  intros p [i Hi] Hn. rewrite Hi in Hn. discriminate.
Qed.

Lemma tidy_trans keep st1 st2 st3 :
  tidy os keep st1 st2 -> tidy os keep st2 st3 -> tidy os keep st1 st3.
Proof.
  intros [Hs1 Ho1] [Hs2 Ho2]. split.
  - intros p Hp. rewrite (Hs2 p Hp). apply Hs1. exact Hp.
  - intros p Hin Hout. destruct (fsys st2 !! p) as [i|] eqn:H2.
    + destruct (Ho2 p) as (Hk & Hsuf & Hstat); [rewrite H2; eauto|exact Hout|].
      repeat split; try assumption.
      rewrite <- (os_Stat_sourcesKept os _ _ _ Hs1 (sourceOf_source p)). exact Hstat.
    + apply Ho1; assumption.
Qed.

Lemma tidy_same keep st st' : fsys st' = fsys st -> tidy os keep st st'.
Proof.
  intros H. split; rewrite H; [apply sourcesKept_refl|].
  intros p [i Hi] Hn. rewrite Hi in Hn. discriminate.
Qed.

Lemma tidy_nothingLost keep st st' :
  sourcesKept (fsys st) (fsys st') -> nothingLost (fsys st) (fsys st') ->
  tidy os keep st st'.
Proof.
  intros Hs Hl. split; [exact Hs|].
  intros p Hin Hout. destruct (Hl p Hin) as [i Hi]. rewrite Hi in Hout. discriminate.
Qed.

Lemma worker_tidy fileName st :
  tidy os (keepOrphanedFiles cfg) st (worker tc os cfg fileName st).
Proof.
  destruct (generate_fsys tc os (scan_path cfg) fileName
              (generateSourceMapVisualisations cfg) (opts cfg) st) as [Hl Hk].
  apply tidy_nothingLost; rewrite worker_fsys; [|exact Hl].
  intros p Hp. apply Hk; intros ->.
  - rewrite artifactOf_not_source in Hp. discriminate.
  - rewrite visualisationOf_not_source in Hp. discriminate.
Qed.

Lemma visit_tidy st fileName info err :
  tidy os (keepOrphanedFiles cfg) st (fst (visit tc os cfg st fileName info err)).
Proof.
  unfold visit. destruct err; [apply tidy_refl|].
  pose proof (checkCtx_fsys st) as Hc.
  destruct (checkCtx st) as [cerr st0]. simpl in Hc.
  assert (H0 : tidy os (keepOrphanedFiles cfg) st st0) by (apply tidy_same; exact Hc).
  destruct cerr; [exact H0|].
  destruct info as [d|]; [|exact H0].
  destruct (IsDir d && shouldSkipDir fileName); [exact H0|].
  destruct (IsDir d); [exact H0|].
  destruct (negb (keepOrphanedFiles cfg) && GoStrings.HasSuffix fileName "_templ.go") eqn:Hgen.
  - apply andb_true_iff in Hgen as [Hkeep Hsuf]. apply negb_true_iff in Hkeep.
    destruct (os_Stat _ _ _) as [se|] eqn:Hstat; [|exact H0].
    unfold os_Remove. destruct (fsys st0 !! fileName) eqn:Hp; [|exact H0].
    destruct (removeFails os fileName); [exact H0|]. cbn [fst].
    eapply tidy_trans; [exact H0|]. split; simpl.
    + intros p Hsrc. apply lookup_delete_ne. intros ->.
      rewrite (generated_is_not_source _ Hsuf) in Hsrc. discriminate.
    + intros p Hin Hout. destruct (decide (fileName = p)) as [<-|Hne].
      * split; [exact Hkeep|]. split; [exact Hsuf|].
        unfold sourceOf. rewrite Hstat. discriminate.
      * rewrite lookup_delete_ne in Hout by exact Hne.
        destruct Hin as [ino Hino]. rewrite Hino in Hout. discriminate.
  - destruct (GoStrings.HasSuffix fileName ".templ"); [|exact H0].
    destruct d as [[e|mt]| |]; try exact H0.
    destruct (After mt _); [|exact H0]. cbn [fst].
    eapply tidy_trans; [exact H0|].
    eapply tidy_trans; [|apply worker_tidy]. apply tidy_same. reflexivity.
Qed.

Lemma processChanges_tidy root st :
  tidy os (keepOrphanedFiles cfg) st (snd (processChanges tc os cfg root st)).
Proof.
  unfold processChanges, traverse.
  pose proof (WalkDir_respects (visit tc os cfg) (tidy os (keepOrphanedFiles cfg))
                (tidy_refl _) (tidy_trans _) visit_tidy (scan_path cfg) root (startScan st))
    as H.
  destruct (WalkDir (visit tc os cfg) (scan_path cfg) root (startScan st)) as [st1 err].
  simpl in H. eapply tidy_trans; [apply (tidy_same _ st (startScan st)); reflexivity|].
  eapply tidy_trans; [exact H|]. apply tidy_same. destruct err; reflexivity.
Qed.

End ScanFiles.

(** X5.  A scan never creates, changes or removes a file whose name
    ends in [.templ]: every such path is after [processChanges] what it was
    before, whatever the tree, the system and the collaborators do. *)
Theorem scan_never_touches_a_source
  (tc : Toolchain) (os : OS) (cfg : ScanConfig) (root : Root) (st : State) (p : string) :
  GoStrings.HasSuffix p ".templ" = true ->
  fsys (snd (processChanges tc os cfg root st)) !! p = fsys st !! p.
Proof. intros Hp. destruct (processChanges_tidy tc os cfg root st) as [Hs _]. auto. Qed.

(** X6.  A path that is on disk before a scan and gone after it is a
    generated artifact (its name ends in [_templ.go]) for whose source path
    [os.Stat] gave an error when the scan began: the source was not there,
    or it was there and [os.Stat] failed on it; and the scan was not told
    to keep orphaned files.  When it was told so, no path is gone. *)
Theorem scan_removes_only_artifacts_whose_source_cannot_be_examined
  (tc : Toolchain) (os : OS) (cfg : ScanConfig) (root : Root) (st : State) :
  let st' := snd (processChanges tc os cfg root st) in
  (forall p,
     is_Some (fsys st !! p) -> fsys st' !! p = None ->
     keepOrphanedFiles cfg = false
     /\ GoStrings.HasSuffix p "_templ.go" = true
     /\ os_Stat os (fsys st) (sourceOf p) <> None
     /\ (fsys st !! sourceOf p = None \/ statFails os (sourceOf p) = true))
  /\ (keepOrphanedFiles cfg = true ->
      forall p, is_Some (fsys st !! p) -> is_Some (fsys st' !! p)).
Proof.
  destruct (processChanges_tidy tc os cfg root st) as [_ Ho]. split.
  - intros p Hin Hout. destruct (Ho p Hin Hout) as (Hk & Hsuf & Hstat).
    repeat split; try assumption.
    unfold os_Stat in Hstat. destruct (fsys st !! sourceOf p); [|auto].
    destruct (statFails os (sourceOf p)); [auto|congruence].
  - intros Hkeep p Hin.
    destruct (fsys (snd (processChanges tc os cfg root st)) !! p) as [i|] eqn:Hp; [eauto|].
    destruct (Ho p Hin Hp) as [Hk _]. congruence.
Qed.

(** ** The scan and its counts *)

Lemma counted_refl st : counted st st.
Proof. unfold counted. lia. Qed.

Lemma counted_trans st1 st2 st3 : counted st1 st2 -> counted st2 st3 -> counted st1 st3.
Proof. unfold counted. lia. Qed.

Lemma pipelineOnly_refl st : pipelineOnly st st.
Proof. exists []. rewrite app_nil_r. split; [reflexivity|constructor]. Qed.

Lemma pipelineOnly_trans st1 st2 st3 :
  pipelineOnly st1 st2 -> pipelineOnly st2 st3 -> pipelineOnly st1 st3.
Proof.
  intros (e1 & H1 & F1) (e2 & H2 & F2). exists (e1 ++ e2).
  rewrite H2, H1, app_assoc. split; [reflexivity|]. apply Forall_app. auto.
Qed.

Lemma pipelineOnly_same st st' : trace st' = trace st -> pipelineOnly st st'.
Proof. intros H. exists []. rewrite H, app_nil_r. split; [reflexivity|constructor]. Qed.

Lemma pipelineOnly_emit e st : isPipelineEvent e = true -> pipelineOnly st (emit e st).
Proof. intros H. exists [e]. split; [reflexivity|]. repeat constructor. exact H. Qed.

Lemma pipelineOnly_checkCtx st : pipelineOnly st (snd (checkCtx st)).
Proof. apply pipelineOnly_same. unfold checkCtx. destruct (ctx_Err (ctx st)). reflexivity. Qed.

Lemma pipelineOnly_dispatched st st' :
  pipelineOnly st st' -> dispatched (trace st') = dispatched (trace st).
Proof.
  intros (evs & -> & Hall). rewrite dispatched_app.
  assert (dispatched evs = []) as ->; [|apply app_nil_r].
  induction Hall as [|e evs' He _ IH]; [reflexivity|].
  destruct e; simpl in *; try discriminate; exact IH.
Qed.

Section PipelineTrace.

Variable tc : Toolchain.
Variable os : OS.

Lemma pipelineOnly_visualisation templ go sm st :
  pipelineOnly st (snd (generateSourceMapVisualisation tc os templ go sm st)).
Proof.
  unfold generateSourceMapVisualisation.
  pose proof (pipelineOnly_checkCtx st) as Hc.
  destruct (checkCtx st) as [cerr st0]. simpl in Hc.
  destruct cerr; [exact Hc|].
  destruct (os_ReadFile os (fsys st0) templ); [exact Hc|].
  destruct (os_ReadFile os (fsys st0) go); [exact Hc|].
  destruct (os_Create os (fsys st0) _); [exact Hc|].
  destruct (visualize_Render tc _ _ _ _). simpl.
  eapply pipelineOnly_trans; [exact Hc|].
  eapply pipelineOnly_trans; [|apply pipelineOnly_emit; reflexivity].
  apply pipelineOnly_same. reflexivity.
Qed.

Lemma pipelineOnly_generate basePath fileName vis opts st :
  pipelineOnly st (snd (generate tc os basePath fileName vis opts st)).
Proof.
  unfold generate.
  pose proof (pipelineOnly_checkCtx st) as Hc.
  destruct (checkCtx st) as [cerr st0]. simpl in Hc.
  destruct cerr; [exact Hc|].
  destruct (parser_Parse tc fileName); [exact Hc|].
  destruct (generator_Generate tc _ _) as [|[b sm]]; [exact Hc|].
  destruct (format_Source tc b); [exact Hc|].
  destruct (os_WriteFile os (fsys st0) _ _) as [[we fs1]|fs1];
    [eapply pipelineOnly_trans; [exact Hc|apply pipelineOnly_same; reflexivity]|].
  eapply pipelineOnly_trans; [exact Hc|].
  assert (Hw : pipelineOnly st0
                 (emit (Wrote (GoStrings.TrimSuffix fileName ".templ" +:+ "_templ.go"))
                       (set_fsys fs1 st0))).
  { eapply pipelineOnly_trans; [|apply pipelineOnly_emit; reflexivity].
    apply pipelineOnly_same. reflexivity. }
  destruct vis; simpl; [|exact Hw].
  match goal with |- context [generateSourceMapVisualisation ?a ?b ?c ?d ?e ?f] =>
    pose proof (pipelineOnly_visualisation c d e f) as Hv;
    destruct (generateSourceMapVisualisation a b c d e f) end.
  simpl in *. eapply pipelineOnly_trans; [exact Hw|exact Hv].
Qed.

Lemma pipelineOnly_printDiagnostics diags : forall st, pipelineOnly st (printDiagnostics diags st).
Proof.
  unfold printDiagnostics.
  induction diags as [|d ds IH]; intros st; simpl; [apply pipelineOnly_refl|].
  eapply pipelineOnly_trans; [|apply IH]. apply pipelineOnly_emit. reflexivity.
Qed.

Lemma pipelineOnly_processSingleFile basePath fileName vis opts st :
  pipelineOnly st (snd (processSingleFile tc os basePath fileName vis opts st)).
Proof.
  unfold processSingleFile.
  pose proof (pipelineOnly_generate basePath fileName vis opts st) as Hg.
  destruct (generate tc os basePath fileName vis opts st) as [[diag err] st0].
  simpl in Hg. destruct err; [exact Hg|].
  destruct diag; cbn [snd].
  - eapply pipelineOnly_trans; [exact Hg|apply pipelineOnly_emit; reflexivity].
  - eapply pipelineOnly_trans; [exact Hg|].
    eapply pipelineOnly_trans; [|apply pipelineOnly_printDiagnostics].
    apply pipelineOnly_emit. reflexivity.
Qed.

Lemma worker_dispatched cfg fileName st :
  dispatched (trace (worker tc os cfg fileName st)) = dispatched (trace st).
Proof.
  unfold worker.
  pose proof (pipelineOnly_processSingleFile (scan_path cfg) fileName
                (generateSourceMapVisualisations cfg) (opts cfg) st) as Hp.
  apply pipelineOnly_dispatched in Hp.
  destruct (processSingleFile _ _ _ _ _ _ _) as [err st1]. simpl in Hp.
  destruct err; simpl; rewrite dispatched_app, Hp; simpl; apply app_nil_r.
Qed.

End PipelineTrace.

Section ScanCounts.

Variable tc : Toolchain.
Variable os : OS.
Variable cfg : ScanConfig.

Lemma counted_checkCtx st : counted st (snd (checkCtx st)).
Proof. unfold checkCtx. destruct (ctx_Err (ctx st)). unfold counted. simpl. lia. Qed.

Lemma visit_counted st fileName info err :
  counted st (fst (visit tc os cfg st fileName info err)).
Proof.
  unfold visit. destruct err; [apply counted_refl|].
  pose proof (counted_checkCtx st) as Hc.
  destruct (checkCtx st) as [cerr st0]. simpl in Hc.
  destruct cerr; [exact Hc|].
  destruct info as [d|]; [|exact Hc].
  destruct (IsDir d && shouldSkipDir fileName); [exact Hc|].
  destruct (IsDir d); [exact Hc|].
  destruct (negb (keepOrphanedFiles cfg) && GoStrings.HasSuffix fileName "_templ.go").
  - destruct (os_Stat _ _ _); [|exact Hc].
    destruct (os_Remove _ _ _); [exact Hc|]. cbn [fst].
    eapply counted_trans; [exact Hc|]. unfold counted. simpl.
    rewrite !dispatched_app. simpl. rewrite !app_nil_r. lia.
  - destruct (GoStrings.HasSuffix fileName ".templ"); [|exact Hc].
    destruct d as [[e|mt]| |]; try exact Hc.
    destruct (After mt _); [|exact Hc]. cbn [fst].
    eapply counted_trans; [exact Hc|].
    match goal with |- counted _ (worker _ _ _ _ ?s) =>
      destruct (worker_spec tc os cfg fileName s) as (_ & Hch & _ & He);
      pose proof (worker_dispatched tc os cfg fileName s) as Hd
    end.
    unfold counted. rewrite Hch, He, Hd. simpl.
    rewrite !dispatched_app, !length_app. simpl.
    destruct (fst (processSingleFile _ _ _ _ _ _ _)); simpl; lia.
Qed.

Lemma traverse_counted root st :
  counted (startScan st) (fst (traverse tc os cfg root st)).
Proof.
  unfold traverse.
  apply (WalkDir_respects (visit tc os cfg) counted counted_refl counted_trans visit_counted).
Qed.

End ScanCounts.

(** X7.  The count [processChanges] returns is the number of
    workers it has started; the errors it returns are at most one per
    worker, and one more for the traversal when that was cut short. *)
Theorem scan_counts_workers_and_bounds_errors
  (tc : Toolchain) (os : OS) (cfg : ScanConfig) (root : Root) (st : State) :
  let result := processChanges tc os cfg root st in
  let changes := fst (fst result) in
  let errors := snd (fst result) in
  0 <= changes
  /\ (exists started,
        dispatched (trace (snd result)) = dispatched (trace st) ++ started
        /\ Z.of_nat (List.length started) = changes)
  /\ Z.of_nat (List.length errors) <= changes + 1
  /\ (snd (traverse tc os cfg root st) = None -> Z.of_nat (List.length errors) <= changes).
Proof.
  unfold processChanges.
  pose proof (traverse_counted tc os cfg root st) as (Hc & He & Hd).
  pose proof (traverse_grows tc os cfg root st) as (_ & _ & [evs Ht] & _).
  destruct (traverse tc os cfg root st) as [st1 err]. simpl in *.
  assert (Hstart : exists started,
             dispatched (trace st1) = dispatched (trace st) ++ started
             /\ Z.of_nat (List.length started) = changesFound st1).
  { exists (dispatched evs). rewrite Ht, dispatched_app. split; [reflexivity|].
    rewrite Ht, dispatched_app, length_app in Hd. lia. }
  destruct err as [e|]; simpl; rewrite ?length_app; simpl;
    (split; [lia|]); (split; [exact Hstart|]); split; try lia; discriminate.
Qed.

(** ** What a completed scan compiles *)

Lemma advance_app m a : forall b, advance m (a ++ b) = advance (advance m a) b.
Proof.
  revert m. induction a as [|src a IH]; intros m b; simpl; [reflexivity|]. apply IH.
Qed.

Lemma changedIn_app a : forall m b,
  changedIn m (a ++ b) = changedIn m a ++ changedIn (advance m a) b.
Proof.
  induction a as [|src a IH]; intros m b; simpl; [reflexivity|].
  destruct (newer m src); simpl; rewrite IH; reflexivity.
Qed.

Lemma folded_nil st st' : quiet st st' -> folded [] st st'.
Proof.
  intros (Hm & Hc & Hd). unfold folded. simpl. rewrite app_nil_r. repeat split; try assumption.
  lia.
Qed.

Lemma folded_app a b st1 st2 st3 :
  folded a st1 st2 -> folded b st2 st3 -> folded (a ++ b) st1 st3.
Proof.
  intros (Hm1 & Hd1 & Hc1) (Hm2 & Hd2 & Hc2). unfold folded.
  rewrite advance_app, changedIn_app, length_app, Hm2, Hd2, Hc2, Hm1, Hd1, Hc1.
  rewrite app_assoc. repeat split. lia.
Qed.

Lemma folded_quiet_l srcs st1 st2 st3 :
  quiet st1 st2 -> folded srcs st2 st3 -> folded srcs st1 st3.
Proof. intros Hq Hf. apply (folded_app [] srcs st1 st2 st3); [apply folded_nil, Hq|exact Hf]. Qed.

(** The sources compared with the map are the only keys that count. *)
Lemma changedIn_ext srcs : forall m m',
  (forall f, In f (List.map fst srcs) -> lastModTime m f = lastModTime m' f) ->
  changedIn m srcs = changedIn m' srcs.
Proof.
  induction srcs as [|[f t] srcs IH]; intros m m' Hm; simpl; [reflexivity|].
  unfold newer. simpl. rewrite (Hm f) by (left; reflexivity).
  destruct (lastModTime m' f <? t).
  - f_equal. apply IH. intros g Hg. rewrite !lastModTime_insert.
    destruct (decide (f = g)); [reflexivity|]. apply Hm. right. exact Hg.
  - apply IH. intros g Hg. apply Hm. right. exact Hg.
Qed.

Lemma changedIn_NoDup srcs : forall m,
  NoDup (List.map fst srcs) ->
  changedIn m srcs = List.map fst (List.filter (newer m) srcs).
Proof.
  induction srcs as [|[f t] srcs IH]; intros m Hnd; simpl; [reflexivity|].
  apply NoDup_cons in Hnd as [Hf Hnd].
  destruct (newer m (f, t)) eqn:Hn; simpl; [f_equal|]; rewrite <- (IH m Hnd); [|reflexivity].
  apply changedIn_ext. intros g Hg. rewrite lastModTime_insert.
  destruct (decide (f = g)) as [<-|]; [|reflexivity].
  exfalso. apply Hf. apply list_elem_of_In. exact Hg.
Qed.

Lemma advance_other srcs : forall m f,
  ~ In f (List.map fst srcs) -> advance m srcs !! f = m !! f.
Proof.
  induction srcs as [|[g t] srcs IH]; intros m f Hf; simpl; [reflexivity|].
  simpl in Hf. rewrite IH by tauto.
  destruct (newer m (g, t)); [|reflexivity]. simpl.
  apply lookup_insert_ne. tauto.
Qed.

Lemma lastModTime_advance_other srcs m f :
  ~ In f (List.map fst srcs) -> lastModTime (advance m srcs) f = lastModTime m f.
Proof. intros H. unfold lastModTime. rewrite advance_other by exact H. reflexivity. Qed.

Lemma advance_NoDup srcs : forall m f t,
  NoDup (List.map fst srcs) -> In (f, t) srcs ->
  lastModTime (advance m srcs) f = Z.max (lastModTime m f) t.
Proof.
  induction srcs as [|[g u] srcs IH]; intros m f t Hnd Hin; simpl; [destruct Hin|].
  apply NoDup_cons in Hnd as [Hg Hnd]. destruct Hin as [[= -> ->]|Hin].
  - rewrite lastModTime_advance_other.
    2:{ intros H. apply Hg. apply list_elem_of_In. exact H. }
    unfold newer. simpl. destruct (Z.ltb_spec (lastModTime m f) t).
    + rewrite lastModTime_insert. destruct (decide (f = f)); [lia|congruence].
    + lia.
  - rewrite (IH _ f t Hnd Hin). f_equal.
    destruct (newer m (g, u)); [|reflexivity]. simpl. rewrite lastModTime_insert.
    destruct (decide (g = f)) as [->|]; [|reflexivity].
    exfalso. apply Hg. apply list_elem_of_In. apply (in_map fst _ _ Hin).
Qed.

Section Exact.

Variable tc : Toolchain.
Variable os : OS.
Variable cfg : ScanConfig.

Lemma visit_dir_quiet st path d :
  IsDir d = true -> quiet st (fst (visit tc os cfg st path (Some d) None)).
Proof. intros Hd. apply (visit_dir_calm tc os cfg st path d None Hd). Qed.

Lemma visit_folds_file st path info :
  (forall e, snd (visit tc os cfg st path (Some (NFile info)) None) <> WalkErr e) ->
  folded (sourcesOf path (NFile info)) st
         (fst (visit tc os cfg st path (Some (NFile info)) None)).
Proof.
  intros Hok.
  destruct info as [ie|mt]; simpl.
  { apply folded_nil. apply visit_quiet. simpl. exact I. }
  destruct (GoStrings.HasSuffix path ".templ") eqn:Hsrc.
  2:{ apply folded_nil. apply visit_quiet. simpl. rewrite Hsrc. discriminate. }
  destruct (ctx_Err (ctx st)) as [cerr c] eqn:Hctx.
  destruct cerr as [ce|].
  { exfalso. apply (Hok ce). unfold visit, checkCtx. rewrite Hctx. reflexivity. }
  destruct (Z.le_gt_cases mt (lastModTime (fileNameToLastModTime st) path)) as [Hold|Hnew].
  - rewrite (visit_unchanged tc os cfg st path mt Hsrc Hold). simpl.
    assert (Hn : newer (fileNameToLastModTime st) (path, mt) = false)
      by (apply Z.ltb_ge; exact Hold).
    unfold folded, checkCtx. rewrite Hctx. simpl. rewrite Hn. simpl.
    rewrite app_nil_r. repeat split. lia.
  - rewrite (visit_changed tc os cfg st path mt c Hctx Hsrc Hnew). cbn [fst].
    match goal with |- folded _ _ (worker _ _ _ _ ?s) =>
      destruct (worker_spec tc os cfg path s) as (Hm & Hch & _ & _);
      pose proof (worker_dispatched tc os cfg path s) as Hd
    end.
    assert (Hn : newer (fileNameToLastModTime st) (path, mt) = true)
      by (apply Z.ltb_lt; exact Hnew).
    unfold folded. simpl. rewrite Hn, Hm, Hch, Hd. simpl.
    rewrite !dispatched_app. simpl. rewrite !app_nil_r.
    repeat split.
Qed.

(** A traversal that comes to its end has met the sources of the tree in
    walk order. *)
Lemma walkDir_folds (d : Node) :
  forall path st,
    (forall e, snd (walkDir (visit tc os cfg) path d st) <> WalkErr e) ->
    folded (sourcesOf path d) st (fst (walkDir (visit tc os cfg) path d st)).
Proof.
  induction d as [info|entries IH|be] using Node_nested_ind; intros path st Hok.
  - pose proof (visit_folds_file st path info) as H.
    rewrite walkDir_NFile in Hok |- *.
    destruct (visit tc os cfg st path (Some (NFile info)) None) as [st1 r].
    destruct r; simpl in *; apply H; try discriminate.
    intros e0 He. apply (Hok e0). exact He.
  - rewrite sourcesOf_NDir. rewrite walkDir_NDir in Hok |- *.
    pose proof (visit_dir_quiet st path (NDir entries) eq_refl) as Hq.
    pose proof (visit_SkipDir tc os cfg st path (Some (NDir entries)) None) as Hskip.
    pose proof (visit_Nil_not_skipped tc os cfg st path (NDir entries) eq_refl) as Hns.
    destruct (visit tc os cfg st path (Some (NDir entries)) None) as [st1 r].
    simpl in Hq, Hskip, Hns. destruct r; simpl in *.
    + rewrite (Hns eq_refl). apply (folded_quiet_l _ st st1); [exact Hq|].
      clear Hq Hskip Hns st. revert st1 Hok.
      induction IH as [|[name d1] es Hd _ IHes]; intros st1 Hok; simpl.
      * apply folded_nil, quiet_refl.
      * simpl in Hok, Hd.
        pose proof (Hd (GoStrings.Join path name) st1) as H1.
        pose proof (walkDir_visit_not_SkipDir tc os cfg d1 (GoStrings.Join path name) st1) as Hnsk.
        destruct (walkDir (visit tc os cfg) (GoStrings.Join path name) d1 st1) as [st' r'].
        destruct r'; simpl in *; [|contradiction|exfalso; eapply Hok; reflexivity].
        eapply folded_app; [apply H1; discriminate|apply IHes; exact Hok].
    + destruct (Hskip eq_refl) as (? & _ & _ & ->). apply folded_nil. exact Hq.
    + exfalso. eapply Hok. reflexivity.
  - rewrite walkDir_NBadDir in Hok |- *. cbn [sourcesOf].
    pose proof (visit_dir_quiet st path (NBadDir be) eq_refl) as Hq.
    destruct (visit tc os cfg st path (Some (NBadDir be)) None) as [st1 r].
    simpl in Hq. destruct r; simpl in *.
    + exfalso. unfold visit in Hok. simpl in Hok. eapply Hok. reflexivity.
    + apply folded_nil. exact Hq.
    + exfalso. eapply Hok. reflexivity.
Qed.

Lemma traverse_folds d st :
  snd (traverse tc os cfg (RootNode d) st) = None ->
  folded (sourcesOf (scan_path cfg) d) (startScan st)
         (fst (traverse tc os cfg (RootNode d) st)).
Proof.
  unfold traverse, WalkDir. intros Hok.
  pose proof (walkDir_folds d (scan_path cfg) (startScan st)) as H.
  destruct (walkDir (visit tc os cfg) (scan_path cfg) d (startScan st)) as [st1 r].
  destruct r; simpl in *; try discriminate; apply H; discriminate.
Qed.

End Exact.

(** X8.  A scan whose traversal comes to its end, over a tree in
    which no path occurs twice, starts a worker for exactly the source files
    outside skipped directories whose modification time is above their entry
    in the map, once each and in walk order; it returns their number; each
    source has the later of its two times in the map afterwards, and no
    other entry of the map has changed. *)
Theorem completed_scan_compiles_the_newer_sources
  (tc : Toolchain) (os : OS) (cfg : ScanConfig) (d : Node) (st : State) :
  snd (traverse tc os cfg (RootNode d) st) = None ->
  NoDup (List.map fst (sourcesOf (scan_path cfg) d)) ->
  let result := processChanges tc os cfg (RootNode d) st in
  let found := List.filter (newer (fileNameToLastModTime st)) (sourcesOf (scan_path cfg) d) in
  fst (fst result) = Z.of_nat (List.length found)
  /\ dispatched (trace (snd result)) = dispatched (trace st) ++ List.map fst found
  /\ (forall f modTime,
        In (f, modTime) (sourcesOf (scan_path cfg) d) ->
        lastModTime (fileNameToLastModTime (snd result)) f
        = Z.max (lastModTime (fileNameToLastModTime st) f) modTime)
  /\ (forall f,
        ~ In f (List.map fst (sourcesOf (scan_path cfg) d)) ->
        fileNameToLastModTime (snd result) !! f = fileNameToLastModTime st !! f).
Proof.
  intros Hok Hnd. unfold processChanges.
  pose proof (traverse_folds tc os cfg d st Hok) as (Hm & Hd & Hc).
  destruct (traverse tc os cfg (RootNode d) st) as [st1 err]. simpl in Hok. subst err.
  simpl in *. rewrite Hc, Hd, Hm, (changedIn_NoDup _ _ Hnd), length_map.
  split; [lia|]. split; [reflexivity|]. split.
  - intros f t Hin. apply advance_NoDup; assumption.
  - intros f Hf. apply advance_other. exact Hf.
Qed.

(** ** The version gate: the search for the manifest *)

Section VersionGateSearch.

Variable cmp : string -> string -> Z.
Variable running : string.

Lemma gateLoop_climb (k : nat) : forall found above fuel,
  gateLoop cmp running (k + fuel)
           (hd found (upward k found above)) (tl (upward k found above))
  = gateLoop cmp running fuel found above.
Proof.
  induction k as [|k IH]; intros found above fuel; [reflexivity|].
  change (upward (Datatypes.S k) found above)
    with (StatNotExist :: upward k found above).
  simpl hd. simpl tl. simpl Nat.add. cbn [gateLoop gateStep].
  destruct (upward k found above) as [|c ps] eqn:Hup.
  - unfold upward in Hup. destruct (List.repeat StatNotExist k); discriminate.
  - specialize (IH found above fuel). rewrite Hup in IH. simpl in IH. exact IH.
Qed.

Lemma gateLoop_nearest (fuel : nat) : forall found above above',
  found <> StatNotExist ->
  gateLoop cmp running fuel found above = gateLoop cmp running fuel found above'.
Proof.
  induction fuel as [|fuel IH]; intros found above above' Hfound; [reflexivity|].
  destruct found as [| | | |mf]; simpl; try reflexivity; [contradiction|].
  destruct (checkModFile cmp running mf); [reflexivity|].
  apply IH. discriminate.
Qed.

(** X9.  [checkTemplVersion] climbs from the path, past the
    directories without a go.mod, to the first directory where there is
    one, and stops there: what is above that directory has no part in the
    result.  A go.mod that cannot be examined, read or parsed ends the
    search with the error for that; when the root is reached with no go.mod
    found the error says so; when the path cannot be made absolute nothing
    is searched. *)
Theorem version_gate_stops_at_the_nearest_manifest
  (k : nat) (found : GoMod) (above : list GoMod) (fuel : nat) :
  (k < fuel)%nat ->
  let gate := fun above =>
    checkTemplVersion cmp running fuel true
      (hd found (upward k found above)) (tl (upward k found above)) in
  (found <> StatNotExist -> forall above', gate above = gate above')
  /\ (found = StatFailed -> gate above = Some (GateFail ErrStatGoMod))
  /\ (found = ReadFailed -> gate above = Some (GateFail ErrReadGoMod))
  /\ (found = ParseFailed -> gate above = Some (GateFail ErrParseGoMod))
  /\ (found = StatNotExist -> above = [] -> gate above = Some (GateFail ErrNoGoMod))
  /\ checkTemplVersion cmp running fuel false
       (hd found (upward k found above)) (tl (upward k found above))
     = Some (GateFail ErrAbsPath).
Proof.
  intros Hfuel gate. subst gate. unfold checkTemplVersion.
  replace fuel with (k + Datatypes.S (fuel - k - 1))%nat by lia.
  rewrite !gateLoop_climb.
  split; [|repeat split].
  - intros Hfound above'. rewrite gateLoop_climb. apply gateLoop_nearest. exact Hfound.
  - intros ->. reflexivity.
  - intros ->. reflexivity.
  - intros ->. reflexivity.
  - intros -> ->. reflexivity.
Qed.

(** X10.  When the nearest go.mod is that of another module and
    does not require this tool, the loop over its requirements ends without
    a return and [checkTemplVersion] starts again on the same directory: it
    does not return, with any number of turns. *)
Theorem version_gate_never_returns_without_the_dependency
  (cur : GoMod) (parents : list GoMod) (mf : ModFile) (modulePath : string) :
  foundManifest cur parents = Some mf ->
  Module_Path mf = Some modulePath ->
  modulePath <> templModulePath ->
  declaredVersion (Requires mf) = None ->
  forall fuel, checkTemplVersion cmp running fuel true cur parents = None.
Proof.
  intros Hfound Hmod Hother Hdecl fuel. unfold checkTemplVersion.
  apply (gateLoop_undeclared_loops cmp running fuel cur parents mf Hfound).
  unfold checkModFile. rewrite Hmod.
  destruct (String.eqb_spec modulePath templModulePath) as [->|_]; [contradiction|].
  apply rangeRequire_undeclared. exact Hdecl.
Qed.

End VersionGateSearch.

(** ** The go directive of a manifest *)

Lemma string_append_assoc (a b c : string) : (a +:+ b) +:+ c = a +:+ b +:+ c.
Proof.
  induction a as [|x a IH]; [reflexivity|].
  rewrite !string_append_cons, IH. reflexivity.
Qed.

Lemma literal_app lit s : literal lit (lit +:+ s) = Some s.
Proof.
  induction lit as [|c lit IH]; [destruct s; reflexivity|].
  rewrite string_append_cons. simpl. rewrite Ascii.eqb_refl. exact IH.
Qed.

Lemma literal_length lit : forall s s',
  literal lit s = Some s' ->
  String.length s = (String.length lit + String.length s')%nat.
Proof.
  induction lit as [|c lit IH]; intros s s' H; simpl in H.
  - destruct s; injection H as <-; reflexivity.
  - destruct s as [|d s]; [discriminate|].
    destruct (Ascii.eqb c d); [|discriminate].
    simpl. rewrite (IH _ _ H). reflexivity.
Qed.

Lemma digitRun_length s :
  String.length s
  = (String.length (fst (digitRun s)) + String.length (snd (digitRun s)))%nat.
Proof.
  induction s as [|c r IH]; [reflexivity|]. simpl.
  destruct (isDigit c); [|reflexivity].
  destruct (digitRun r) as [ds rest]. simpl in *. rewrite IH. reflexivity.
Qed.

Lemma digits_length s ds rest :
  digits s = Some (ds, rest) ->
  String.length s = (String.length ds + String.length rest)%nat
  /\ (1 <= String.length ds)%nat.
Proof.
  unfold digits. pose proof (digitRun_length s) as H.
  destruct (digitRun s) as [[|c d] r]; [discriminate|].
  intros [= <- <-]. simpl in *. split; [exact H|lia].
Qed.

Lemma digitRun_app a : forall rest,
  allDigits a = true ->
  match rest with String c _ => isDigit c = false | EmptyString => True end ->
  digitRun (a +:+ rest) = (a, rest).
Proof.
  induction a as [|c a IH]; intros rest Ha Hrest.
  - rewrite string_append_nil. destruct rest as [|d r]; [reflexivity|].
    simpl. rewrite Hrest. reflexivity.
  - rewrite string_append_cons. simpl in *.
    apply andb_true_iff in Ha as [Hc Ha]. rewrite Hc, (IH rest Ha Hrest). reflexivity.
Qed.

Lemma digits_app a rest :
  isNumber a = true ->
  match rest with String c _ => isDigit c = false | EmptyString => True end ->
  digits (a +:+ rest) = Some (a, rest).
Proof.
  intros Ha Hrest. unfold digits.
  destruct a as [|c a]; [discriminate|].
  rewrite (digitRun_app _ rest Ha Hrest). reflexivity.
Qed.

Lemma goVersionRegexp_match_directive major minor patch post :
  isNumber major = true -> isNumber minor = true -> isNumber patch = true ->
  goVersionRegexp_match
    (newline +:+ "go " +:+ major +:+ "." +:+ minor +:+ "." +:+ patch +:+ newline +:+ post)
  = Some (major +:+ "." +:+ minor, post).
Proof.
  intros Ha Hb Hc. unfold goVersionRegexp_match.
  rewrite <- (string_append_assoc newline "go "), literal_app.
  rewrite (digits_app major _ Ha) by reflexivity.
  rewrite literal_app.
  rewrite (digits_app minor _ Hb) by reflexivity.
  rewrite literal_app.
  rewrite (digits_app patch _ Hc) by reflexivity.
  rewrite literal_app. reflexivity.
Qed.

Lemma goVersionRegexp_match_length s submatch rest :
  goVersionRegexp_match s = Some (submatch, rest) ->
  (String.length rest + String.length submatch + 7 <= String.length s)%nat.
Proof.
  unfold goVersionRegexp_match.
  destruct (literal (newline +:+ "go ") s) as [s1|] eqn:H1; [|discriminate].
  destruct (digits s1) as [[major s2]|] eqn:H2; [|discriminate].
  destruct (literal "." s2) as [s3|] eqn:H3; [|discriminate].
  destruct (digits s3) as [[minor s4]|] eqn:H4; [|discriminate].
  destruct (literal "." s4) as [s5|] eqn:H5; [|discriminate].
  destruct (digits s5) as [[patch s6]|] eqn:H6; [|discriminate].
  destruct (literal newline s6) as [s7|] eqn:H7; [|discriminate].
  intros [= <- <-].
  apply literal_length in H1, H3, H5, H7.
  apply digits_length in H2 as [H2 _], H4 as [H4 _], H6 as [H6 Hp].
  rewrite !string_length_app. simpl in *. lia.
Qed.

Lemma replaceAllFrom_skip m : forall rest,
  replaceAllFrom (String.length m) (m +:+ rest) = replaceAllFrom O rest.
Proof.
  induction m as [|c m IH]; intros rest; [reflexivity|].
  rewrite string_append_cons. simpl. apply IH.
Qed.

Lemma replaceAllFrom_length s : forall skip,
  (String.length (replaceAllFrom skip s) <= String.length s - skip)%nat.
Proof.
  induction s as [|c r IH]; intros skip; [simpl; lia|].
  destruct skip as [|k]; simpl.
  - destruct (goVersionRegexp_match (String c r)) as [[submatch rest]|] eqn:Hm.
    + apply goVersionRegexp_match_length in Hm. simpl in Hm.
      rewrite !string_length_app. simpl.
      specialize (IH (String.length r - String.length rest)%nat). lia.
    + simpl. specialize (IH O). lia.
  - specialize (IH k). lia.
Qed.

Lemma goVersionRegexp_match_not_g c r :
  match r with
  | String d _ => Ascii.eqb c "010" && Ascii.eqb d "g" = false
  | EmptyString => True
  end ->
  goVersionRegexp_match (String c r) = None.
Proof.
  intros H. unfold goVersionRegexp_match.
  change (newline +:+ "go ") with (String "010" (String "g" "o ")).
  cbn [literal]. rewrite (Ascii.eqb_sym "010" c).
  destruct (Ascii.eqb c "010"); [|reflexivity].
  destruct r as [|d r]; [reflexivity|]. cbn [andb] in H.
  rewrite (Ascii.eqb_sym "g" d), H. reflexivity.
Qed.

Lemma replaceAllFrom_quiet pre : forall tail,
  noLineStartsWithG pre = true ->
  match tail with String d _ => Ascii.eqb d "g" = false | EmptyString => True end ->
  replaceAllFrom O (pre +:+ tail) = pre +:+ replaceAllFrom O tail.
Proof.
  induction pre as [|c pre IH]; intros tail Hq Htail; [reflexivity|].
  rewrite !string_append_cons. simpl.
  rewrite goVersionRegexp_match_not_g.
  - f_equal. apply IH; [|exact Htail].
    simpl in Hq. destruct pre as [|d pre]; [reflexivity|].
    apply andb_true_iff in Hq as [_ Hq]. exact Hq.
  - destruct pre as [|d pre].
    + rewrite string_append_nil. destruct tail as [|d tail]; [exact I|].
      rewrite Htail. apply andb_false_r.
    + rewrite string_append_cons. simpl in Hq.
      apply andb_true_iff in Hq as [Hq _]. apply negb_true_iff in Hq. exact Hq.
Qed.

(** X11.  [goVersionRegexp.ReplaceAll] cuts a go directive of
    three numbers, on a line of its own below the first, to its first two
    numbers, in a text in which no other line starts with a g before it, and
    goes on with the text after the directive.  A text in which no line but
    the first starts with a g is left as it is, a go directive on its first
    line included.  The result is never longer than the text. *)
Theorem go_directive_is_cut_to_two_numbers :
  (forall pre major minor patch post,
     noLineStartsWithG pre = true ->
     isNumber major = true -> isNumber minor = true -> isNumber patch = true ->
     goVersionRegexp_ReplaceAll
       (pre +:+ newline +:+ "go " +:+ major +:+ "." +:+ minor +:+ "." +:+ patch
            +:+ newline +:+ post)
     = pre +:+ newline +:+ "go " +:+ major +:+ "." +:+ minor +:+ newline
           +:+ goVersionRegexp_ReplaceAll post)
  /\ (forall m, noLineStartsWithG m = true -> goVersionRegexp_ReplaceAll m = m)
  /\ (forall m,
        (String.length (goVersionRegexp_ReplaceAll m) <= String.length m)%nat).
Proof.
  unfold goVersionRegexp_ReplaceAll. split; [|split].
  - intros pre major minor patch post Hq Ha Hb Hc.
    rewrite replaceAllFrom_quiet by (try exact Hq; reflexivity). f_equal.
    pose proof (goVersionRegexp_match_directive major minor patch post Ha Hb Hc) as Hm.
    change (newline +:+ "go " +:+ major +:+ "." +:+ minor +:+ "." +:+ patch
              +:+ newline +:+ post)
      with (String "010" ("go " +:+ major +:+ "." +:+ minor +:+ "." +:+ patch
              +:+ newline +:+ post)) in Hm |- *.
    cbn [replaceAllFrom]. rewrite Hm.
    assert (Hskip : replaceAllFrom
                      (String.length ("go " +:+ major +:+ "." +:+ minor +:+ "." +:+ patch
                                        +:+ newline +:+ post) - String.length post)
                      ("go " +:+ major +:+ "." +:+ minor +:+ "." +:+ patch
                         +:+ newline +:+ post)
                    = replaceAllFrom O post).
    { replace ("go " +:+ major +:+ "." +:+ minor +:+ "." +:+ patch +:+ newline +:+ post)
        with (("go " +:+ major +:+ "." +:+ minor +:+ "." +:+ patch +:+ newline) +:+ post)
        by (rewrite !string_append_assoc; reflexivity).
      rewrite string_length_app.
      replace (String.length ("go " +:+ major +:+ "." +:+ minor +:+ "." +:+ patch
                                +:+ newline)
               + String.length post - String.length post)%nat
        with (String.length ("go " +:+ major +:+ "." +:+ minor +:+ "." +:+ patch
                               +:+ newline))
        by lia.
      apply replaceAllFrom_skip. }
    rewrite Hskip, !string_append_assoc. reflexivity.
  - intros m Hq.
    pose proof (replaceAllFrom_quiet m "" Hq I) as H.
    assert (Hnil : forall s : string, s +:+ "" = s).
    { induction s as [|c s IH]; [reflexivity|]. rewrite string_append_cons, IH. reflexivity. }
    rewrite !Hnil in H. exact H.
  - intros m. pose proof (replaceAllFrom_length m O). lia.
Qed.


(** ** The run loop: how the command ends *)

Lemma afterScan_outcome host r l changes out :
  snd (afterScan host r l changes) = inl out -> out = GateLoops \/ out = Panicked.
Proof.
  unfold afterScan.
  destruct (checkTemplVersion _ _ _ _ _ _) as [[|e|]|]; simpl;
    try destruct (consultScheduler l changes); simpl; try discriminate;
    intros [= <-]; auto.
Qed.

Lemma loopBody_returns host args p r l changes errs oe :
  snd (loopBody host args p r l changes errs) = inl (Returned oe) ->
  exists e0 rest,
    errs = e0 :: rest
    /\ (if GoErrors.IsCanceled e0 then oe = Some e0
        else Watch args = false
             /\ oe = Some (GoErrors.Errorf_v "failed to process path: "
                                             (GoErrors.Join errs))).
Proof.
  unfold loopBody. destruct errs as [|e0 rest].
  - pose proof (afterScan_outcome host r l changes) as H.
    destruct (afterScan host r l changes) as [evs' next]. simpl in *.
    intros ->. destruct (H _ eq_refl); discriminate.
  - exists e0, rest. split; [reflexivity|].
    destruct (GoErrors.IsCanceled e0); simpl in *; [congruence|].
    destruct (Watch args); simpl in *; [|split; congruence].
    pose proof (afterScan_outcome host r l changes) as H0.
    destruct (afterScan host r l changes) as [evs' next]. simpl in *.
    subst next. destruct (H0 _ eq_refl); discriminate.
Qed.

Lemma runLoop_watch_returns host args p rounds :
  Watch args = true ->
  forall l st oe,
    snd (fst (runLoop host args p rounds l st)) = Returned oe ->
    exists e, oe = Some e /\ GoErrors.IsCanceled e = true.
Proof.
  intros Hw. induction rounds as [|r rounds IH]; intros l st oe; simpl;
    rewrite Hw, orb_true_r; simpl; [discriminate|].
  destruct (processChanges _ _ _ _ _) as [[changes errs] st1].
  pose proof (loopBody_returns host args p r l changes errs) as Hret.
  destruct (loopBody host args p r l changes errs) as [evs [out|l']].
  - simpl. intros ->. destruct (Hret oe eq_refl) as (e0 & rest & _ & H).
    destruct (GoErrors.IsCanceled e0) eqn:Hc; [eauto|].
    destruct H as [H _]. congruence.
  - specialize (IH l' st1 oe).
    destruct (runLoop host args p rounds l' st1) as [[evs' out] st']. exact IH.
Qed.

Lemma runCmd_loop host args rounds st path :
  FileName args = "" ->
  proxyError host args = None ->
  absolutePath host args = inr path ->
  runCmd host args rounds st
  = runLoop host (withDefaults host args path) (negb (String.eqb (Proxy args) ""))
            rounds (initialLoop host) st.
Proof.
  unfold proxyError, absolutePath, runCmd. intros Hf Hp Ha.
  replace (String.eqb (FileName args) "") with true by (rewrite Hf; reflexivity).
  rewrite andb_false_r. simpl. rewrite Hp, Ha. reflexivity.
Qed.

(** X16.  With [-watch], the only errors [Run] returns are those
    of its arguments: [-watch] together with [-f], a proxy URL that does not
    parse, a path that cannot be made absolute.  No error of a scan or of a
    compilation ends the command. *)
Theorem watch_mode_fails_only_on_its_arguments
  (host : Host) (args : Args) (rounds : list Round) (st : State) (e : error) :
  Watch args = true ->
  snd (fst (Run host args rounds st)) = Returned (Some e) ->
  (FileName args <> ""
   /\ e = errorString "cannot watch a single file, remove the -f or -watch flag")
  \/ (exists pe, proxyError host args = Some pe
                 /\ e = GoErrors.Errorf_w "failed to parse proxy URL: " pe)
  \/ absolutePath host args = inl e.
Proof.
  intros Hw. unfold Run.
  destruct (String.eqb_spec (FileName args) "") as [Hf|Hf].
  2:{ unfold runCmd. rewrite Hw. destruct (String.eqb_spec (FileName args) ""); [contradiction|].
      simpl. intros [= <-]. left. auto. }
  destruct (proxyError host args) as [pe|] eqn:Hp.
  { unfold runCmd. rewrite Hf, andb_false_r. simpl. unfold proxyError in Hp. rewrite Hp.
    simpl. destruct (GoErrors.IsCanceled pe); [discriminate|].
    intros [= <-]. right. left. eauto. }
  destruct (absolutePath host args) as [ae|path] eqn:Ha.
  { unfold runCmd. rewrite Hf, andb_false_r. simpl.
    unfold proxyError in Hp. unfold absolutePath in Ha. rewrite Hp, Ha.
    simpl. destruct (GoErrors.IsCanceled ae); [discriminate|].
    intros [= <-]. right. right. reflexivity. }
  rewrite (runCmd_loop host args rounds st path Hf Hp Ha).
  match goal with |- context [runLoop ?h ?a ?p ?r ?l ?s] =>
    pose proof (runLoop_watch_returns h a p r Hw l s) as Hret;
    destruct (runLoop h a p r l s) as [[evs out] st'] end.
  simpl in *. destruct out as [[e'|]| | |]; simpl; try discriminate.
  destruct (Hret _ eq_refl) as (e1 & [= <-] & ->). discriminate.
Qed.

Lemma visit_cancelled tc os cfg st path info :
  ctx st = Some O ->
  visit tc os cfg st path info None = (set_ctx (Some O) st, WalkErr context_Canceled).
Proof. intros H. unfold visit, checkCtx. rewrite H. reflexivity. Qed.

Lemma walkDir_cancelled tc os cfg d path st :
  ctx st = Some O ->
  walkDir (visit tc os cfg) path d st = (set_ctx (Some O) st, WalkErr context_Canceled).
Proof.
  intros H. destruct d.
  - rewrite walkDir_NFile, (visit_cancelled _ _ _ _ _ _ H). reflexivity.
  - rewrite walkDir_NDir, (visit_cancelled _ _ _ _ _ _ H). reflexivity.
  - rewrite walkDir_NBadDir, (visit_cancelled _ _ _ _ _ _ H). reflexivity.
Qed.

Lemma processChanges_cancelled tc os cfg d st :
  ctx st = Some O ->
  processChanges tc os cfg (RootNode d) st
  = ((0, [context_Canceled]),
     mkState (fileNameToLastModTime st) 0 [context_Canceled] (Some O) (fsys st) (trace st)).
Proof.
  intros H. unfold processChanges, traverse, WalkDir.
  rewrite walkDir_cancelled by exact H. reflexivity.
Qed.

Lemma processSingleFile_cancelled tc os basePath fileName vis opts st :
  ctx st = Some O ->
  processSingleFile tc os basePath fileName vis opts st
  = (Some context_Canceled, set_ctx (Some O) st).
Proof.
  intros H. unfold processSingleFile, generate, checkCtx. rewrite H. reflexivity.
Qed.

Lemma processChanges_LstatErr tc os cfg e st :
  processChanges tc os cfg (LstatErr e) st
  = ((0, [e]),
     mkState (fileNameToLastModTime st) 0 [e] (ctx st) (fsys st) (trace st)).
Proof. reflexivity. Qed.

(** X12.  The context is cancelled before the first look at it.
    (1) With [-f] and without [-watch], [Run] returns nil and the pipeline
    of the file stops at its first step: nothing is compiled, written or
    removed.  (2) Without [-f], when the proxy URL parses, the path can be
    made absolute, the worker count is not negative (a negative one makes
    [make] panic at the head of the scan) and the root of the scan can be
    examined, the first scan stops at the root, with no change found and
    the cancellation as its only error, and [Run] returns nil, with
    [-watch] as without it.  (3) When the root cannot be examined, the
    callback is handed the error of [os.Lstat] and returns it before it
    looks at the context: the scan returns that error alone and, without
    [-watch], [Run] returns it as a failure to process the path, unless it
    is a cancellation itself. *)
Theorem run_after_cancellation_compiles_nothing
  (host : Host) (args : Args) (rounds : list Round) (st : State) :
  ctx st = Some O ->
  (FileName args <> "" -> Watch args = false ->
   Run host args rounds st = ([], Returned None, set_ctx (Some O) st))
  /\ (forall path r rounds',
        FileName args = "" ->
        proxyError host args = None ->
        absolutePath host args = inr path ->
        0 <= maxWorkerCount (scanConfig host (withDefaults host args path)) ->
        rounds = r :: rounds' ->
        (forall d,
           root r = RootNode d ->
           Run host args rounds st
           = ([Scanned 0 [context_Canceled]], Returned None,
              mkState (fileNameToLastModTime st) 0 [context_Canceled] (Some O)
                      (outside r (fsys st)) (trace st)))
        /\ (forall e,
              root r = LstatErr e ->
              GoErrors.IsCanceled e = false ->
              Watch args = false ->
              Run host args rounds st
              = ([Scanned 0 [e]],
                 Returned (Some (errorString ("failed to process path: "
                                              +:+ GoErrors.Error e))),
                 mkState (fileNameToLastModTime st) 0 [e] (Some O)
                         (outside r (fsys st)) (trace st)))).
Proof.
  intros Hctx. split.
  - intros Hf Hw. unfold Run, runCmd. rewrite Hw. simpl.
    destruct (String.eqb_spec (FileName args) ""); [contradiction|]. simpl.
    rewrite processSingleFile_cancelled by exact Hctx. reflexivity.
  - intros path r rounds' Hf Hp Ha _ ->. split.
    + intros d Hroot. unfold Run.
      rewrite (runCmd_loop host args _ st path Hf Hp Ha).
      cbn [runLoop initialLoop firstRunComplete negb orb]. cbn [negb orb].
      rewrite Hroot, processChanges_cancelled by exact Hctx.
      unfold loopBody. simpl. reflexivity.
    + intros e Hroot Hnc Hw. unfold Run.
      rewrite (runCmd_loop host args _ st path Hf Hp Ha).
      cbn [runLoop initialLoop firstRunComplete negb orb]. cbn [negb orb].
      rewrite Hroot, processChanges_LstatErr.
      unfold loopBody. rewrite Hnc. cbn [Watch withDefaults]. rewrite Hw.
      cbn [negb fst snd app ctx fsys set_fsys fileNameToLastModTime trace].
      rewrite Hctx. reflexivity.
Qed.

Lemma runLoop_first_turn host args p r rounds st :
  let scan := processChanges (round_tc r) (round_os r) (scanConfig host args) (root r)
                (set_fsys (outside r (fsys st)) st) in
  runLoop host args p (r :: rounds) (initialLoop host) st
  = match loopBody host args p r (initialLoop host) (fst (fst scan)) (snd (fst scan)) with
    | (evs, inl out) => (evs, out, snd scan)
    | (evs, inr l') =>
        let '(evs', out, st') := runLoop host args p rounds l' (snd scan) in
        (evs ++ evs', out, st')
    end.
Proof.
  simpl. unfold scanConfig, generatorOptions.
  destruct (processChanges _ _ _ _ _) as [[changes errs] st1]. reflexivity.
Qed.

Lemma loopBody_stops host args p r l changes errs :
  goesOn (Watch args) errs = false ->
  exists e, loopBody host args p r l changes errs
            = ([Scanned changes errs], inl (Returned (Some e))).
Proof.
  unfold goesOn, loopBody. destruct errs as [|e0 rest]; [discriminate|].
  destruct (GoErrors.IsCanceled e0); simpl; [eauto|].
  destruct (Watch args); simpl; [discriminate|eauto].
Qed.

Lemma loopBody_goesOn host args p r l changes errs :
  goesOn (Watch args) errs = true ->
  snd (loopBody host args p r l changes errs) = snd (afterScan host r l changes).
Proof.
  unfold goesOn, loopBody. destruct errs as [|e0 rest].
  - intros _. destruct (afterScan host r l changes). reflexivity.
  - destruct (GoErrors.IsCanceled e0); simpl; [discriminate|].
    destruct (Watch args); simpl; [|discriminate].
    intros _. destruct (afterScan host r l changes). reflexivity.
Qed.

(** X14.  In a module that does not require this tool, the
    command never returns success: after the first scan the loop enters the
    version check, which does not return, unless that scan ended the
    loop with an error.  This holds without [-watch] too. *)
Theorem command_hangs_in_a_module_without_the_dependency
  (host : Host) (args : Args) (r : Round) (rounds : list Round) (st : State)
  (path : string) (mf : ModFile) (modulePath : string) :
  FileName args = "" ->
  proxyError host args = None ->
  absolutePath host args = inr path ->
  abs_ok r = true ->
  foundManifest (gomod r) (gomod_parents r) = Some mf ->
  Module_Path mf = Some modulePath ->
  modulePath <> templModulePath ->
  declaredVersion (Requires mf) = None ->
  let scan := processChanges (round_tc r) (round_os r)
                (scanConfig host (withDefaults host args path)) (root r)
                (set_fsys (outside r (fsys st)) st) in
  let outcome := snd (fst (runCmd host args (r :: rounds) st)) in
  (goesOn (Watch args) (snd (fst scan)) = true -> outcome = GateLoops)
  /\ (goesOn (Watch args) (snd (fst scan)) = false ->
      exists e, outcome = Returned (Some e))
  /\ outcome <> Returned None.
Proof.
  intros Hf Hp Ha Habs Hfound Hmod Hother Hdecl scan outcome. subst outcome.
  rewrite (runCmd_loop host args _ st path Hf Hp Ha), runLoop_first_turn. fold scan.
  assert (Hgate : afterScan host r (initialLoop host) (fst (fst scan)) = ([], inl GateLoops)).
  { unfold afterScan, checkTemplVersion. rewrite Habs.
    rewrite (gateLoop_undeclared_loops _ _ _ _ _ mf Hfound); [reflexivity|].
    unfold checkModFile. rewrite Hmod.
    destruct (String.eqb_spec modulePath templModulePath) as [->|_]; [contradiction|].
    apply rangeRequire_undeclared. exact Hdecl. }
  pose proof (loopBody_goesOn host (withDefaults host args path)
                (negb (String.eqb (Proxy args) "")) r (initialLoop host)
                (fst (fst scan)) (snd (fst scan))) as Hon.
  pose proof (loopBody_stops host (withDefaults host args path)
                (negb (String.eqb (Proxy args) "")) r (initialLoop host)
                (fst (fst scan)) (snd (fst scan))) as Hoff.
  cbn [Watch withDefaults] in Hon, Hoff.
  destruct (goesOn (Watch args) (snd (fst scan))).
  - specialize (Hon eq_refl). rewrite Hgate in Hon.
    destruct (loopBody _ _ _ _ _ _ _) as [evs next]. simpl in Hon. subst next. simpl.
    split; [reflexivity|]. split; discriminate.
  - destruct (Hoff eq_refl) as [e He]. rewrite He. simpl.
    split; [discriminate|]. split; [eauto|discriminate].
Qed.

(** X13.  The worker count is not negative (a negative one makes
    [make] panic at the head of the scan, before the path is looked at).
    When the path to scan cannot be examined, the scan returns no change
    and that error alone.  Without [-watch], [Run] returns the error
    "failed to process path: " followed by its text; with [-watch], the
    error is logged and the loop goes on: [Run] does not return it. *)
Theorem unreadable_root_ends_the_scan
  (host : Host) (args : Args) (r : Round) (rounds : list Round) (st : State)
  (path : string) (e : error) :
  FileName args = "" ->
  proxyError host args = None ->
  absolutePath host args = inr path ->
  0 <= maxWorkerCount (scanConfig host (withDefaults host args path)) ->
  root r = LstatErr e ->
  GoErrors.IsCanceled e = false ->
  (Watch args = false ->
   Run host args (r :: rounds) st
   = ([Scanned 0 [e]],
      Returned (Some (errorString ("failed to process path: " +:+ GoErrors.Error e))),
      mkState (fileNameToLastModTime st) 0 [e] (ctx st) (outside r (fsys st)) (trace st)))
  /\ (Watch args = true ->
      (exists rest,
         fst (fst (Run host args (r :: rounds) st))
         = Scanned 0 [e] :: ErrorLogged (GoErrors.Error e) :: rest)
      /\ forall oe, snd (fst (Run host args (r :: rounds) st)) = Returned oe -> oe = None).
Proof.
  intros Hf Hp Ha _ Hroot Hnc. unfold Run.
  rewrite (runCmd_loop host args _ st path Hf Hp Ha). split.
  - intros Hw. rewrite runLoop_first_turn. rewrite Hroot, processChanges_LstatErr.
    cbn [fst snd]. unfold loopBody. rewrite Hnc. cbn [Watch withDefaults]. rewrite Hw.
    reflexivity.
  - intros Hw. split.
    + rewrite runLoop_first_turn. rewrite Hroot, processChanges_LstatErr.
      cbn [fst snd]. unfold loopBody. rewrite Hnc. cbn [Watch withDefaults]. rewrite Hw.
      cbn [negb]. replace (0 >? 0) with false by reflexivity.
      destruct (afterScan _ _ _ _) as [evs' [out|l']].
      * destruct out as [[e'|]| | |]; simpl; try destruct (GoErrors.IsCanceled e'); eauto.
      * destruct (runLoop _ _ _ _ _ _) as [[evs2 out] st2].
        destruct out as [[e'|]| | |]; simpl; try destruct (GoErrors.IsCanceled e'); eauto.
    + intros oe.
      match goal with |- context [runLoop ?h ?a ?p ?rs ?l ?s] =>
        pose proof (runLoop_watch_returns h a p rs Hw l s) as Hret;
        destruct (runLoop h a p rs l s) as [[evs out] st'] end.
      simpl in Hret. destruct out as [[e'|]| | |]; simpl; try discriminate.
      * destruct (Hret _ eq_refl) as (e1 & [= <-] & ->). intros [= <-]. reflexivity.
      * intros [= <-]. reflexivity.
Qed.

(** X17.  With [-f] and without [-watch], [runCmd] compiles that
    file, with an empty base path, and returns what the pipeline returns:
    there is no scan, no version check, no proxy and no delay, the proxy URL
    and the path are not looked at, the map of modification times is left
    as it is, and no file but the artifact and the visualisation of that
    file is touched. *)
Theorem single_file_mode_compiles_one_file
  (host : Host) (args : Args) (rounds : list Round) (st : State) :
  FileName args <> "" ->
  Watch args = false ->
  let compiled :=
    processSingleFile (host_tc host) (host_os host) "" (FileName args)
                      (GenerateSourceMapVisualisations args)
                      (generatorOptions host args) st in
  runCmd host args rounds st = ([], Returned (fst compiled), snd compiled)
  /\ fileNameToLastModTime (snd compiled) = fileNameToLastModTime st
  /\ (forall p, p <> artifactOf (FileName args) -> p <> visualisationOf (FileName args) ->
                fsys (snd compiled) !! p = fsys st !! p).
Proof.
  intros Hf Hw compiled. subst compiled. split; [|split].
  - unfold runCmd. rewrite Hw. simpl.
    destruct (String.eqb_spec (FileName args) ""); [contradiction|]. simpl.
    unfold generatorOptions.
    destruct (processSingleFile _ _ _ _ _ _ _). reflexivity.
  - apply frames_processSingleFile.
  - intros p H1 H2. rewrite processSingleFile_fsys.
    apply (generate_fsys (host_tc host) (host_os host)); assumption.
Qed.

(** ** The run loop: the version warning and the reload *)

Lemma consultScheduler_no_warning l changes :
  List.filter (fun e => negb (isVersionWarning e)) (fst (consultScheduler l changes))
  = fst (consultScheduler l changes).
Proof.
  unfold consultScheduler. destruct (firstRunComplete l); [|reflexivity].
  destruct (NextBackOff _) as [d b2]. destruct (changes >? 0); reflexivity.
Qed.

Lemma afterScan_underOwnManifest host r l changes :
  afterScan host (underOwnManifest r) l changes
  = (fst (consultScheduler l changes), inr (snd (consultScheduler l changes))).
Proof.
  unfold afterScan. simpl. destruct (consultScheduler l changes). reflexivity.
Qed.

Lemma afterScan_gateReturns host r l changes :
  gateReturns host r = true ->
  snd (afterScan host r l changes) = inr (snd (consultScheduler l changes))
  /\ List.filter (fun e => negb (isVersionWarning e)) (fst (afterScan host r l changes))
     = fst (consultScheduler l changes).
Proof.
  unfold gateReturns, afterScan.
  pose proof (consultScheduler_no_warning l changes) as Hs.
  destruct (checkTemplVersion _ _ _ _ _ _) as [[|e|]|]; try discriminate; intros _;
    destruct (consultScheduler l changes) as [evs l']; simpl in *; auto.
Qed.

Lemma loopBody_underOwnManifest host args p r l changes errs :
  gateReturns host r = true ->
  snd (loopBody host args p (underOwnManifest r) l changes errs)
  = snd (loopBody host args p r l changes errs)
  /\ fst (loopBody host args p (underOwnManifest r) l changes errs)
     = List.filter (fun e => negb (isVersionWarning e))
                   (fst (loopBody host args p r l changes errs)).
Proof.
  intros Hg. unfold loopBody. rewrite afterScan_underOwnManifest.
  destruct (afterScan_gateReturns host r l changes Hg) as [Hn Hf].
  destruct (afterScan host r l changes) as [evs' next]. simpl in Hn, Hf. subst next.
  destruct errs as [|e0 rest].
  - simpl. rewrite !List.filter_app, Hf. split; [reflexivity|]. f_equal. f_equal.
    destruct (changes >? 0); [|reflexivity]. simpl.
    destruct (String.eqb (Command args) ""), p, (firstRunComplete l); reflexivity.
  - destruct (GoErrors.IsCanceled e0); [split; reflexivity|].
    destruct (Watch args); simpl; [|split; reflexivity].
    rewrite !List.filter_app, Hf. split; [reflexivity|]. f_equal. f_equal.
    destruct (changes >? 0); [|reflexivity]. simpl.
    destruct (String.eqb (Command args) ""), p, (firstRunComplete l); reflexivity.
Qed.

(** X15.  A failed version check is a warning and nothing else:
    a run in which the check returns in every turn, with or without an
    error, ends as the same run under a manifest that passes, in the same
    state, after the same events but for the warnings. *)
Theorem version_warning_changes_nothing_else
  (host : Host) (args : Args) (p : bool) (rounds : list Round) :
  Forall (fun r => gateReturns host r = true) rounds ->
  forall (l : Loop) (st : State),
    let run := runLoop host args p rounds l st in
    let passing := runLoop host args p (List.map underOwnManifest rounds) l st in
    snd (fst passing) = snd (fst run)
    /\ snd passing = snd run
    /\ fst (fst passing)
       = List.filter (fun e => negb (isVersionWarning e)) (fst (fst run)).
Proof.
  induction 1 as [|r rounds Hr _ IH]; intros l st; simpl.
  - destruct (negb (negb (firstRunComplete l) || Watch args)); simpl; auto.
  - destruct (negb (negb (firstRunComplete l) || Watch args)); simpl; [auto|].
    destruct (processChanges _ _ _ _ _) as [[changes errs] st1].
    destruct (loopBody_underOwnManifest host args p r l changes errs Hr) as [Hs Hf].
    destruct (loopBody host args p (underOwnManifest r) l changes errs) as [evs1 next1].
    destruct (loopBody host args p r l changes errs) as [evs2 next2].
    simpl in Hs, Hf. subst next1 evs1.
    destruct next2 as [out|l']; simpl; [auto|].
    specialize (IH l' st1). simpl in IH.
    destruct (runLoop host args p (List.map underOwnManifest rounds) l' st1)
      as [[evs3 out3] st3].
    destruct (runLoop host args p rounds l' st1) as [[evs4 out4] st4].
    simpl in *. destruct IH as (-> & -> & ->).
    rewrite List.filter_app. auto.
Qed.

(** An event that says nothing of the reload. *)
Lemma reloadOk_app_neutral command changes errs evs rest :
  Forall (fun e => match e with
                   | ErrorLogged _ | VersionWarning _ | BackoffReset | Slept _ => True
                   | _ => False
                   end) evs ->
  reloadOk command changes errs rest ->
  reloadOk command changes errs (evs ++ rest).
Proof.
  induction 1 as [|e evs He _ IH]; intros Hrest; [exact Hrest|].
  destruct e; try contradiction; simpl; apply IH; exact Hrest.
Qed.

Lemma consultScheduler_neutral l changes :
  Forall (fun e => match e with
                   | ErrorLogged _ | VersionWarning _ | BackoffReset | Slept _ => True
                   | _ => False
                   end) (fst (consultScheduler l changes)).
Proof.
  unfold consultScheduler. destruct (firstRunComplete l); [|constructor].
  destruct (NextBackOff _) as [d b2]. destruct (changes >? 0); simpl; repeat constructor.
Qed.

Lemma afterScan_neutral host r l changes :
  Forall (fun e => match e with
                   | ErrorLogged _ | VersionWarning _ | BackoffReset | Slept _ => True
                   | _ => False
                   end) (fst (afterScan host r l changes)).
Proof.
  unfold afterScan. pose proof (consultScheduler_neutral l changes) as Hs.
  destruct (checkTemplVersion _ _ _ _ _ _) as [[|e|]|]; try constructor;
    destruct (consultScheduler l changes) as [evs l']; simpl in *; try exact Hs.
  constructor; [exact I|exact Hs].
Qed.

Lemma loopBody_reloadOk host args p r l changes errs command0 changes0 errs0 rest :
  reloadOk (Command args) changes errs rest ->
  command0 = Command args ->
  reloadOk command0 changes0 errs0 (fst (loopBody host args p r l changes errs) ++ rest).
Proof.
  intros Hrest ->. unfold loopBody.
  assert (Hon : forall tail,
             reloadOk (Command args) changes errs tail ->
             reloadOk (Command args) changes errs
               ((if changes >? 0
                 then [Summary (match errs with [] => Success | _ => Failure end)
                               changes (Z.of_nat (List.length errs))]
                      ++ (if String.eqb (Command args) "" then []
                          else [CommandRun (Command args)])
                      ++ (if p then [SentSSE "message" "reload"] else [])
                      ++ (if negb (firstRunComplete l) && p
                          then [ProxyListenStarted; BrowserOpenStarted] else [])
                 else []) ++ tail)).
  { intros tail Htail. destruct (Z.gtb_spec changes 0) as [Hpos|_]; [|exact Htail].
    simpl. repeat split; try assumption.
    destruct (String.eqb_spec (Command args) "") as [_|Hcmd]; simpl.
    - destruct p; simpl; [|rewrite andb_false_r; exact Htail].
      repeat split; try assumption.
      destruct (firstRunComplete l); simpl; repeat split; assumption.
    - repeat split; try assumption.
      destruct p; simpl; [|rewrite andb_false_r; exact Htail].
      repeat split; try assumption.
      destruct (firstRunComplete l); simpl; repeat split; assumption. }
  pose proof (afterScan_neutral host r l changes) as Hneutral.
  destruct errs as [|e0 es].
  - destruct (afterScan host r l changes) as [evs' next]. simpl in Hneutral.
    cbn [fst app]. rewrite <- !app_assoc. simpl.
    apply Hon. apply reloadOk_app_neutral; assumption.
  - destruct (GoErrors.IsCanceled e0); [exact Hrest|].
    destruct (Watch args); cbn [negb]; [|exact Hrest].
    destruct (afterScan host r l changes) as [evs' next]. simpl in Hneutral.
    cbn [fst app]. rewrite <- !app_assoc. simpl.
    apply Hon. apply reloadOk_app_neutral; assumption.
Qed.

Lemma runLoop_reloadOk host args p rounds :
  forall l st changes errs,
    reloadOk (Command args) changes errs (fst (fst (runLoop host args p rounds l st))).
Proof.
  induction rounds as [|r rounds IH]; intros l st changes errs; simpl.
  - destruct (negb (negb (firstRunComplete l) || Watch args)); exact I.
  - destruct (negb (negb (firstRunComplete l) || Watch args)); [exact I|].
    destruct (processChanges _ _ _ _ _) as [[c es] st1].
    pose proof (loopBody_reloadOk host args p r l c es (Command args) changes errs) as Hb.
    destruct (loopBody host args p r l c es) as [evs [out|l']].
    + simpl in *. specialize (Hb [] I eq_refl). rewrite app_nil_r in Hb. exact Hb.
    + specialize (IH l' st1 c es).
      destruct (runLoop host args p rounds l' st1) as [[evs' out] st']. simpl in *.
      apply Hb; [exact IH|reflexivity].
Qed.

Lemma loopBody_counts host args p r l changes errs :
  let evs := fst (loopBody host args p r l changes errs) in
  List.length (List.filter isCommandRun evs)
  = (if String.eqb (Command args) "" then O else List.length (List.filter isSummary evs))
  /\ List.length (List.filter isSentSSE evs)
     = (if p then List.length (List.filter isSummary evs) else O).
Proof.
  assert (Hafter : forall f,
             (forall e, f e = true ->
                        match e with
                        | ErrorLogged _ | VersionWarning _ | BackoffReset | Slept _ => False
                        | _ => True
                        end) ->
             List.filter f (fst (afterScan host r l changes)) = []).
  { intros f Hf. pose proof (afterScan_neutral host r l changes) as Hn.
    induction Hn as [|e evs He _ IH]; [reflexivity|]. simpl.
    destruct (f e) eqn:Hfe; [|exact IH].
    specialize (Hf e Hfe). destruct e; contradiction. }
  pose proof (Hafter isCommandRun ltac:(intros []; simpl; auto; discriminate)) as H1.
  pose proof (Hafter isSentSSE ltac:(intros []; simpl; auto; discriminate)) as H2.
  pose proof (Hafter isSummary ltac:(intros []; simpl; auto; discriminate)) as H3.
  unfold loopBody.
  destruct (afterScan host r l changes) as [evs' next]. simpl in H1, H2, H3.
  destruct errs as [|e0 es].
  - cbn [fst]. simpl. rewrite !List.filter_app, H1, H2, H3, !app_nil_r.
    destruct (changes >? 0); simpl;
      destruct (String.eqb (Command args) ""), p, (firstRunComplete l); simpl; auto.
  - destruct (GoErrors.IsCanceled e0); simpl;
      [destruct (String.eqb (Command args) ""), p; auto|].
    destruct (Watch args); simpl;
      [|destruct (String.eqb (Command args) ""), p; auto].
    rewrite !List.filter_app, H1, H2, H3, !app_nil_r.
    destruct (changes >? 0); simpl;
      destruct (String.eqb (Command args) ""), p, (firstRunComplete l); simpl; auto.
Qed.

Lemma runLoop_counts host args p rounds :
  forall l st,
    let evs := fst (fst (runLoop host args p rounds l st)) in
    List.length (List.filter isCommandRun evs)
    = (if String.eqb (Command args) "" then O else List.length (List.filter isSummary evs))
    /\ List.length (List.filter isSentSSE evs)
       = (if p then List.length (List.filter isSummary evs) else O).
Proof.
  induction rounds as [|r rounds IH]; intros l st; simpl.
  - destruct (negb (negb (firstRunComplete l) || Watch args)); simpl;
      destruct (String.eqb (Command args) ""), p; auto.
  - destruct (negb (negb (firstRunComplete l) || Watch args)); simpl;
      [destruct (String.eqb (Command args) ""), p; auto|].
    destruct (processChanges _ _ _ _ _) as [[c es] st1].
    pose proof (loopBody_counts host args p r l c es) as Hb.
    destruct (loopBody host args p r l c es) as [evs [out|l']]; [exact Hb|].
    specialize (IH l' st1).
    destruct (runLoop host args p rounds l' st1) as [[evs' out] st']. simpl in *.
    rewrite !List.filter_app, !length_app.
    destruct Hb as [Hb1 Hb2], IH as [IH1 IH2]. rewrite Hb1, Hb2, IH1, IH2.
    destruct (String.eqb (Command args) ""), p; auto.
Qed.

(** X18.  In a run of the command, the summary line, the
    command, the reload event and the start of the proxy come only after a
    scan that found changes and did not end the loop; the summary reports
    the numbers of that scan and says failure exactly when the scan
    returned errors.  With a command given, it runs once per summary; with
    a proxy given, one reload is sent per summary; without, none. *)
Theorem reload_and_command_follow_a_scan_with_changes
  (host : Host) (args : Args) (rounds : list Round) (st : State) :
  let evs := fst (fst (runCmd host args rounds st)) in
  reloadOk (Command args) 0 [] evs
  /\ List.length (List.filter isCommandRun evs)
     = (if String.eqb (Command args) "" then O
        else List.length (List.filter isSummary evs))
  /\ List.length (List.filter isSentSSE evs)
     = (if String.eqb (Proxy args) "" then O
        else List.length (List.filter isSummary evs)).
Proof.
  assert (Hnone : reloadOk (Command args) 0 [] []
             /\ List.length (List.filter isCommandRun [])
                = (if String.eqb (Command args) "" then O
                   else List.length (List.filter isSummary []))
             /\ List.length (List.filter isSentSSE [])
                = (if String.eqb (Proxy args) "" then O
                   else List.length (List.filter isSummary []))).
  { simpl. destruct (String.eqb (Command args) ""), (String.eqb (Proxy args) ""); auto. }
  destruct (String.eqb_spec (FileName args) "") as [Hf|Hf].
  2:{ unfold runCmd. destruct (String.eqb_spec (FileName args) ""); [contradiction|].
      destruct (Watch args); simpl; [exact Hnone|].
      destruct (processSingleFile _ _ _ _ _ _ _). exact Hnone. }
  destruct (proxyError host args) as [pe|] eqn:Hp.
  { unfold runCmd. rewrite Hf, andb_false_r. simpl. unfold proxyError in Hp. rewrite Hp.
    exact Hnone. }
  destruct (absolutePath host args) as [ae|path] eqn:Ha.
  { unfold runCmd. rewrite Hf, andb_false_r. simpl.
    unfold proxyError in Hp. unfold absolutePath in Ha. rewrite Hp, Ha.
    exact Hnone. }
  rewrite (runCmd_loop host args rounds st path Hf Hp Ha).
  pose proof (runLoop_reloadOk host (withDefaults host args path)
                (negb (String.eqb (Proxy args) "")) rounds (initialLoop host) st 0 []) as Hr.
  pose proof (runLoop_counts host (withDefaults host args path)
                (negb (String.eqb (Proxy args) "")) rounds (initialLoop host) st)
    as [Hc1 Hc2].
  cbn [Command withDefaults] in Hr, Hc1.
  split; [exact Hr|]. split; [exact Hc1|].
  rewrite Hc2. destruct (String.eqb (Proxy args) ""); reflexivity.
Qed.


Lemma runLoop_done host args p rounds l st :
  Watch args = false -> firstRunComplete l = true ->
  runLoop host args p rounds l st = ([], Returned None, st).
Proof. intros Hw Hl. destruct rounds; simpl; rewrite Hw, Hl; reflexivity. Qed.

(** X22.  Without [-watch], with a worker count of one or more (a
    negative one makes [make] panic at the head of the scan, and with none
    the first changed file waits for a slot for ever), in every place where
    the version check returns, the command makes one scan, with no delay,
    and [Run] returns nil exactly when that scan returned no error or a
    cancellation as its first error; otherwise it returns the error
    "failed to process path: " followed by the texts of all the errors of
    the scan.  The state it leaves is the one the scan left. *)
Theorem generate_once_fails_exactly_on_a_scan_error
  (host : Host) (args : Args) (r : Round) (rounds : list Round) (st : State)
  (path : string) :
  Watch args = false ->
  FileName args = "" ->
  proxyError host args = None ->
  absolutePath host args = inr path ->
  1 <= maxWorkerCount (scanConfig host (withDefaults host args path)) ->
  gateReturns host r = true ->
  let scan := processChanges (round_tc r) (round_os r)
                (scanConfig host (withDefaults host args path)) (root r)
                (set_fsys (outside r (fsys st)) st) in
  let errs := snd (fst scan) in
  let run := Run host args (r :: rounds) st in
  snd (fst run)
  = Returned (match errs with
              | [] => None
              | e0 :: _ =>
                  if GoErrors.IsCanceled e0 then None
                  else Some (errorString ("failed to process path: "
                                          +:+ GoErrors.Error (GoErrors.Join errs)))
              end)
  /\ snd run = snd scan
  /\ List.filter isSchedule (fst (fst run)) = [Scanned (fst (fst scan)) errs].
Proof.
  intros Hw Hf Hp Ha _ Hgate scan errs run. subst run errs. unfold Run.
  rewrite (runCmd_loop host args _ st path Hf Hp Ha), runLoop_first_turn. fold scan.
  unfold loopBody. cbn [Watch withDefaults]. rewrite Hw. cbn [negb].
  destruct (snd (fst scan)) as [|e0 es] eqn:Herrs.
  - assert (Hafter : snd (afterScan host r (initialLoop host) (fst (fst scan)))
                     = inr (mkLoop true (bo (initialLoop host)))
                     /\ List.filter isSchedule
                          (fst (afterScan host r (initialLoop host) (fst (fst scan)))) = []).
    { unfold gateReturns in Hgate. unfold afterScan.
      destruct (checkTemplVersion _ _ _ _ _ _) as [[|e|]|]; try discriminate;
        split; reflexivity. }
    destruct Hafter as [Hnext Hevs].
    destruct (afterScan host r (initialLoop host) (fst (fst scan))) as [evs' next].
    simpl in Hnext, Hevs. subst next.
    rewrite (runLoop_done host (withDefaults host args path) _ rounds
               (mkLoop true (bo (initialLoop host))) _ Hw eq_refl).
    cbn [fst snd app].
    split; [reflexivity|]. split; [reflexivity|].
    rewrite app_nil_r. cbn [List.filter isSchedule]. f_equal.
    rewrite List.filter_app, Hevs, app_nil_r.
    destruct (fst (fst scan) >? 0); [|reflexivity]. simpl.
    destruct (String.eqb (Command args) ""), (negb (String.eqb (Proxy args) ""));
      reflexivity.
  - destruct (GoErrors.IsCanceled e0) eqn:Hc; cbn [fst snd]; [rewrite Hc|];
      repeat split; reflexivity.
Qed.
(** ** The worker pool: every scan ends, and what it has compiled *)

Lemma exec_app a : forall b p,
  exec (a ++ b) p = match exec a p with Some p' => exec b p' | None => None end.
Proof.
  induction a as [|s a IH]; intros b p; simpl; [reflexivity|].
  destruct (step s p); [apply IH|reflexivity].
Qed.

(** X19.  With room for one worker or more, the goroutines of a
    scan never deadlock: in every state they can reach, short of the return
    of [processChanges], some goroutine can take a step; every such state
    can be led to the return; and no execution is longer than six steps per
    changed file and two. *)
Theorem worker_pool_never_deadlocks
  (W : Z) (changed : list string) (steps : list Step) (p : Pool) :
  1 <= W ->
  exec steps (startPool W changed) = Some p ->
  (walker p <> ScanReturned -> exists s p', step s p = Some p')
  /\ (exists more p',
        exec (steps ++ more) (startPool W changed) = Some p'
        /\ walker p' = ScanReturned)
  /\ Z.of_nat (List.length steps) <= 6 * Z.of_nat (List.length changed) + 2.
Proof.
  intros HW Hexec. split; [|split].
  - apply (worker_pool_progress W changed steps p HW Hexec).
  - assert (Hgen : forall n steps p,
               (Z.to_nat (rank p) <= n)%nat ->
               exec steps (startPool W changed) = Some p ->
               exists more p',
                 exec (steps ++ more) (startPool W changed) = Some p'
                 /\ walker p' = ScanReturned).
    { clear steps p Hexec. induction n as [|n IH]; intros steps p Hn Hexec.
      - destruct (walker p) eqn:Hw;
          try (exists [], p; rewrite app_nil_r; split; [exact Hexec|exact Hw]);
          pose proof (rank_nonneg p) as H0; unfold rank in *; rewrite Hw in *;
          simpl in *; pose proof (rank_nonneg (mkPool 0 0 0 ScanReturned (workers p) []));
          unfold rank in *; simpl in *; lia.
      - destruct (walker p) eqn:Hw;
          try (exists [], p; rewrite app_nil_r; split; [exact Hexec|exact Hw]);
          (destruct (worker_pool_progress W changed steps p HW Hexec) as (s & p1 & Hs);
           [rewrite Hw; discriminate|];
           pose proof (step_rank _ _ _ Hs) as Hr; pose proof (rank_nonneg p1);
           destruct (IH (steps ++ [s]) p1) as (more & p' & Hm & Hret);
           [lia|rewrite exec_app, Hexec; simpl; rewrite Hs; reflexivity|];
           exists (s :: more), p'; split; [|exact Hret];
           rewrite <- Hm, <- app_assoc; reflexivity). }
    apply (Hgen (Z.to_nat (rank p)) steps p); [lia|exact Hexec].
  - apply (worker_pool_terminates W changed steps p Hexec).
Qed.

Lemma fileOf_insert (ws : list WorkerAt) i w w' :
  ws !! i = Some w -> fileOf w' = fileOf w ->
  fileOf <$> <[i := w']> ws = fileOf <$> ws.
Proof.
  intros Hi Hf. rewrite list_fmap_insert, Hf. apply list_insert_id.
  rewrite list_lookup_fmap, Hi. reflexivity.
Qed.

Lemma step_accounted changed met s p p' :
  accounted changed met p -> step s p = Some p' ->
  exists met',
    accounted changed met' p'
    /\ List.length met' = (List.length met + if isSendOnSem s then 1 else 0)%nat.
Proof.
  intros [(rest & Hch & Htodo) Hperm] Hstep.
  destruct s; simpl in Hstep.
  - destruct (walker p) as [[|f todo]| | | |] eqn:Hw; try discriminate.
    destruct (sem p <? capacity p); [|discriminate]. injection Hstep as <-.
    exists (met ++ [f]). split; [|rewrite length_app; reflexivity].
    split; simpl.
    + exists todo. rewrite (Htodo _ eq_refl) in Hch. rewrite <- app_assoc.
      split; [exact Hch|]. intros ? [= <-]. reflexivity.
    + simpl in Hperm. rewrite <- Hperm. apply Permutation_cons_append.
  - destruct (walker p) as [| f todo | | |] eqn:Hw; try discriminate.
    injection Hstep as <-. exists met. split; [|simpl; lia].
    split; simpl; [exists rest; split; [exact Hch|exact Htodo]|exact Hperm].
  - destruct (walker p) as [| | f todo | |] eqn:Hw; try discriminate.
    injection Hstep as <-. exists met. split; [|simpl; lia].
    split; simpl; [exists rest; split; [exact Hch|exact Htodo]|].
    rewrite fmap_app. simpl. simpl in Hperm. rewrite <- Hperm.
    rewrite <- app_assoc. simpl. symmetry. apply Permutation_middle.
  - destruct (walker p) as [todo| | | |] eqn:Hw; try discriminate.
    injection Hstep as <-. exists met. split; [|simpl; lia].
    split; simpl; [exists rest; split; [exact Hch|discriminate]|exact Hperm].
  - destruct (workers p !! i) as [[f|f|f]|] eqn:Hi; try discriminate.
    injection Hstep as <-. exists met. split; [|simpl; lia].
    split; simpl; [exists rest; split; [exact Hch|exact Htodo]|].
    rewrite (fileOf_insert _ i _ (BeforeReceive f) Hi eq_refl). exact Hperm.
  - destruct (workers p !! i) as [[f|f|f]|] eqn:Hi; try discriminate.
    destruct (0 <? sem p); [|discriminate].
    injection Hstep as <-. exists met. split; [|simpl; lia].
    split; simpl; [exists rest; split; [exact Hch|exact Htodo]|].
    rewrite (fileOf_insert _ i _ (BeforeDone f) Hi eq_refl). exact Hperm.
  - destruct (workers p !! i) as [[f|f|f]|] eqn:Hi; try discriminate.
    injection Hstep as <-. exists met. split; [|simpl; lia].
    split; simpl; [exists rest; split; [exact Hch|exact Htodo]|].
    rewrite <- Hperm. apply Permutation_app_head.
    rewrite (delete_Permutation (fileOf <$> workers p) i f)
      by (rewrite list_lookup_fmap, Hi; reflexivity).
    rewrite list_fmap_delete. rewrite app_assoc.
    rewrite <- Permutation_cons_append. reflexivity.
  - destruct (walker p) as [| | | |] eqn:Hw; try discriminate.
    destruct (wg p =? 0); [|discriminate].
    injection Hstep as <-. exists met. split; [|simpl; lia].
    split; simpl; [exists rest; split; [exact Hch|discriminate]|exact Hperm].
Qed.

Lemma exec_accounted changed steps : forall met p p',
  accounted changed met p -> exec steps p = Some p' ->
  exists met',
    accounted changed met' p'
    /\ List.length met'
       = (List.length met + List.length (List.filter isSendOnSem steps))%nat.
Proof.
  induction steps as [|s steps IH]; intros met p p' Hacc Hexec; simpl in Hexec.
  - injection Hexec as <-. exists met. split; [exact Hacc|simpl; lia].
  - destruct (step s p) as [p1|] eqn:Hs; [|discriminate].
    destruct (step_accounted _ _ _ _ _ Hacc Hs) as (met1 & Hacc1 & Hlen1).
    destruct (IH _ _ _ Hacc1 Hexec) as (met' & Hacc' & Hlen').
    exists met'. split; [exact Hacc'|]. simpl.
    destruct (isSendOnSem s); simpl; lia.
Qed.

(** X20.  When [processChanges] returns, the files whose workers
    have ended are exactly the files the traversal has sent on the semaphore
    for, each once: the first of the changed files, as many as there were
    sends; all of them when the traversal was not cut short. *)
Theorem worker_pool_compiles_each_file_once
  (W : Z) (changed : list string) (steps : list Step) (p : Pool) :
  1 <= W ->
  exec steps (startPool W changed) = Some p ->
  walker p = ScanReturned ->
  (exists met rest,
     changed = met ++ rest
     /\ finished p ≡ₚ met
     /\ List.length met = List.length (List.filter isSendOnSem steps))
  /\ (List.length (List.filter isSendOnSem steps) = List.length changed ->
      finished p ≡ₚ changed).
Proof.
  intros HW Hexec Hret.
  assert (Hstart : accounted changed [] (startPool W changed)).
  { split; simpl; [|reflexivity]. exists changed. split; [reflexivity|].
    intros ? [= <-]. reflexivity. }
  destruct (exec_accounted changed steps [] _ _ Hstart Hexec)
    as (met & [(rest & Hch & _) Hperm] & Hlen).
  pose proof (exec_invariant steps _ _ (startPool_invariant W changed ltac:(lia)) Hexec)
    as (_ & _ & Hwg & Hzero).
  specialize (Hzero Hret). rewrite Hret in Hwg, Hperm. simpl in Hwg, Hperm.
  assert (Hnil : workers p = []).
  { destruct (workers p); [reflexivity|simpl in Hwg; lia]. }
  rewrite Hnil in Hperm. simpl in Hperm. simpl in Hlen.
  split.
  - exists met, rest. auto.
  - intros Hall. rewrite Hperm.
    assert (rest = []) as ->.
    { apply (f_equal List.length) in Hch. rewrite length_app in Hch.
      destruct rest; [reflexivity|simpl in Hch; lia]. }
    rewrite app_nil_r in Hch. subst. reflexivity.
Qed.

(** ** Waiting for the proxy target *)

Section OpenURLFacts.

Context {B : Type}.
Variable nextBackOff : B -> Z * B.

(** X21.  [openURL] asks the target until it answers: after each
    call that fails it logs and sleeps the next delay of the scheduler, and
    after the first call that succeeds it opens the browser, once, and
    returns what that returns.  While no call has succeeded the browser is
    not opened and the function has not returned. *)
Theorem openURL_retries_until_the_target_answers
  (k : nat) (later : list bool) (opened : option error) (b : B) :
  openURL nextBackOff (List.repeat false k ++ true :: later) opened b
  = (List.concat (List.map retry (delays nextBackOff k b)) ++ [Got true; BrowserOpened],
     Some opened)
  /\ openURL nextBackOff (List.repeat false k) opened b
     = (List.concat (List.map retry (delays nextBackOff k b)), None).
Proof.
  revert b. induction k as [|k IH]; intros b; simpl; [split; reflexivity|].
  destruct (nextBackOff b) as [d b']. destruct (IH b') as [-> ->]. split; reflexivity.
Qed.

End OpenURLFacts.


(** ** The theorems on the example project *)

(** The reaper on the orphan of the example project: its source is gone,
    retain-orphans is unset, and the artifact goes away. *)
Lemma orphan_callback_example :
  ctx_Err (ctx (freshState exampleFS)) = (None, None)
  /\ GoStrings.HasSuffix "/proj/old_templ.go" "_templ.go" = true
  /\ fsys (fst (visit exampleToolchain plainOS (exampleConfig false false)
                  (freshState exampleFS) "/proj/old_templ.go"
                  (Some (NFile (InfoOk 1))) None))
       !! "/proj/old_templ.go" = None.
Proof.
  split; [reflexivity|]. split; [reflexivity|].
  destruct (orphan_callback exampleToolchain plainOS (exampleConfig false false)
              (freshState exampleFS) "/proj/old_templ.go" (InfoOk 1) None
              eq_refl eq_refl) as [_ Hunset].
  destruct (Hunset eq_refl) as (_ & _ & Hiff).
  apply Hiff.
  - exists (IFile "package gone"). reflexivity.
  - split; [discriminate|reflexivity].
Defined.

(** The detector on the example project: a second scan, of the tree as
    the first scan left it, finds nothing, and a file at its recorded time
    is left alone; where the orphaned artifact cannot be removed, the scan
    is cut short there, and the scan after it finds nothing. *)
Lemma change_detector_witness :
  let cfg := exampleConfig false false in
  let first := processChanges exampleToolchain plainOS cfg (RootNode exampleTree)
                 (freshState exampleFS) in
  (GoStrings.HasSuffix "/proj/a.templ" ".templ" = true
   /\ 5 <= lastModTime (fileNameToLastModTime (snd first)) "/proj/a.templ"
   /\ fst (visit exampleToolchain plainOS cfg (snd first) "/proj/a.templ"
             (Some (NFile (InfoOk 5))) None)
      = snd (checkCtx (snd first)))
  /\ (snd (traverse exampleToolchain plainOS cfg (RootNode exampleTree)
             (freshState exampleFS)) = None
      /\ incl (sourcesOf "/proj" exampleTreeAfter) (sourcesOf "/proj" exampleTree)
      /\ fst (fst (processChanges exampleToolchain plainOS (exampleConfig true true)
                     (RootNode exampleTreeAfter) (snd first))) = 0)
  /\ (let cut := processChanges exampleToolchain stubbornOrphanOS cfg
                   (RootNode exampleTree) (freshState exampleFS) in
      fst (fst cut) = 2
      /\ snd (traverse exampleToolchain stubbornOrphanOS cfg (RootNode exampleTree)
                (freshState exampleFS))
         = Some (GoErrors.Errorf_w "failed to remove file: "
                   (errorString "remove /proj/old_templ.go: operation not permitted"))
      /\ fst (fst (processChanges exampleToolchain stubbornOrphanOS cfg
                     (RootNode exampleTree) (snd cut))) = 0)
  /\ lastModTime (fileNameToLastModTime (freshState exampleFS)) "/proj/a.templ"
     <= lastModTime (fileNameToLastModTime (snd first)) "/proj/a.templ".
Proof.
  intros cfg first.
  destruct change_detector_is_idempotent_and_monotone
    as (Hsame & Hidem & Hagain & Hscan & _).
  assert (Hcut : snd (traverse exampleToolchain stubbornOrphanOS cfg (RootNode exampleTree)
                        (freshState exampleFS))
                 = Some (GoErrors.Errorf_w "failed to remove file: "
                           (errorString "remove /proj/old_templ.go: operation not permitted")))
    by (vm_compute; reflexivity).
  assert (Hrec : 5 <= lastModTime (fileNameToLastModTime (snd first)) "/proj/a.templ")
    by (vm_compute; discriminate).
  assert (Hdone : snd (traverse exampleToolchain plainOS cfg (RootNode exampleTree)
                         (freshState exampleFS)) = None)
    by (vm_compute; reflexivity).
  assert (Hincl : incl (sourcesOf "/proj" exampleTreeAfter) (sourcesOf "/proj" exampleTree)).
  { intros x Hx. vm_compute in Hx |- *. tauto. }
  split; [|split; [|split]].
  - split; [reflexivity|]. split; [exact Hrec|].
    destruct (Hsame exampleToolchain plainOS cfg (snd first) "/proj/a.templ" 5
                eq_refl Hrec) as [Hvisit _].
    exact Hvisit.
  - split; [exact Hdone|]. split; [exact Hincl|].
    destruct (Hidem exampleToolchain plainOS cfg exampleTree (freshState exampleFS)
                Hdone exampleToolchain plainOS (exampleConfig true true)
                exampleTreeAfter (snd first) eq_refl eq_refl Hincl) as [Hzero _].
    exact Hzero.
  - split; [vm_compute; reflexivity|]. split; [exact Hcut|].
    destruct (Hagain exampleToolchain stubbornOrphanOS cfg (RootNode exampleTree)
                (freshState exampleFS) _ Hcut exampleToolchain cfg
                (snd (processChanges exampleToolchain stubbornOrphanOS cfg
                        (RootNode exampleTree) (freshState exampleFS)))
                eq_refl eq_refl (resumes_refl _)) as [Hzero _].
    exact Hzero.
  - exact (Hscan exampleToolchain plainOS cfg (RootNode exampleTree)
             (freshState exampleFS) "/proj/a.templ").
Defined.


(** Two changed files through a pool of one slot. *)
Lemma worker_pool_witness :
  1 <= 1
  /\ exec exampleSchedule (startPool 1 ["/proj/a.templ"; "/proj/b.templ"])
     = Some (mkPool 1 0 0 ScanReturned [] ["/proj/a.templ"; "/proj/b.templ"])
  /\ compiling (mkPool 1 0 0 ScanReturned [] ["/proj/a.templ"; "/proj/b.templ"]) <= 1.
Proof.
  split; [lia|]. split; [reflexivity|].
  apply (worker_pool_is_bounded 1 ["/proj/a.templ"; "/proj/b.templ"] exampleSchedule
           (mkPool 1 0 0 ScanReturned [] ["/proj/a.templ"; "/proj/b.templ"])
           ltac:(lia) eq_refl).
Defined.

(** The delays of a watch over the example project, growing by one half. *)
Lemma backoff_scheduler_witness :
  let evs := fst (fst (runCmd exampleHost (exampleArgs true "")
                         [exampleRound exampleTree; exampleRound exampleTreeAfter;
                          exampleRound exampleTreeAfter; exampleRound exampleTreeAfter]
                         (freshState exampleFS))) in
  0 < snd (backoff_Multiplier exampleHost) <= fst (backoff_Multiplier exampleHost)
  /\ List.filter isSlept evs = [Slept 500; Slept 750; Slept 1125]
  /\ scheduleOk 500 true 0 evs
  /\ (forall pre d post, evs = pre ++ Slept d :: post -> 500 <= d <= 3000).
Proof.
  intros evs.
  assert (Hmult : 0 < snd (backoff_Multiplier exampleHost)
                  <= fst (backoff_Multiplier exampleHost)) by (simpl; lia).
  split; [exact Hmult|]. split; [vm_compute; reflexivity|].
  destruct (backoff_scheduler exampleHost (exampleArgs true "")
              [exampleRound exampleTree; exampleRound exampleTreeAfter;
               exampleRound exampleTreeAfter; exampleRound exampleTreeAfter]
              (freshState exampleFS) Hmult) as (Hschedule & Hbounds & _).
  split; [exact Hschedule|exact Hbounds].
Defined.

(** The delays of that watch. *)
Example watch_delays :
  List.filter isSlept
    (fst (fst (runCmd exampleHost (exampleArgs true "")
                 [exampleRound exampleTree; exampleRound exampleTreeAfter;
                  exampleRound exampleTreeAfter; exampleRound exampleTreeAfter;
                  exampleRound exampleTreeAfter; exampleRound exampleTreeAfter;
                  exampleRound exampleTreeAfter]
                 (freshState exampleFS))))
  = [Slept 500; Slept 750; Slept 1125; Slept 1687; Slept 2530; Slept 3000].
Proof. vm_compute. reflexivity. Qed.

(** One scan of the example project: the orphan is deleted with a warning
    and no error for it; with retain-orphans set it stays. *)
Example orphan_scenario :
  let scan keep := processChanges exampleToolchain plainOS (exampleConfig keep false)
                     (RootNode exampleTree) (freshState exampleFS) in
  fsys (snd (scan false)) !! "/proj/old_templ.go" = None
  /\ In (Log Warning "Deleted orphaned file /proj/old_templ.go") (trace (snd (scan false)))
  /\ snd (fst (scan false))
     = [wrapError "/proj/b.templ parsing error: " (errorString "unexpected token")]
  /\ fsys (snd (scan true)) !! "/proj/old_templ.go" = Some (IFile "package gone")
  /\ fsys (snd (scan false)) !! "/proj/a_templ.go" = Some (IFile "package main").
Proof. vm_compute. repeat split; try reflexivity. tauto. Qed.
(** ** More theorems on the example project *)

(** The pipeline on the first source of the example project: the second
    source and the vendored directory are left alone, and no visualisation
    is written when none is asked for. *)
Lemma generate_writes_only_its_outputs_witness :
  let st := freshState exampleFS in
  let st' := snd (generate exampleToolchain plainOS "" "/proj/a.templ" false [] st) in
  "/proj/b.templ" <> artifactOf "/proj/a.templ"
  /\ "/proj/b.templ" <> visualisationOf "/proj/a.templ"
  /\ fsys st' !! "/proj/b.templ" = fsys st !! "/proj/b.templ"
  /\ fsys st' !! "/proj/a.templ" = fsys st !! "/proj/a.templ"
  /\ fsys st' !! visualisationOf "/proj/a.templ" = fsys st !! visualisationOf "/proj/a.templ"
  /\ is_Some (fsys st' !! "/proj/vendor").
Proof.
  intros st st'.
  destruct (generate_writes_only_its_outputs exampleToolchain plainOS "" "/proj/a.templ"
              false [] st) as (Hother & Hself & Hvis & Hkept).
  assert (H1 : "/proj/b.templ" <> artifactOf "/proj/a.templ") by (vm_compute; discriminate).
  assert (H2 : "/proj/b.templ" <> visualisationOf "/proj/a.templ")
    by (vm_compute; discriminate).
  split; [exact H1|]. split; [exact H2|]. split; [exact (Hother _ H1 H2)|].
  split; [exact Hself|]. split; [exact (Hvis eq_refl)|].
  apply Hkept. exists IDir. vm_compute. reflexivity.
Defined.

(** The pipeline on a disk that fills up while the artifact is written: an
    error, and the artifact cut to the seven bytes that reached it. *)
Lemma generate_failure_witness :
  let st := freshState exampleFS in
  let result := generate exampleToolchain fullDiskOS "" "/proj/a.templ" false [] st in
  snd (fst result)
  = Some (wrapError "/proj/a_templ.go write file error: "
            (errorString "write /proj/a_templ.go: no space left on device"))
  /\ fsys (snd result) !! "/proj/a_templ.go" = Some (IFile "package")
  /\ fst (fst result) = [].
Proof.
  intros st result.
  assert (Herr : snd (fst result)
                 = Some (wrapError "/proj/a_templ.go write file error: "
                           (errorString "write /proj/a_templ.go: no space left on device")))
    by (vm_compute; reflexivity).
  split; [exact Herr|].
  destruct (generate_failure_leaves_at_most_a_cut_artifact exampleToolchain fullDiskOS ""
              "/proj/a.templ" false [] st _ Herr)
    as [[Hsame _]|[(t & b & sm & data & n & _ & Hgen & Hfmt & Hn & Hst & Hd)|[Hvis _]]].
  - apply (f_equal (fun s => fsys s !! "/proj/a_templ.go")) in Hsame.
    vm_compute in Hsame. discriminate.
  - split; [|exact Hd]. fold result in Hst. rewrite Hst.
    vm_compute in Hn. injection Hn as <-.
    vm_compute in Hgen. injection Hgen as <- <-.
    vm_compute in Hfmt. injection Hfmt as <-.
    vm_compute. reflexivity.
  - discriminate.
Defined.


(** The report on the two sources of the example project: a success line
    for the first, nothing for the second. *)
Lemma processSingleFile_reports_witness :
  let st := freshState exampleFS in
  let ok := processSingleFile exampleToolchain plainOS "" "/proj/a.templ" false [] st in
  let failed := processSingleFile exampleToolchain plainOS "" "/proj/b.templ" false [] st in
  fst ok = None
  /\ fst failed <> None
  /\ trace (snd ok)
     = trace (snd (generate exampleToolchain plainOS "" "/proj/a.templ" false [] st))
       ++ [Log Success "Generated code for /proj/a.templ"]
  /\ snd failed = snd (generate exampleToolchain plainOS "" "/proj/b.templ" false [] st).
Proof.
  intros st ok failed.
  assert (Hok : fst ok = None) by (vm_compute; reflexivity).
  assert (Hfailed : fst failed <> None) by (vm_compute; discriminate).
  split; [exact Hok|]. split; [exact Hfailed|].
  destruct (processSingleFile_reports_what_generate_returns exampleToolchain plainOS ""
              "/proj/a.templ" false [] st) as (_ & _ & Hline).
  destruct (processSingleFile_reports_what_generate_returns exampleToolchain plainOS ""
              "/proj/b.templ" false [] st) as (_ & Hsilent & _).
  split; [|exact (Hsilent Hfailed)].
  etransitivity; [exact (Hline Hok)|vm_compute; reflexivity].
Defined.

(** The first scan of the example project leaves its sources as they are. *)
Lemma scan_never_touches_a_source_witness :
  GoStrings.HasSuffix "/proj/a.templ" ".templ" = true
  /\ fsys (snd (processChanges exampleToolchain plainOS (exampleConfig false true)
                  (RootNode exampleTree) (freshState exampleFS))) !! "/proj/a.templ"
     = Some (IFile "templ a").
Proof.
  split; [reflexivity|].
  rewrite (scan_never_touches_a_source exampleToolchain plainOS (exampleConfig false true)
             (RootNode exampleTree) (freshState exampleFS) "/proj/a.templ" eq_refl).
  reflexivity.
Defined.

(** The first scan of the example project removes the orphaned artifact,
    and nothing when it is told to keep orphaned files. *)
Lemma scan_removes_only_artifacts_witness :
  let st := freshState exampleFS in
  let st' := snd (processChanges exampleToolchain plainOS (exampleConfig false false)
                    (RootNode exampleTree) st) in
  let kept := snd (processChanges exampleToolchain plainOS (exampleConfig true false)
                     (RootNode exampleTree) st) in
  is_Some (fsys st !! "/proj/old_templ.go")
  /\ fsys st' !! "/proj/old_templ.go" = None
  /\ os_Stat plainOS (fsys st) (sourceOf "/proj/old_templ.go") <> None
  /\ is_Some (fsys kept !! "/proj/old_templ.go").
Proof.
  intros st st' kept.
  assert (Hin : is_Some (fsys st !! "/proj/old_templ.go"))
    by (exists (IFile "package gone"); vm_compute; reflexivity).
  assert (Hout : fsys st' !! "/proj/old_templ.go" = None) by (vm_compute; reflexivity).
  split; [exact Hin|]. split; [exact Hout|].
  destruct (scan_removes_only_artifacts_whose_source_cannot_be_examined
              exampleToolchain plainOS
              (exampleConfig false false) (RootNode exampleTree) st) as [Honly _].
  destruct (scan_removes_only_artifacts_whose_source_cannot_be_examined
              exampleToolchain plainOS
              (exampleConfig true false) (RootNode exampleTree) st) as [_ Hkeep].
  destruct (Honly _ Hin Hout) as (_ & _ & Hstat & _).
  split; [exact Hstat|]. exact (Hkeep eq_refl _ Hin).
Defined.

(** The first scan of the example project: three workers, one error. *)
Lemma scan_counts_witness :
  let result := processChanges exampleToolchain plainOS (exampleConfig false false)
                  (RootNode exampleTree) (freshState exampleFS) in
  snd (traverse exampleToolchain plainOS (exampleConfig false false)
         (RootNode exampleTree) (freshState exampleFS)) = None
  /\ fst (fst result) = 3
  /\ Z.of_nat (List.length (snd (fst result))) <= fst (fst result).
Proof.
  intros result.
  assert (Hdone : snd (traverse exampleToolchain plainOS (exampleConfig false false)
                         (RootNode exampleTree) (freshState exampleFS)) = None)
    by (vm_compute; reflexivity).
  split; [exact Hdone|]. split; [vm_compute; reflexivity|].
  destruct (scan_counts_workers_and_bounds_errors exampleToolchain plainOS
              (exampleConfig false false) (RootNode exampleTree) (freshState exampleFS))
    as (_ & _ & _ & Hbound).
  exact (Hbound Hdone).
Defined.

(** The first scan of the example project starts a worker for each of its
    sources, the vendored one too, in walk order. *)
Lemma completed_scan_witness :
  let cfg := exampleConfig false false in
  let result := processChanges exampleToolchain plainOS cfg (RootNode exampleTree)
                  (freshState exampleFS) in
  snd (traverse exampleToolchain plainOS cfg (RootNode exampleTree)
         (freshState exampleFS)) = None
  /\ NoDup (List.map fst (sourcesOf (scan_path cfg) exampleTree))
  /\ dispatched (trace (snd result))
     = ["/proj/a.templ"; "/proj/b.templ"; "/proj/vendor/lib.templ"]
  /\ fst (fst result) = 3.
Proof.
  intros cfg result.
  assert (Hdone : snd (traverse exampleToolchain plainOS cfg (RootNode exampleTree)
                         (freshState exampleFS)) = None)
    by (vm_compute; reflexivity).
  assert (Hnd : NoDup (List.map fst (sourcesOf (scan_path cfg) exampleTree))).
  { change (NoDup ["/proj/a.templ"; "/proj/b.templ"; "/proj/vendor/lib.templ"]).
    repeat (apply NoDup_cons_2;
            [intros H; apply list_elem_of_In in H; simpl in H; intuition discriminate|]).
    apply NoDup_nil_2. }
  split; [exact Hdone|]. split; [exact Hnd|].
  destruct (completed_scan_compiles_the_newer_sources exampleToolchain plainOS cfg
              exampleTree (freshState exampleFS) Hdone Hnd) as (Hcount & Hstarted & _).
  split; [etransitivity; [exact Hstarted|reflexivity]
         |etransitivity; [exact Hcount|reflexivity]].
Defined.

(** A go.mod that cannot be examined, two directories above the path, ends
    the search: the manifest above it is not looked at. *)
Lemma version_gate_search_witness :
  (2 < 5)%nat
  /\ checkTemplVersion PlainSemver.Compare "v0.2.1" 5 true
       (hd StatFailed (upward 2 StatFailed [Parsed (exampleManifest "v0.2.1")]))
       (tl (upward 2 StatFailed [Parsed (exampleManifest "v0.2.1")]))
     = Some (GateFail ErrStatGoMod)
  /\ checkTemplVersion PlainSemver.Compare "v0.2.1" 5 true
       (hd StatFailed (upward 2 StatFailed [Parsed (exampleManifest "v0.2.1")]))
       (tl (upward 2 StatFailed [Parsed (exampleManifest "v0.2.1")]))
     = checkTemplVersion PlainSemver.Compare "v0.2.1" 5 true
         (hd StatFailed (upward 2 StatFailed []))
         (tl (upward 2 StatFailed [])).
Proof.
  assert (Hfuel : (2 < 5)%nat) by lia.
  destruct (version_gate_stops_at_the_nearest_manifest PlainSemver.Compare "v0.2.1"
              2 StatFailed [Parsed (exampleManifest "v0.2.1")] 5 Hfuel)
    as (Hnearest & Hstat & _).
  split; [exact Hfuel|]. split; [exact (Hstat eq_refl)|].
  apply Hnearest. discriminate.
Defined.

(** The gate under the manifest of a module that does not require this
    tool: it has not returned after a thousand turns. *)
Lemma version_gate_never_returns_witness :
  foundManifest StatNotExist [Parsed foreignManifest] = Some foreignManifest
  /\ Module_Path foreignManifest = Some "example.com/app"
  /\ "example.com/app" <> templModulePath
  /\ declaredVersion (Requires foreignManifest) = None
  /\ checkTemplVersion PlainSemver.Compare "v0.2.1" 1000 true
       StatNotExist [Parsed foreignManifest] = None.
Proof.
  assert (Hother : "example.com/app" <> templModulePath) by discriminate.
  split; [reflexivity|]. split; [reflexivity|]. split; [exact Hother|].
  split; [reflexivity|].
  exact (version_gate_never_returns_without_the_dependency PlainSemver.Compare "v0.2.1"
           StatNotExist [Parsed foreignManifest] foreignManifest "example.com/app"
           eq_refl eq_refl Hother eq_refl 1000%nat).
Defined.

(** The go directive of the example manifest is cut to [go 1.21]. *)
Lemma go_directive_witness :
  noLineStartsWithG ("module example.com/app" +:+ newline) = true
  /\ isNumber "1" = true /\ isNumber "21" = true /\ isNumber "3" = true
  /\ noLineStartsWithG (newline +:+ "require github.com/a-h/templ v0.2.1" +:+ newline)
     = true
  /\ goVersionRegexp_ReplaceAll exampleGoMod
     = ("module example.com/app" +:+ newline)
       +:+ newline +:+ "go " +:+ "1" +:+ "." +:+ "21" +:+ newline
       +:+ (newline +:+ "require github.com/a-h/templ v0.2.1" +:+ newline).
Proof.
  destruct go_directive_is_cut_to_two_numbers as (Hcut & Hquiet & _).
  split; [reflexivity|]. split; [reflexivity|]. split; [reflexivity|].
  split; [reflexivity|]. split; [reflexivity|].
  unfold exampleGoMod.
  rewrite (Hcut ("module example.com/app" +:+ newline) "1" "21" "3"
                (newline +:+ "require github.com/a-h/templ v0.2.1" +:+ newline)
                eq_refl eq_refl eq_refl eq_refl).
  rewrite (Hquiet (newline +:+ "require github.com/a-h/templ v0.2.1" +:+ newline) eq_refl).
  reflexivity.
Defined.

(** An interrupt before the first look at the context: nothing is done in
    either mode; on a path that is not there the error of the path comes
    before the interrupt. *)
Lemma run_after_cancellation_witness :
  ctx (interruptedState 0 exampleFS) = Some O
  /\ FileName (singleFileArgs false) <> ""
  /\ Run exampleHost (singleFileArgs false) [] (interruptedState 0 exampleFS)
     = ([], Returned None, set_ctx (Some O) (interruptedState 0 exampleFS))
  /\ proxyError exampleHost (exampleArgs false "") = None
  /\ absolutePath exampleHost (exampleArgs false "") = inr "/proj"
  /\ 0 <= maxWorkerCount
            (scanConfig exampleHost
               (withDefaults exampleHost (exampleArgs false "") "/proj"))
  /\ fst (fst (Run exampleHost (exampleArgs false "") [exampleRound exampleTree]
                   (interruptedState 0 exampleFS)))
     = [Scanned 0 [context_Canceled]]
  /\ snd (fst (Run exampleHost (exampleArgs false "") [missingRound]
                   (interruptedState 0 exampleFS)))
     = Returned (Some (errorString
         "failed to process path: lstat /proj: no such file or directory")).
Proof.
  assert (Hfile : FileName (singleFileArgs false) <> "") by discriminate.
  assert (Hcount : 0 <= maxWorkerCount
                          (scanConfig exampleHost
                             (withDefaults exampleHost (exampleArgs false "") "/proj")))
    by (vm_compute; discriminate).
  destruct (run_after_cancellation_compiles_nothing exampleHost (singleFileArgs false) []
              (interruptedState 0 exampleFS) eq_refl) as [Hsingle _].
  destruct (run_after_cancellation_compiles_nothing exampleHost (exampleArgs false "")
              [exampleRound exampleTree] (interruptedState 0 exampleFS) eq_refl)
    as [_ Hscan].
  destruct (run_after_cancellation_compiles_nothing exampleHost (exampleArgs false "")
              [missingRound] (interruptedState 0 exampleFS) eq_refl)
    as [_ Hmissing].
  split; [reflexivity|]. split; [exact Hfile|]. split; [exact (Hsingle Hfile eq_refl)|].
  split; [reflexivity|]. split; [reflexivity|]. split; [exact Hcount|].
  destruct (Hscan "/proj" (exampleRound exampleTree) []
                  eq_refl eq_refl eq_refl Hcount eq_refl) as [Hroot _].
  destruct (Hmissing "/proj" missingRound []
                     eq_refl eq_refl eq_refl Hcount eq_refl) as [_ Hlstat].
  split.
  - rewrite (Hroot exampleTree eq_refl). reflexivity.
  - rewrite (Hlstat (errorString "lstat /proj: no such file or directory")
                    eq_refl eq_refl eq_refl).
    reflexivity.
Defined.

(** A path that is not there: the command fails without [-watch] and goes
    on with it. *)
Lemma unreadable_root_witness :
  let e := errorString "lstat /proj: no such file or directory" in
  proxyError exampleHost (exampleArgs false "") = None
  /\ absolutePath exampleHost (exampleArgs false "") = inr "/proj"
  /\ 0 <= maxWorkerCount
            (scanConfig exampleHost
               (withDefaults exampleHost (exampleArgs false "") "/proj"))
  /\ root missingRound = LstatErr e
  /\ GoErrors.IsCanceled e = false
  /\ snd (fst (Run exampleHost (exampleArgs false "") [missingRound] (freshState exampleFS)))
     = Returned (Some (errorString
         "failed to process path: lstat /proj: no such file or directory"))
  /\ (forall oe,
        snd (fst (Run exampleHost (exampleArgs true "") [missingRound; missingRound]
                      (freshState exampleFS))) = Returned oe -> oe = None).
Proof.
  intros e.
  assert (Hcount : 0 <= maxWorkerCount
                          (scanConfig exampleHost
                             (withDefaults exampleHost (exampleArgs false "") "/proj")))
    by (vm_compute; discriminate).
  assert (Hcount' : 0 <= maxWorkerCount
                           (scanConfig exampleHost
                              (withDefaults exampleHost (exampleArgs true "") "/proj")))
    by (vm_compute; discriminate).
  destruct (unreadable_root_ends_the_scan exampleHost (exampleArgs false "") missingRound []
              (freshState exampleFS) "/proj" e eq_refl eq_refl eq_refl Hcount
              eq_refl eq_refl)
    as [Hfails _].
  destruct (unreadable_root_ends_the_scan exampleHost (exampleArgs true "") missingRound
              [missingRound] (freshState exampleFS) "/proj" e
              eq_refl eq_refl eq_refl Hcount' eq_refl eq_refl)
    as [_ Hgoes].
  split; [reflexivity|]. split; [reflexivity|]. split; [exact Hcount|].
  split; [reflexivity|].
  split; [reflexivity|]. split.
  - rewrite (Hfails eq_refl). reflexivity.
  - destruct (Hgoes eq_refl) as [_ Hnone]. exact Hnone.
Defined.

(** The command in a module that does not require this tool, without
    [-watch]: the one file is compiled and the command does not return. *)
Lemma command_hangs_witness :
  let scan := processChanges exampleToolchain plainOS
                (scanConfig exampleHost (withDefaults exampleHost (exampleArgs false "") "/proj"))
                (RootNode smallTree) (freshState exampleFS) in
  foundManifest (gomod (foreignRound smallTree)) (gomod_parents (foreignRound smallTree))
    = Some foreignManifest
  /\ "example.com/app" <> templModulePath
  /\ declaredVersion (Requires foreignManifest) = None
  /\ goesOn (Watch (exampleArgs false "")) (snd (fst scan)) = true
  /\ snd (fst (runCmd exampleHost (exampleArgs false "") [foreignRound smallTree]
                      (freshState exampleFS))) = GateLoops.
Proof.
  intros scan.
  assert (Hother : "example.com/app" <> templModulePath) by discriminate.
  assert (Hgo : goesOn (Watch (exampleArgs false "")) (snd (fst scan)) = true)
    by (vm_compute; reflexivity).
  split; [reflexivity|]. split; [exact Hother|]. split; [reflexivity|].
  split; [exact Hgo|].
  destruct (command_hangs_in_a_module_without_the_dependency exampleHost
              (exampleArgs false "") (foreignRound smallTree) [] (freshState exampleFS)
              "/proj" foreignManifest "example.com/app"
              eq_refl eq_refl eq_refl eq_refl eq_refl eq_refl Hother eq_refl)
    as [Hhangs _].
  exact (Hhangs Hgo).
Defined.

(** The command under a manifest that requires a later version of this
    tool: it warns, and ends as under a manifest that passes. *)
Lemma version_warning_witness :
  let rounds := [outdatedRound smallTree] in
  let run := runLoop exampleHost (exampleArgs false "") false rounds
                     (initialLoop exampleHost) (freshState exampleFS) in
  Forall (fun r => gateReturns exampleHost r = true) rounds
  /\ List.filter isVersionWarning (fst (fst run))
     = [VersionWarning (ErrGeneratorOlder "v0.2.1" "v0.3.0")]
  /\ snd (fst (runLoop exampleHost (exampleArgs false "") false
                       (List.map underOwnManifest rounds)
                       (initialLoop exampleHost) (freshState exampleFS)))
     = snd (fst run)
  /\ snd (fst run) = Returned None.
Proof.
  intros rounds run.
  assert (Hgate : Forall (fun r => gateReturns exampleHost r = true) rounds)
    by (repeat constructor).
  split; [exact Hgate|]. split; [vm_compute; reflexivity|].
  destruct (version_warning_changes_nothing_else exampleHost (exampleArgs false "") false
              rounds Hgate (initialLoop exampleHost) (freshState exampleFS))
    as (Hsame & _).
  split; [exact Hsame|]. vm_compute. reflexivity.
Defined.

(** [-watch] with [-f] is refused. *)
Lemma watch_mode_witness :
  Watch (singleFileArgs true) = true
  /\ snd (fst (Run exampleHost (singleFileArgs true) [exampleRound exampleTree]
                   (freshState exampleFS)))
     = Returned (Some (errorString
         "cannot watch a single file, remove the -f or -watch flag"))
  /\ FileName (singleFileArgs true) <> "".
Proof.
  assert (Hret : snd (fst (Run exampleHost (singleFileArgs true) [exampleRound exampleTree]
                              (freshState exampleFS)))
                 = Returned (Some (errorString
                     "cannot watch a single file, remove the -f or -watch flag")))
    by reflexivity.
  split; [reflexivity|]. split; [exact Hret|].
  destruct (watch_mode_fails_only_on_its_arguments exampleHost (singleFileArgs true)
              [exampleRound exampleTree] (freshState exampleFS) _ eq_refl Hret)
    as [[Hfile _]|[(pe & Hproxy & _)|Habs]].
  - exact Hfile.
  - discriminate Hproxy.
  - discriminate Habs.
Defined.

(** [templ generate -f /proj/a.templ] on the example project. *)
Lemma single_file_mode_witness :
  let st := freshState exampleFS in
  let result := runCmd exampleHost (singleFileArgs false) [exampleRound exampleTree] st in
  FileName (singleFileArgs false) <> ""
  /\ fst (fst result) = []
  /\ snd (fst result) = Returned None
  /\ fileNameToLastModTime (snd result) = fileNameToLastModTime st
  /\ fsys (snd result) !! "/proj/old_templ.go" = Some (IFile "package gone").
Proof.
  intros st result.
  assert (Hfile : FileName (singleFileArgs false) <> "") by discriminate.
  destruct (single_file_mode_compiles_one_file exampleHost (singleFileArgs false)
              [exampleRound exampleTree] st Hfile eq_refl) as (Hrun & Hmap & Hfiles).
  assert (H1 : "/proj/old_templ.go" <> artifactOf (FileName (singleFileArgs false)))
    by (vm_compute; discriminate).
  assert (H2 : "/proj/old_templ.go" <> visualisationOf (FileName (singleFileArgs false)))
    by (vm_compute; discriminate).
  split; [exact Hfile|]. subst result. rewrite Hrun. cbn [fst snd].
  split; [reflexivity|]. split; [vm_compute; reflexivity|]. split; [exact Hmap|].
  rewrite (Hfiles _ H1 H2). reflexivity.
Defined.

(** A pool of one slot, after the first worker is started: it can go on,
    and it can be led to the return of the scan. *)
Lemma worker_pool_never_deadlocks_witness :
  let changed := ["/proj/a.templ"; "/proj/b.templ"] in
  let p := mkPool 1 1 1 (Traversing ["/proj/b.templ"])
                  [InProcessSingleFile "/proj/a.templ"] [] in
  1 <= 1
  /\ exec [SendOnSem; WgAdd; GoWorker] (startPool 1 changed) = Some p
  /\ walker p <> ScanReturned
  /\ (exists s p', step s p = Some p')
  /\ exists more p',
       exec ([SendOnSem; WgAdd; GoWorker] ++ more) (startPool 1 changed) = Some p'
       /\ walker p' = ScanReturned.
Proof.
  intros changed p.
  assert (HW : 1 <= 1) by lia.
  assert (Hexec : exec [SendOnSem; WgAdd; GoWorker] (startPool 1 changed) = Some p)
    by reflexivity.
  assert (Hnot : walker p <> ScanReturned) by discriminate.
  destruct (worker_pool_never_deadlocks 1 changed [SendOnSem; WgAdd; GoWorker] p HW Hexec)
    as (Hstep & Hend & _).
  split; [exact HW|]. split; [exact Hexec|]. split; [exact Hnot|].
  split; [exact (Hstep Hnot)|exact Hend].
Defined.

(** The schedule of the example: both files are compiled, once each. *)
Lemma worker_pool_compiles_each_file_once_witness :
  let changed := ["/proj/a.templ"; "/proj/b.templ"] in
  let p := mkPool 1 0 0 ScanReturned [] changed in
  1 <= 1
  /\ exec exampleSchedule (startPool 1 changed) = Some p
  /\ walker p = ScanReturned
  /\ List.length (List.filter isSendOnSem exampleSchedule) = List.length changed
  /\ finished p ≡ₚ changed.
Proof.
  intros changed p.
  assert (HW : 1 <= 1) by lia.
  assert (Hexec : exec exampleSchedule (startPool 1 changed) = Some p) by reflexivity.
  destruct (worker_pool_compiles_each_file_once 1 changed exampleSchedule p HW Hexec
              eq_refl) as [_ Hall].
  split; [exact HW|]. split; [exact Hexec|]. split; [reflexivity|].
  split; [reflexivity|exact (Hall eq_refl)].
Defined.

(** A watch over the example project behind a proxy, with a command: the
    first scan finds changes and is followed by one summary, one run of the
    command and one reload; the second finds none and is followed by
    nothing. *)
Lemma reload_and_command_witness :
  let args := mkArgs "" "/proj" true "go run ." 0 "http://localhost:8080" 0
                     false false false 0 false in
  let evs := fst (fst (runCmd exampleHost args
                         [exampleRound exampleTree; exampleRound exampleTreeAfter]
                         (freshState exampleFS))) in
  List.filter isSummary evs = [Summary Failure 3 1]
  /\ List.length (List.filter isCommandRun evs) = 1%nat
  /\ List.length (List.filter isSentSSE evs) = 1%nat
  /\ reloadOk "go run ." 0 [] evs.
Proof.
  intros args evs.
  destruct (reload_and_command_follow_a_scan_with_changes exampleHost args
              [exampleRound exampleTree; exampleRound exampleTreeAfter]
              (freshState exampleFS)) as (Hok & Hcommand & Hreload).
  assert (Hsummary : List.filter isSummary evs = [Summary Failure 3 1])
    by (vm_compute; reflexivity).
  split; [exact Hsummary|].
  split; [etransitivity; [exact Hcommand|]; fold evs; rewrite Hsummary; reflexivity|].
  split; [etransitivity; [exact Hreload|]; fold evs; rewrite Hsummary; reflexivity|].
  exact Hok.
Defined.

(** The browser task over a target that answers the third call, with the
    scheduler of the run loop: two delays, then the browser. *)
Lemma openURL_witness :
  openURL NextBackOff [false; false; true] None (NewExponentialBackOff (3, 2))
  = ([Got false; RetryLogged 500; UrlSlept 500;
      Got false; RetryLogged 750; UrlSlept 750;
      Got true; BrowserOpened], Some None)
  /\ openURL NextBackOff [false; false] None (NewExponentialBackOff (3, 2))
     = ([Got false; RetryLogged 500; UrlSlept 500;
         Got false; RetryLogged 750; UrlSlept 750], None).
Proof.
  destruct (openURL_retries_until_the_target_answers NextBackOff 2 [] None
              (NewExponentialBackOff (3, 2))) as [Hanswers Hwaits].
  split; [etransitivity; [exact Hanswers|reflexivity]
         |etransitivity; [exact Hwaits|reflexivity]].
Defined.

(** [templ generate -path /proj] on the example project: one scan, and the
    error of the source that does not parse. *)
Lemma generate_once_witness :
  let run := Run exampleHost (exampleArgs false "") [exampleRound exampleTree]
                 (freshState exampleFS) in
  Watch (exampleArgs false "") = false
  /\ 1 <= maxWorkerCount
            (scanConfig exampleHost
               (withDefaults exampleHost (exampleArgs false "") "/proj"))
  /\ gateReturns exampleHost (exampleRound exampleTree) = true
  /\ snd (fst run)
     = Returned (Some (errorString
         "failed to process path: /proj/b.templ parsing error: unexpected token"))
  /\ List.length (List.filter isSchedule (fst (fst run))) = 1%nat.
Proof.
  intros run.
  assert (Hcount : 1 <= maxWorkerCount
                          (scanConfig exampleHost
                             (withDefaults exampleHost (exampleArgs false "") "/proj")))
    by (vm_compute; discriminate).
  destruct (generate_once_fails_exactly_on_a_scan_error exampleHost (exampleArgs false "")
              (exampleRound exampleTree) [] (freshState exampleFS) "/proj"
              eq_refl eq_refl eq_refl eq_refl Hcount eq_refl) as (Hout & _ & Hone).
  split; [reflexivity|]. split; [exact Hcount|]. split; [reflexivity|].
  split; [etransitivity; [exact Hout|vm_compute; reflexivity]|].
  fold run in Hone. rewrite Hone. reflexivity.
Defined.
